(** * bd.loader: the asset browser's background loading, checked

    A shallow embedding of the parts of bd.loader that coordinate background
    work, and the properties proved of them:

    - [ThreadingUtils]: RequestRunnable and InvokeMethod together with the
      thread pool and the main thread's event queue (lib/threading_utils.py);
    - [HookAccessor]: the hook-dispatching Accessor (lib/database/accessor.py);
    - [Icons]: IconManager and its PixmapLoader threads (lib/threading_utils.py);
    - [AssetSelector]: the lazily loaded tree of AssetTreeView
      (lib/widgets/asset_selector.py);
    - [Proxy]: the natural-order comparator and the recursive filter of
      ProxyModel (lib/widgets/asset_selector.py);
    - [GraphQL]: the row-to-AssetInfo constructor of GraphQLAccessor against
      the AssetInfo dataclass (lib/database/graphql.py, lib/data_models.py);
    - [ItemIcons]: the per-state icons of Item (lib/widgets/asset_selector.py);
    - [AssetLibrary]: the dialog's click handler and the details widget it
      drives (lib/widgets/asset_library.py, lib/widgets/asset_details.py).

    Python objects that are shared and mutated are states passed along;
    threads are schedules of atomic steps; a call that may raise returns a
    [Result]. Qt is modelled where the code relies on it: queued signal
    delivery, the destruction of items by QStandardItemModel.clear, the
    sort order and the recursive filtering of QSortFilterProxyModel. The
    application object is taken to exist while requests run. *)

From Stdlib Require Import ZArith Ascii String List Lia Bool.
From stdpp Require Import gmap strings list.
Import ListNotations.
Set Warnings "-register-all".
Open Scope string_scope.
Open Scope list_scope.

(** Python exceptions that the modelled code raises, catches or lets escape. *)
Inductive PyExc : Type :=
| HookNotFoundError
| HooksNotLoadedError
| TypeError (msg : string)
| ValueError (msg : string)
| KeyError (key : string)
| RuntimeError (msg : string).

(** A Python call either raises or returns. *)
Definition Result (A : Type) : Type := (PyExc + A)%type.

(** Take the element at position [i] out of a list. *)
Fixpoint take_nth {A : Type} (i : nat) (l : list A) {struct l} : option (A * list A) :=
  match l, i with
  | [], _ => None
  | x :: l', O => Some (x, l')
  | x :: l', S i' =>
      match take_nth i' l' with
      | Some (y, rest) => Some (y, x :: rest)
      | None => None
      end
  end.

Module ThreadingUtils.
Section Runner.
(** [Env] is whatever mutable state a unit of work reads when it runs on the
    pool thread; [R] is what it returns; [CB] names the callbacks. *)
Context {Env R CB : Type}.

(** class RequestRunnable(QtCore.QRunnable) *)
Record RequestRunnable : Type := mkRunnable {
  runner_id : nat;
  _request : Env -> Result R;
  _callback : CB
}.

(** An [InvokeMethod(lambda: self._callback(result))] object: its [called]
    signal is queued on the main thread, [execute] then calls the method. *)
Record InvokeMethod : Type := mkInvoke {
  invoke_id : nat;
  method_callback : CB;
  method_result : R
}.

Record LogRecord : Type := mkLog {
  log_id : nat;
  log_exc : PyExc
}.

Record World : Type := mkWorld {
  next_runner : nat;
  pool : list RequestRunnable;
  main_queue : list InvokeMethod;
  called : list InvokeMethod;
  log : list LogRecord
}.

Definition empty_world : World := mkWorld 0 [] [] [] [].

(** RequestRunnable.execute: build the runner and hand it to the global pool. *)
Definition execute (request : Env -> Result R) (callback : CB) (w : World) : World :=
  let runner := mkRunnable (next_runner w) request callback in
  mkWorld (S (next_runner w)) (pool w ++ [runner]) (main_queue w) (called w) (log w).

(** RequestRunnable.run, on a pool thread. *)
Definition run (self : RequestRunnable) (env : Env) (w : World) : World :=
  match _request self env with
  | inr result =>
      mkWorld (next_runner w) (pool w)
        (main_queue w ++ [mkInvoke (runner_id self) (_callback self) result])
        (called w) (log w)
  | inl e =>
      mkWorld (next_runner w) (pool w) (main_queue w) (called w)
        (log w ++ [mkLog (runner_id self) e])
  end.

(** The pool starts any waiting runner, in any order. *)
Definition pool_step (i : nat) (env : Env) (w : World) : World :=
  match take_nth i (pool w) with
  | Some (runner, rest) =>
      run runner env (mkWorld (next_runner w) rest (main_queue w) (called w) (log w))
  | None => w
  end.

(** InvokeMethod.execute, on the main thread: the oldest queued call runs. *)
Definition main_step (w : World) : World :=
  match main_queue w with
  | m :: rest => mkWorld (next_runner w) (pool w) rest (called w ++ [m]) (log w)
  | [] => w
  end.

Inductive Sched : Type :=
| PoolRuns (i : nat) (env : Env)
| MainLoop.

Definition step (w : World) (s : Sched) : World :=
  match s with
  | PoolRuns i env => pool_step i env w
  | MainLoop => main_step w
  end.

Definition exec (ss : list Sched) (w : World) : World := fold_left step ss w.

(** What the units of work run under a schedule got to see. *)
Definition envs_of (ss : list Sched) : list Env :=
  flat_map (fun s => match s with
                     | PoolRuns _ env => [env]
                     | MainLoop => []
                     end) ss.

(** Where the unit of work [n] is: each list holds it that many times. *)
Definition in_pool (n : nat) (w : World) : nat :=
  length (List.filter (fun r => Nat.eqb (runner_id r) n) (pool w)).
Definition in_main_queue (n : nat) (w : World) : nat :=
  length (List.filter (fun m => Nat.eqb (invoke_id m) n) (main_queue w)).
Definition in_called (n : nat) (w : World) : nat :=
  length (List.filter (fun m => Nat.eqb (invoke_id m) n) (called w)).
Definition in_log (n : nat) (w : World) : nat :=
  length (List.filter (fun m => Nat.eqb (log_id m) n) (log w)).

Definition quiescent (w : World) : Prop := pool w = [] /\ main_queue w = [].

(** Runner identifiers in use are below the next one to be handed out. *)
Definition ids_below (w : World) : Prop :=
  Forall (fun r => runner_id r < next_runner w) (pool w) /\
  Forall (fun m => invoke_id m < next_runner w) (main_queue w) /\
  Forall (fun m => invoke_id m < next_runner w) (called w) /\
  Forall (fun m => log_id m < next_runner w) (log w).

(** Where one unit of work is, and what it carries there; [seen] is what
    the units run so far got to see. *)
Record tracked (seen : list Env) (n : nat) (request : Env -> Result R) (callback : CB)
  (w : World) : Prop := {
  tr_once : in_pool n w + in_main_queue n w + in_called n w + in_log n w = 1;
  tr_pool : forall r, In r (pool w) -> runner_id r = n ->
            _request r = request /\ _callback r = callback;
  tr_queue : forall m, In m (main_queue w) -> invoke_id m = n ->
             method_callback m = callback /\
             exists env, In env seen /\ request env = inr (method_result m);
  tr_called : forall m, In m (called w) -> invoke_id m = n ->
              method_callback m = callback /\
              exists env, In env seen /\ request env = inr (method_result m);
  tr_log : forall l, In l (log w) -> log_id l = n ->
           exists env, In env seen /\ request env = inl (log_exc l)
}.

End Runner.
Arguments RequestRunnable : clear implicits.
Arguments InvokeMethod : clear implicits.
Arguments World : clear implicits.
Arguments Sched : clear implicits.
End ThreadingUtils.

(** * lib/data_models.py *)
Module DataModels.

Inductive AssetId : Type :=
| IdInt (n : Z)
| IdStr (s : string).

(** A QPixmap is known here by the image it holds; [None] is the null pixmap. *)
Record QPixmap : Type := mkPixmap { image : option nat }.

Record AssetDetails : Type := mkAssetDetails {
  fullname : string;
  version : Z;
  created_at : Z;
  modified_at : Z;
  thumbnail : option QPixmap
}.

Record AssetInfo : Type := mkAssetInfo {
  id : AssetId;
  type : string;
  name : string;
  icon : option QPixmap;
  details : option AssetDetails
}.

#[global] Instance AssetId_eq_dec : EqDecision AssetId.
Proof. solve_decision. Defined.

#[global] Instance AssetId_countable : Countable AssetId.
Proof.
  refine (inj_countable'
            (fun i => match i with IdInt n => inl n | IdStr s => inr s end)
            (fun x => match x with inl n => IdInt n | inr s => IdStr s end) _).
  intros []; reflexivity.
Defined.

End DataModels.

(** * lib/database/accessor.py *)
Module HookAccessor.
Import DataModels ThreadingUtils.

Inductive PyItem : Type :=
| ItemStr (s : string)
| ItemAsset (a : AssetInfo).

(** What a hook may hand back through [.one()]. *)
Inductive PyValue : Type :=
| PyNone
| PyList (l : list PyItem)
| PyDetails (d : AssetDetails).

Definition truthy (v : PyValue) : bool :=
  match v with
  | PyNone => false
  | PyList [] => false
  | PyList (_ :: _) => true
  | PyDetails _ => true
  end.

(** Python's [a or b]. *)
Definition py_or (a b : PyValue) : PyValue := if truthy a then a else b.

Inductive HookArg : Type :=
| ArgStr (s : string)
| ArgAsset (a : AssetInfo).

Section Accessor.
(** bd.context.Project is declared outside this repository; [project_bool]
    is its truth value, used by [if not self._project]. *)
Context {Project CB : Type}.
Variable project_bool : Project -> bool.

Record Accessor : Type := mkAccessor { _project : option Project }.

(** What a unit of work sees when it runs: the accessor object as it is at
    that moment, and the hook system, [execute_hook(name, ...).one()]. *)
Record Env : Type := mkEnv {
  self_now : Accessor;
  execute_hook_one : string -> option Project -> list HookArg -> Result PyValue
}.

Abbreviation World := (ThreadingUtils.World Env PyValue CB).

Definition set_active_project (self : Accessor) (project : Project) : Accessor :=
  mkAccessor (Some project).

Definition request_asset_types (self : Accessor) (callback : CB) (w : World) : World :=
  match _project self with
  | None => w
  | Some _ =>
      let _request (env : Env) : Result PyValue :=
        let result := PyList [] in
        match execute_hook_one env "bd.loader.get_asset_types"
                (_project (self_now env)) [] with
        | inr v => inr (py_or v result)
        | inl HookNotFoundError => inr result
        | inl HooksNotLoadedError => inr result
        | inl e => inl e
        end in
      execute _request callback w
  end.

Definition request_assets (self : Accessor) (asset_type : string) (callback : CB)
  (w : World) : World :=
  match _project self with
  | None => w
  | Some _ =>
      let _request (env : Env) : Result PyValue :=
        let result := PyList [] in
        match execute_hook_one env "bd.loader.get_assets"
                (_project (self_now env)) [ArgStr asset_type] with
        | inr v => inr (py_or v result)
        | inl HookNotFoundError => inr result
        | inl HooksNotLoadedError => inr result
        | inl e => inl e
        end in
      execute _request callback w
  end.

Definition request_assets_by_regex (self : Accessor) (regex : string) (callback : CB)
  (w : World) : World :=
  let not_project :=
    match _project self with
    | None => true
    | Some p => negb (project_bool p)
    end in
  if not_project then w
  else
    let _request (env : Env) : Result PyValue :=
      let result := PyList [] in
      match execute_hook_one env "bd.loader.get_assets_by_regex"
              (_project (self_now env)) [ArgStr regex] with
      | inr v => inr (py_or v result)
      | inl HookNotFoundError => inr result
      | inl HooksNotLoadedError => inr result
      | inl e => inl e
      end in
    execute _request callback w.

Definition request_asset_details (self : Accessor) (asset_info : AssetInfo)
  (callback : CB) (w : World) : World :=
  match _project self with
  | None => w
  | Some _ =>
      let _request (env : Env) : Result PyValue :=
        match execute_hook_one env "bd.loader.get_assets_details"
                (_project (self_now env)) [ArgAsset asset_info] with
        | inr v => inr v
        | inl HookNotFoundError => inr PyNone
        | inl HooksNotLoadedError => inr PyNone
        | inl e => inl e
        end in
      execute _request callback w
  end.

(** The four request methods, to state what they share. *)
Inductive Call : Type :=
| AssetTypes
| Assets (asset_type : string)
| AssetsByRegex (regex : string)
| AssetDetailsOf (asset_info : AssetInfo).

Definition perform (c : Call) (self : Accessor) (callback : CB) (w : World) : World :=
  match c with
  | AssetTypes => request_asset_types self callback w
  | Assets t => request_assets self t callback w
  | AssetsByRegex re => request_assets_by_regex self re callback w
  | AssetDetailsOf a => request_asset_details self a callback w
  end.

Definition hook_of (c : Call) : string :=
  match c with
  | AssetTypes => "bd.loader.get_asset_types"
  | Assets _ => "bd.loader.get_assets"
  | AssetsByRegex _ => "bd.loader.get_assets_by_regex"
  | AssetDetailsOf _ => "bd.loader.get_assets_details"
  end.

Definition hook_args (c : Call) : list HookArg :=
  match c with
  | AssetTypes => []
  | Assets t => [ArgStr t]
  | AssetsByRegex re => [ArgStr re]
  | AssetDetailsOf a => [ArgAsset a]
  end.

Definition hook_outcome (c : Call) (env : Env) : Result PyValue :=
  execute_hook_one env (hook_of c) (_project (self_now env)) (hook_args c).

(** The empty result of a call: [[]] for the lists, [None] for the details. *)
Definition empty_result (c : Call) : PyValue :=
  match c with
  | AssetDetailsOf _ => PyNone
  | _ => PyList []
  end.

(** What the callback is to receive, given what the hook did: [None] when
    the error is not one the request catches. *)
Definition expected (c : Call) (o : Result PyValue) : option PyValue :=
  match o with
  | inr hv =>
      Some (match c with
            | AssetDetailsOf _ => hv
            | _ => py_or hv (PyList [])
            end)
  | inl HookNotFoundError => Some (empty_result c)
  | inl HooksNotLoadedError => Some (empty_result c)
  | inl _ => None
  end.

(** The hook returns, or is missing. *)
Definition hook_answers (o : Result PyValue) : Prop :=
  match o with
  | inr _ => True
  | inl HookNotFoundError => True
  | inl HooksNotLoadedError => True
  | inl _ => False
  end.

(** Whether the guard at the head of the method lets the call through:
    [is None] for three of them, [not self._project] for the regex one. *)
Definition lets_through (c : Call) (self : Accessor) : bool :=
  match _project self with
  | None => false
  | Some p =>
      match c with
      | AssetsByRegex _ => project_bool p
      | _ => true
      end
  end.

(** The unit of work each method builds. *)
Definition request_of (c : Call) (env : Env) : Result PyValue :=
  match hook_outcome c env with
  | inr v =>
      inr (match c with
           | AssetDetailsOf _ => v
           | _ => py_or v (PyList [])
           end)
  | inl HookNotFoundError => inr (empty_result c)
  | inl HooksNotLoadedError => inr (empty_result c)
  | inl e => inl e
  end.

End Accessor.
Arguments Accessor : clear implicits.
Arguments Env : clear implicits.
End HookAccessor.

(** * lib/threading_utils.py: PixmapLoader and IconManager *)
Module Icons.
Import DataModels.

(** QtGui.QIcon(pixmap) *)
Record QIcon : Type := mkIcon { icon_pixmap : QPixmap }.

Section IconManager.
Context {CB : Type}.

Record IconManager : Type := mkIconManager {
  _queue : list AssetInfo;               (* LifoQueue, newest entry first *)
  _loaded_icons : gmap AssetId QIcon;
  _requests : gmap AssetId CB
}.

(** IconManager.__init__ *)
Definition new_manager : IconManager := mkIconManager [] ∅ ∅.

(** IconManager.request_icon: the new state and the callbacks invoked before
    it returns. *)
Definition request_icon (self : IconManager) (callback : CB) (asset_info : AssetInfo)
  : IconManager * list (CB * QIcon) :=
  let asset_id := id asset_info in
  match _loaded_icons self !! asset_id with
  | Some icon => (self, [(callback, icon)])
  | None =>
      match _requests self !! asset_id with
      | Some _ => (self, [])
      | None =>
          (mkIconManager (asset_info :: _queue self) (_loaded_icons self)
             (<[asset_id := callback]> (_requests self)), [])
      end
  end.

(** IconManager._apply_icon: [self._loaded_icons[asset_id]] raises KeyError
    when the id is missing. *)
Definition _apply_icon (self : IconManager) (asset_id : AssetId)
  : Result (list (CB * QIcon)) :=
  match _loaded_icons self !! asset_id with
  | None => inl (KeyError "asset_id")
  | Some icon =>
      match _requests self !! asset_id with
      | Some callback => inr [(callback, icon)]
      | None => inr []
      end
  end.

(** IconManager._on_pixmap_loaded *)
Definition _on_pixmap_loaded (self : IconManager) (asset_info : AssetInfo)
  (pixmap : QPixmap) : IconManager * Result (list (CB * QIcon)) :=
  let icon := mkIcon pixmap in
  let self' := mkIconManager (_queue self)
                 (<[id asset_info := icon]> (_loaded_icons self)) (_requests self) in
  (self', _apply_icon self' (id asset_info)).

(** IconManager.clear_cache *)
Definition clear_cache (self : IconManager) : IconManager :=
  mkIconManager (_queue self) ∅ ∅.

(** The manager together with its twelve PixmapLoader threads. *)
Record IconSystem : Type := mkIconSystem {
  manager : IconManager;
  loading : list AssetInfo;               (* taken off the queue, load under way *)
  signals : list (AssetInfo * QPixmap);   (* pixmap_loaded emitted, slot not yet run *)
  fetched : list AssetId;                 (* every load_asset_icon_pixmap call made *)
  notified : list (CB * QIcon);           (* every callback invocation, oldest first *)
  failures : list PyExc                   (* what the loaders logged *)
}.

Definition workers : nat := 12.

Definition start : IconSystem := mkIconSystem new_manager [] [] [] [] [].

Inductive Event : Type :=
| RequestIcon (callback : CB) (asset_info : AssetInfo)
| LoaderTakes
| LoaderDone (i : nat) (outcome : Result QPixmap)
| SlotRuns
| ClearCache.

Definition step (s : IconSystem) (e : Event) : IconSystem :=
  match e with
  | RequestIcon callback asset_info =>
      let '(m, cbs) := request_icon (manager s) callback asset_info in
      mkIconSystem m (loading s) (signals s) (fetched s) (notified s ++ cbs) (failures s)
  | LoaderTakes =>
      (* PixmapLoader.start: self._queue.get, by a loader that is idle *)
      match _queue (manager s) with
      | asset_info :: rest =>
          if Nat.ltb (length (loading s)) workers then
            mkIconSystem
              (mkIconManager rest (_loaded_icons (manager s)) (_requests (manager s)))
              (loading s ++ [asset_info]) (signals s)
              (fetched s ++ [id asset_info]) (notified s) (failures s)
          else s
      | [] => s
      end
  | LoaderDone i outcome =>
      (* the try block of PixmapLoader.start ends: emit, or log the exception *)
      match take_nth i (loading s) with
      | Some (asset_info, rest) =>
          match outcome with
          | inr pixmap =>
              mkIconSystem (manager s) rest (signals s ++ [(asset_info, pixmap)])
                (fetched s) (notified s) (failures s)
          | inl exc =>
              mkIconSystem (manager s) rest (signals s) (fetched s) (notified s)
                (failures s ++ [exc])
          end
      | None => s
      end
  | SlotRuns =>
      match signals s with
      | (asset_info, pixmap) :: rest =>
          let '(m, r) := _on_pixmap_loaded (manager s) asset_info pixmap in
          match r with
          | inr cbs =>
              mkIconSystem m (loading s) rest (fetched s) (notified s ++ cbs) (failures s)
          | inl exc =>
              mkIconSystem m (loading s) rest (fetched s) (notified s)
                (failures s ++ [exc])
          end
      | [] => s
      end
  | ClearCache =>
      mkIconSystem (clear_cache (manager s)) (loading s) (signals s) (fetched s)
        (notified s) (failures s)
  end.

Definition run (es : list Event) (s : IconSystem) : IconSystem := fold_left step es s.

Definition is_clear (e : Event) : bool :=
  match e with
  | ClearCache => true
  | _ => false
  end.

Definition has_id (i : AssetId) (a : AssetInfo) : bool := bool_decide (id a = i).

(** Entries for one id: waiting in the queue, being loaded, loaded but not
    yet delivered. *)
Definition queued (i : AssetId) (s : IconSystem) : nat :=
  length (List.filter (has_id i) (_queue (manager s))).
Definition outstanding (i : AssetId) (s : IconSystem) : nat :=
  queued i s
  + length (List.filter (has_id i) (loading s))
  + length (List.filter (fun p => has_id i (fst p)) (signals s)).
(** Fetches issued for one id so far: made already, or still to be made. *)
Definition issued (i : AssetId) (s : IconSystem) : nat :=
  queued i s + length (List.filter (fun j => bool_decide (j = i)) (fetched s)).

(** A run in which the cache is never cleared. *)
Definition no_clear (es : list Event) : bool := forallb (fun e => negb (is_clear e)) es.

(** 1 when a callback is recorded for the id, else 0. *)
Definition pending_bit (i : AssetId) (s : IconSystem) : nat :=
  match _requests (manager s) !! i with
  | Some _ => 1
  | None => 0
  end.

(** Entries for one id among the loads under way, the signals waiting and
    the fetches made. *)
Definition count_loading (i : AssetId) (s : IconSystem) : nat :=
  length (List.filter (has_id i) (loading s)).
Definition count_signals (i : AssetId) (s : IconSystem) : nat :=
  length (List.filter (fun p => has_id i (fst p)) (signals s)).
Definition count_fetched (i : AssetId) (s : IconSystem) : nat :=
  length (List.filter (fun j => bool_decide (j = i)) (fetched s)).

(** What de-duplication maintains while the cache is not cleared. *)
Record dedup (s : IconSystem) : Prop := {
  dedup_issued : forall i, issued i s = pending_bit i s;
  dedup_work : forall i, count_loading i s + count_signals i s <= count_fetched i s;
  dedup_loaded : forall i, is_Some (_loaded_icons (manager s) !! i) ->
                 is_Some (_requests (manager s) !! i)
}.

End IconManager.
Arguments IconManager : clear implicits.
Arguments IconSystem : clear implicits.
Arguments Event : clear implicits.
End Icons.

(** * lib/widgets/asset_selector.py: the lazy tree of AssetTreeView

    The tree is modelled with the methods of AssetTreeView that write the
    LoadingStateRole of an item: _clear, _load_children and the callbacks that
    append rows. ItemModel.data uses the same role on asset rows to mark that
    their thumbnail is being fetched (it stores InProgress, then Loaded, never
    NotLoaded); that is the icon pipeline of [Icons] and is left out here, as
    are the icons the view sets on its items. *)
Module AssetSelector.
Import DataModels.

Inductive EntityType : Type :=
| AssetType
| AssetName.

Inductive LoadingStates : Type :=
| ToLoad
| NotLoaded
| InProgress
| Loaded.

#[global] Instance EntityType_eq_dec : EqDecision EntityType.
Proof. solve_decision. Defined.

#[global] Instance LoadingStates_eq_dec : EqDecision LoadingStates.
Proof. solve_decision. Defined.

(** Item.State *)
Inductive ItemState : Type :=
| Normal
| Expanded
| Selected.

(** AssetTreeView.State *)
Inductive ViewState : Type :=
| Loading
| Ready.

(** bd.context.Project, of which the view reads [str(project.id)] only. *)
Record Project : Type := mkProject { project_id : string }.

(** What DataRole holds: the label, or the asset once it is attached. *)
Inductive ItemData : Type :=
| DataLabel (label : string)
| DataAsset (asset : AssetInfo).

(** An Item with its data roles; [rows] are its children in appendRow order.
    Items are objects: the model owns them, everything else holds handles. *)
Record Item : Type := mkItem {
  text : string;
  entity_type : option EntityType;
  expandable : option bool;
  key : option string;
  loading_state : option LoadingStates;
  data : option ItemData;
  _state : ItemState;
  rows : list nat
}.

(** The callbacks the view hands to the accessor. *)
Inductive Callback : Type :=
| OnAssetTypesLoaded
| AppendAssetItems (parent_item : nat) (entity_type : EntityType)
| AppendAssetItemsByRegex.

Inductive AccessorCall : Type :=
| RequestAssetTypes (callback : Callback)
| RequestAssets (asset_type : string) (callback : Callback)
| RequestAssetsByRegex (regex : string) (callback : Callback).

Record AssetTreeView : Type := mkView {
  _project : Project;
  items : gmap nat Item;          (* the live items of self._model *)
  root : nat;                     (* self._model.invisibleRootItem() *)
  fresh : nat;                    (* the next item to be created *)
  _mapping : gmap string nat;     (* key -> weakref.ref(item) *)
  state : ViewState;
  filter_wildcard : string;       (* self._proxy_model filter *)
  sent : list AccessorCall        (* requests the accessor has yet to answer *)
}.

(** shiboken2.isValid(item) *)
Definition isValid (item : nat) (v : AssetTreeView) : bool :=
  bool_decide (is_Some (items v !! item)).

Definition with_items (f : gmap nat Item -> gmap nat Item) (v : AssetTreeView)
  : AssetTreeView :=
  mkView (_project v) (f (items v)) (root v) (fresh v) (_mapping v) (state v)
    (filter_wildcard v) (sent v).

Definition with_state (s : ViewState) (v : AssetTreeView) : AssetTreeView :=
  mkView (_project v) (items v) (root v) (fresh v) (_mapping v) s
    (filter_wildcard v) (sent v).

Definition send (c : AccessorCall) (v : AssetTreeView) : AssetTreeView :=
  mkView (_project v) (items v) (root v) (fresh v) (_mapping v) (state v)
    (filter_wildcard v) (sent v ++ [c]).

(** item.setData(value, ItemRoles.LoadingStateRole) *)
Definition set_loading_state (s : LoadingStates) (it : Item) : Item :=
  mkItem (text it) (entity_type it) (expandable it) (key it) (Some s) (data it)
    (_state it) (rows it).

(** item.setData(value, ItemRoles.DataRole) *)
Definition set_data (d : ItemData) (it : Item) : Item :=
  mkItem (text it) (entity_type it) (expandable it) (key it) (loading_state it)
    (Some d) (_state it) (rows it).

(** Item.set_state (the icon it swaps in is not modelled) *)
Definition set_state (s : ItemState) (it : Item) : Item :=
  mkItem (text it) (entity_type it) (expandable it) (key it) (loading_state it)
    (data it) s (rows it).

(** parent_item.appendRow(child_item) *)
Definition appendRow (child : nat) (it : Item) : Item :=
  mkItem (text it) (entity_type it) (expandable it) (key it) (loading_state it)
    (data it) (_state it) (rows it ++ [child]).

Definition item_loading_state (item : nat) (v : AssetTreeView) : option LoadingStates :=
  match items v !! item with
  | Some it => loading_state it
  | None => None
  end.

(** Python's [a or b] on an optional string. *)
Definition str_or (a : option string) (b : string) : string :=
  match a with
  | Some EmptyString => b
  | Some s => s
  | None => b
  end.

(** AssetTreeView._find_item_by_key *)
Definition _find_item_by_key (k : string) (v : AssetTreeView)
  : option nat * AssetTreeView :=
  match _mapping v !! k with
  | Some child_item =>
      if isValid child_item v then (Some child_item, v)
      else
        (None,
         mkView (_project v) (items v) (root v) (fresh v) (delete k (_mapping v))
           (state v) (filter_wildcard v) (sent v))
  | None => (None, v)
  end.

(** AssetTreeView._append_item (the icons it sets are not modelled) *)
Definition _append_item (parent_item : nat) (label : string) (entity_type : EntityType)
  (key_arg : option string) (is_expandable : bool) (v : AssetTreeView)
  : nat * AssetTreeView :=
  let parent_item := if isValid parent_item v then parent_item else root v in
  let parent_key :=
    str_or (match items v !! parent_item with
            | Some it => key it
            | None => None
            end) (project_id (_project v)) in
  let k := parent_key +:+ "|" +:+ str_or key_arg label in
  let '(found, v) := _find_item_by_key k v in
  match found with
  | Some child_item => (child_item, v)
  | None =>
      let child_item := fresh v in
      let it := mkItem label (Some entity_type) (Some is_expandable) (Some k)
                  (Some NotLoaded) (Some (DataLabel label)) Normal [] in
      (child_item,
       mkView (_project v)
         (<[child_item := it]> (alter (appendRow child_item) parent_item (items v)))
         (root v) (S (fresh v)) (<[k := child_item]> (_mapping v)) (state v)
         (filter_wildcard v) (sent v))
  end.

(** AssetTreeView._append_items *)
Definition _append_items (parent_item : nat) (entity_type : EntityType)
  (labels : list string) (v : AssetTreeView) : AssetTreeView :=
  if isValid parent_item v then
    let v := fold_left
               (fun v label => snd (_append_item parent_item label entity_type None true v))
               labels v in
    with_items (alter (set_loading_state Loaded) parent_item) v
  else v.

(** AssetTreeView._append_asset_items *)
Definition _append_asset_items (parent_item : nat) (entity_type : EntityType)
  (assets : list AssetInfo) (v : AssetTreeView) : AssetTreeView :=
  if isValid parent_item v then
    let v := fold_left
               (fun v asset =>
                  let '(item, v) :=
                    _append_item parent_item (name asset) entity_type None false v in
                  with_items (alter (set_data (DataAsset asset)) item) v)
               assets v in
    with_items (alter (set_loading_state Loaded) parent_item) v
  else v.

(** AssetTreeView._append_asset_items_by_regex. The second lookup is made with
    the string as written in the source, which is not an f-string. *)
Definition _append_asset_items_by_regex (assets : list AssetInfo) (v : AssetTreeView)
  : AssetTreeView :=
  let v := fold_left
             (fun v asset =>
                let asset_name := name asset in
                let asset_type := type asset in
                let parent_item := root v in
                let parent_key := project_id (_project v) +:+ "|" +:+ asset_type in
                let '(asset_type_item, v) := _find_item_by_key parent_key v in
                let '(asset_type_item, v) :=
                  match asset_type_item with
                  | Some it => (it, v)
                  | None => _append_item parent_item asset_type AssetType None true v
                  end in
                let parent_item := asset_type_item in
                let '(asset_name_item, v) :=
                  _find_item_by_key "{parent_key}|{asset_name}" v in
                match asset_name_item with
                | Some _ => v
                | None =>
                    let '(child_item, v) :=
                      _append_item parent_item asset_name AssetName None false v in
                    with_items (alter (set_data (DataAsset asset)) child_item) v
                end)
             assets v in
  with_state Ready v.

(** AssetTreeView._load_children *)
Definition _load_children (parent_item : nat) (v : AssetTreeView) : AssetTreeView :=
  if bool_decide (item_loading_state parent_item v = Some NotLoaded) then
    let v := with_items (alter (set_loading_state InProgress) parent_item) v in
    if bool_decide (parent_item = root v) then
      send (RequestAssetTypes OnAssetTypesLoaded) v
    else
      match items v !! parent_item with
      | Some it =>
          match entity_type it with
          | Some AssetType =>
              send (RequestAssets (text it) (AppendAssetItems parent_item AssetName)) v
          | _ => v
          end
      | None => v
      end
  else v.

(** The closure _on_asset_types_loaded of _load_children *)
Definition _on_asset_types_loaded (asset_types : list string) (v : AssetTreeView)
  : AssetTreeView :=
  with_state Ready (_append_items (root v) AssetType asset_types v).

(** AssetTreeView._clear: QStandardItemModel.clear() destroys every item and
    installs a new invisible root, all of whose roles are unset. *)
Definition _clear (v : AssetTreeView) : AssetTreeView :=
  let item := fresh v in
  let blank := mkItem "" None None None None None Normal [] in
  let v := mkView (_project v) {[item := blank]} item (S (fresh v)) (_mapping v)
             (state v) (filter_wildcard v) (sent v) in
  let v := with_items (alter (set_loading_state NotLoaded) item) v in
  let v := with_state Loading v in
  _load_children item v.

(** AssetTreeView.__init__, as far as the tree goes *)
Definition new_view (project : Project) : AssetTreeView :=
  _clear (mkView project ∅ 0 0 ∅ Loading "" []).

(** AssetTreeView.reload *)
Definition reload (v : AssetTreeView) : AssetTreeView := _clear v.

(** AssetTreeView.set_active_project *)
Definition set_active_project (project : Project) (v : AssetTreeView) : AssetTreeView :=
  reload (mkView project (items v) (root v) (fresh v) (_mapping v) (state v)
            (filter_wildcard v) (sent v)).

(** AssetTreeView.load_by_regex, with _load_children_by_regex inlined *)
Definition load_by_regex (regex : option string) (v : AssetTreeView) : AssetTreeView :=
  let v :=
    match regex with
    | Some (String c s) =>
        send (RequestAssetsByRegex (String c s) AppendAssetItemsByRegex)
          (with_state Loading v)
    | _ => with_state Ready v
    end in
  mkView (_project v) (items v) (root v) (fresh v) (_mapping v) (state v)
    (match regex with Some r => r | None => "" end) (sent v).

(** AssetTreeView._on_expanded *)
Definition _on_expanded (parent_item : nat) (v : AssetTreeView) : AssetTreeView :=
  _load_children parent_item (with_items (alter (set_state Expanded) parent_item) v).

(** AssetTreeView._on_collapsed *)
Definition _on_collapsed (parent_item : nat) (v : AssetTreeView) : AssetTreeView :=
  with_items (alter (set_state Normal) parent_item) v.

(** AssetTreeView._on_clicked; [is_expanded] is what self.isExpanded answers.
    self.expand emits the view's expanded signal, self.collapse its collapsed
    signal, and the slots above run. *)
Definition _on_clicked (item : nat) (is_expanded : bool) (v : AssetTreeView)
  : AssetTreeView :=
  match items v !! item with
  | Some it =>
      match expandable it with
      | Some true =>
          if negb is_expanded then _on_expanded item (_load_children item v)
          else _on_collapsed item v
      | _ => v
      end
  | None => v
  end.

(** What the accessor passes to a callback. *)
Inductive Answer : Type :=
| Labels (l : list string)
| AssetList (l : list AssetInfo).

Definition callback_of (c : AccessorCall) : Callback :=
  match c with
  | RequestAssetTypes cb => cb
  | RequestAssets _ cb => cb
  | RequestAssetsByRegex _ cb => cb
  end.

Definition call (cb : Callback) (a : Answer) (v : AssetTreeView) : AssetTreeView :=
  match cb, a with
  | OnAssetTypesLoaded, Labels l => _on_asset_types_loaded l v
  | AppendAssetItems parent_item entity_type, AssetList l =>
      _append_asset_items parent_item entity_type l v
  | AppendAssetItemsByRegex, AssetList l => _append_asset_items_by_regex l v
  | _, _ => v
  end.

(** What happens to the view, on the main thread. Signals of the tree come
    for live items only; the accessor answers a request at most once. *)
Inductive Event : Type :=
| ItemExpanded (item : nat)
| ItemCollapsed (item : nat)
| ItemClicked (item : nat) (is_expanded : bool)
| Answered (i : nat) (a : Answer)
| Reloaded
| ProjectSet (project : Project)
| FilterEntered (regex : option string).

Definition step (v : AssetTreeView) (e : Event) : AssetTreeView :=
  match e with
  | ItemExpanded item => if isValid item v then _on_expanded item v else v
  | ItemCollapsed item => if isValid item v then _on_collapsed item v else v
  | ItemClicked item is_expanded =>
      if isValid item v then _on_clicked item is_expanded v else v
  | Answered i a =>
      match take_nth i (sent v) with
      | Some (c, rest) =>
          call (callback_of c) a
            (mkView (_project v) (items v) (root v) (fresh v) (_mapping v) (state v)
               (filter_wildcard v) rest)
      | None => v
      end
  | Reloaded => reload v
  | ProjectSet project => set_active_project project v
  | FilterEntered regex => load_by_regex regex v
  end.

Definition run (es : list Event) (v : AssetTreeView) : AssetTreeView :=
  fold_left step es v.

(** The events that rebuild the tree. *)
Definition rebuilds (e : Event) : bool :=
  match e with
  | Reloaded => true
  | ProjectSet _ => true
  | _ => false
  end.

(** One step of NotLoaded -> InProgress -> Loaded, or none. *)
Definition advances (before after : option LoadingStates) : Prop :=
  after = before \/
  (before = Some NotLoaded /\ after = Some InProgress) \/
  (before = Some InProgress /\ after = Some Loaded).

(** The item is alive. *)
Definition valid (h : nat) (v : AssetTreeView) : Prop := is_Some (items v !! h).

(** A request for the rows below has been sent, or answered. *)
Definition progressing (o : option LoadingStates) : Prop :=
  o = Some InProgress \/ o = Some Loaded.

(** Handles in use are below the next one to be made. *)
Record bounded (v : AssetTreeView) : Prop := {
  b_items : forall h, valid h v -> h < fresh v;
  b_mapping : forall k h, _mapping v !! k = Some h -> h < fresh v
}.

(** Items may have been added; no loading state has changed. *)
Record frame (v v' : AssetTreeView) : Prop := {
  f_root : root v' = root v;
  f_fresh : fresh v <= fresh v';
  f_sent : forall c, In c (sent v') -> In c (sent v);
  f_old : forall h, valid h v ->
          valid h v' /\ item_loading_state h v' = item_loading_state h v;
  f_new : forall h, valid h v' -> valid h v \/ fresh v <= h;
  f_bounded : bounded v -> bounded v'
}.

(** As [frame], but each old item may have moved one step, and requests may
    have been sent or answered. *)
Record one_step (v v' : AssetTreeView) : Prop := {
  o_root : root v' = root v;
  o_fresh : fresh v <= fresh v';
  o_sent : forall c, In c (sent v') ->
           In c (sent v) \/
           (forall p et, callback_of c = AppendAssetItems p et ->
              valid p v' /\ item_loading_state p v' = Some InProgress);
  o_old : forall h, valid h v ->
          valid h v' /\ advances (item_loading_state h v) (item_loading_state h v');
  o_new : forall h, valid h v' -> valid h v \/ fresh v <= h;
  o_bounded : bounded v -> bounded v'
}.

(** What holds of every view: the root is alive and its rows are requested
    or loaded, and so is every live item a pending answer will append to. *)
Record wf (v : AssetTreeView) : Prop := {
  wf_bounded : bounded v;
  wf_root : valid (root v) v;
  wf_root_state : progressing (item_loading_state (root v) v);
  wf_sent : forall c p et, In c (sent v) -> callback_of c = AppendAssetItems p et ->
            p < fresh v /\ (valid p v -> progressing (item_loading_state p v))
}.

End AssetSelector.

(** * lib/widgets/asset_selector.py: ProxyModel *)
Module Proxy.

(** Keys are ASCII text: one [ascii] is one character of the Python str. *)
Definition is_digit (c : ascii) : bool :=
  Nat.leb 48 (nat_of_ascii c) && Nat.leb (nat_of_ascii c) 57.

Definition is_upper (c : ascii) : bool :=
  Nat.leb 65 (nat_of_ascii c) && Nat.leb (nat_of_ascii c) 90.

Definition is_lower (c : ascii) : bool :=
  Nat.leb 97 (nat_of_ascii c) && Nat.leb (nat_of_ascii c) 122.

(** str.swapcase *)
Definition swapcase_char (c : ascii) : ascii :=
  if is_upper c then ascii_of_nat (nat_of_ascii c + 32)
  else if is_lower c then ascii_of_nat (nat_of_ascii c - 32)
  else c.

Fixpoint swapcase (s : string) : string :=
  match s with
  | EmptyString => EmptyString
  | String c s' => String (swapcase_char c) (swapcase s')
  end.

(** The longest run of digits at the head of [s], and what follows it. *)
Fixpoint span_digits (s : string) : string * string :=
  match s with
  | EmptyString => (EmptyString, EmptyString)
  | String c s' =>
      if is_digit c then
        let '(d, r) := span_digits s' in (String c d, r)
      else (EmptyString, s)
  end.

(** The pattern [(\d*\.\d+|\d+)] matched at the head of [s]: the text matched
    and what follows. The first alternative takes all the digits, a dot and
    all the digits after it, and fails if no digit follows the dot (giving
    digits back cannot help: the character after them is then a digit, not a
    dot); the second alternative then takes the digits alone. *)
Definition match_number (s : string) : option (string * string) :=
  let '(d1, r1) := span_digits s in
  let digits_only :=
    match d1 with
    | EmptyString => None
    | _ => Some (d1, r1)
    end in
  match r1 with
  | String "."%char r2 =>
      let '(d2, r3) := span_digits r2 in
      match d2 with
      | EmptyString => digits_only
      | _ => Some (d1 +:+ String "."%char d2, r3)
      end
  | _ => digits_only
  end.

(** Put [c] in front of the first piece. *)
Definition cons_head (c : ascii) (parts : list string) : list string :=
  match parts with
  | t :: rest => String c t :: rest
  | [] => [String c EmptyString]
  end.

(** re.split with that pattern, whose one group puts every match in the list:
    text, number, text, ..., text. Each round consumes a character. *)
Fixpoint re_split_fuel (fuel : nat) (s : string) : list string :=
  match fuel with
  | O => [s]
  | S fuel' =>
      match match_number s with
      | Some (m, rest) => EmptyString :: m :: re_split_fuel fuel' rest
      | None =>
          match s with
          | EmptyString => [EmptyString]
          | String c s' => cons_head c (re_split_fuel fuel' s')
          end
      end
  end.

Definition re_split (s : string) : list string :=
  re_split_fuel (S (String.length s)) s.

(** A Python float: [m * 2^e] with [0 <= m], or [inf]. *)
Inductive PyFloat : Type :=
| Finite (m : Z) (e : Z)
| Infinity.

Fixpoint digits_value (acc : Z) (s : string) : Z :=
  match s with
  | EmptyString => acc
  | String c s' => digits_value (10 * acc + Z.of_nat (nat_of_ascii c - 48)) s'
  end.

(** The binary64 nearest to [n / 10^k], ties to even, as float() rounds. *)
Definition round_binary64 (n : Z) (k : nat) : PyFloat :=
  if (n =? 0)%Z then Finite 0 0
  else
    let d := (10 ^ Z.of_nat k)%Z in
    let e0 := (Z.log2 n - Z.log2 d)%Z in
    let at_least :=
      if (0 <=? e0)%Z then (d * 2 ^ e0 <=? n)%Z else (d <=? n * 2 ^ (- e0))%Z in
    let e := if at_least then e0 else (e0 - 1)%Z in
    let q := Z.max (e - 52) (-1074) in
    let num := if (0 <=? q)%Z then n else (n * 2 ^ (- q))%Z in
    let den := if (0 <=? q)%Z then (d * 2 ^ q)%Z else d in
    let quo := (num / den)%Z in
    let rem := (num mod den)%Z in
    let m :=
      if (2 * rem <? den)%Z then quo
      else if (den <? 2 * rem)%Z then (quo + 1)%Z
      else if Z.even quo then quo else (quo + 1)%Z in
    if (0 <=? q)%Z && (2 ^ 1024 <=? m * 2 ^ q)%Z then Infinity else Finite m q.

(** float(e) on the literals [digits], [digits.], [digits.digits] and
    [.digits]. Python accepts more (signs, exponents, inf, nan, blanks); those
    are reported as ValueError here, so float() raises no more often than
    this function says. *)
Definition float (e : string) : Result PyFloat :=
  let error := inl (ValueError "could not convert string to float") in
  let '(d1, r1) := span_digits e in
  match r1 with
  | EmptyString =>
      match d1 with
      | EmptyString => error
      | _ => inr (round_binary64 (digits_value 0 d1) 0)
      end
  | String "."%char r2 =>
      let '(d2, r3) := span_digits r2 in
      match r3 with
      | EmptyString =>
          match d1 +:+ d2 with
          | EmptyString => error
          | ds => inr (round_binary64 (digits_value 0 ds) (String.length d2))
          end
      | _ => error
      end
  | _ => error
  end.

Definition float_compare (x y : PyFloat) : comparison :=
  match x, y with
  | Infinity, Infinity => Eq
  | Infinity, Finite _ _ => Gt
  | Finite _ _, Infinity => Lt
  | Finite m1 e1, Finite m2 e2 =>
      let e := Z.min e1 e2 in
      (m1 * 2 ^ (e1 - e) ?= m2 * 2 ^ (e2 - e))%Z
  end.

(** An element of the tuple _human_key builds. *)
Inductive Elem : Type :=
| EStr (s : string)
| EFloat (x : PyFloat).

(** [a == b]: a str and a float are never equal. *)
Definition elem_eq (a b : Elem) : bool :=
  match a, b with
  | EStr s, EStr t => String.eqb s t
  | EFloat x, EFloat y =>
      match float_compare x y with
      | Eq => true
      | _ => false
      end
  | _, _ => false
  end.

(** [a > b]: a str and a float do not compare. *)
Definition elem_gt (a b : Elem) : Result bool :=
  match a, b with
  | EStr s, EStr t => inr (String.ltb t s)
  | EFloat x, EFloat y =>
      inr match float_compare x y with
          | Gt => true
          | _ => false
          end
  | _, _ => inl (TypeError "'>' not supported between instances of 'str' and 'float'")
  end.

(** [a > b] on tuples: the first pair of unequal elements decides, else the
    lengths do. *)
Fixpoint tuple_gt (a b : list Elem) : Result bool :=
  match a, b with
  | x :: a', y :: b' => if elem_eq x y then tuple_gt a' b' else elem_gt x y
  | _ :: _, [] => inr true
  | [], _ => inr false
  end.

(** The generator of _human_key, from index [i] on. *)
Fixpoint human_key_from (i : nat) (parts : list string) : Result (list Elem) :=
  match parts with
  | [] => inr []
  | e :: rest =>
      let x := if Nat.even i then inr (EStr (swapcase e))
               else match float e with
                    | inr f => inr (EFloat f)
                    | inl exc => inl exc
                    end in
      match x with
      | inl exc => inl exc
      | inr x =>
          match human_key_from (S i) rest with
          | inl exc => inl exc
          | inr l => inr (x :: l)
          end
      end
  end.

(** ProxyModel._human_key *)
Definition _human_key (key : string) : Result (list Elem) :=
  let parts := re_split key in
  human_key_from 0 parts.

(** ProxyModel.lessThan, on the KeyRole data of the two indexes *)
Definition lessThan (left_sort_data right_sort_data : string) : Result bool :=
  match _human_key left_sort_data with
  | inl exc => inl exc
  | inr kl =>
      match _human_key right_sort_data with
      | inl exc => inl exc
      | inr kr => tuple_gt kl kr
      end
  end.

(** Qt.SortOrder *)
Inductive SortOrder : Type :=
| AscendingOrder
| DescendingOrder.

(** How QSortFilterProxyModel orders two source rows: by lessThan when
    ascending, by lessThan with the rows exchanged when descending. *)
Definition row_before (less : string -> string -> Result bool) (order : SortOrder)
  (a b : string) : Result bool :=
  match order with
  | AscendingOrder => less a b
  | DescendingOrder => less b a
  end.

(** The proxy sorts stably: a row goes in front of the first row that is not
    before it. *)
Fixpoint insert_row (before : string -> string -> Result bool) (x : string)
  (sorted : list string) : Result (list string) :=
  match sorted with
  | [] => inr [x]
  | y :: rest =>
      match before y x with
      | inl exc => inl exc
      | inr true =>
          match insert_row before x rest with
          | inl exc => inl exc
          | inr l => inr (y :: l)
          end
      | inr false => inr (x :: y :: rest)
      end
  end.

Fixpoint sort_rows (before : string -> string -> Result bool) (rows : list string)
  : Result (list string) :=
  match rows with
  | [] => inr []
  | x :: rest =>
      match sort_rows before rest with
      | inl exc => inl exc
      | inr sorted => insert_row before x sorted
      end
  end.

(** AssetTreeView.__init__ calls setSortingEnabled(True), which sorts by the
    header's sort indicator; a QHeaderView starts with column 0 and
    Qt.DescendingOrder, and the header is hidden. *)
Definition view_sort_order : SortOrder := DescendingOrder.

(** Sibling rows, by key, in the order the view shows them. *)
Definition displayed (keys : list string) : Result (list string) :=
  sort_rows (row_before lessThan view_sort_order) keys.

(** str.casefold, on ASCII text *)
Definition casefold_char (c : ascii) : ascii :=
  if is_upper c then ascii_of_nat (nat_of_ascii c + 32) else c.

Fixpoint casefold (s : string) : string :=
  match s with
  | EmptyString => EmptyString
  | String c s' => String (casefold_char c) (casefold s')
  end.

(** The comparator as the specification words it: text runs case-folded. *)
Fixpoint spec_human_key_from (i : nat) (parts : list string) : Result (list Elem) :=
  match parts with
  | [] => inr []
  | e :: rest =>
      let x := if Nat.even i then inr (EStr (casefold e))
               else match float e with
                    | inr f => inr (EFloat f)
                    | inl exc => inl exc
                    end in
      match x with
      | inl exc => inl exc
      | inr x =>
          match spec_human_key_from (S i) rest with
          | inl exc => inl exc
          | inr l => inr (x :: l)
          end
      end
  end.

Definition spec_lessThan (left_key right_key : string) : Result bool :=
  match spec_human_key_from 0 (re_split left_key) with
  | inl exc => inl exc
  | inr kl =>
      match spec_human_key_from 0 (re_split right_key) with
      | inl exc => inl exc
      | inr kr => tuple_gt kl kr
      end
  end.

Definition spec_displayed (keys : list string) : Result (list string) :=
  sort_rows (row_before spec_lessThan view_sort_order) keys.

(** Where the elements of a key are strings: at the even indices from [i]. *)
Fixpoint alternates (i : nat) (k : list Elem) : Prop :=
  match k with
  | [] => True
  | x :: k' =>
      (if Nat.even i then exists s, x = EStr s else exists f, x = EFloat f) /\
      alternates (S i) k'
  end.

(** The shape of what re.split returns: text, then number and text, again
    and again; every number is one float() reads. *)
Inductive split_shape : list string -> Prop :=
| shape_text (t : string) : split_shape [t]
| shape_more (t m : string) (l : list string) :
    (exists f, float m = inr f) -> split_shape l -> split_shape (t :: m :: l).

(** "".join(parts) *)
Fixpoint concat_parts (l : list string) : string :=
  match l with
  | [] => EmptyString
  | t :: l' => t +:+ concat_parts l'
  end.

Fixpoint all_digits (s : string) : bool :=
  match s with
  | EmptyString => true
  | String c s' => is_digit c && all_digits s'
  end.

(** [s] does not begin with a digit. *)
Definition no_digit_ahead (s : string) : Prop :=
  match s with
  | EmptyString => True
  | String c _ => is_digit c = false
  end.

(** A row of the source model with the rows below it; [row_key] is its
    KeyRole data. *)
Inductive Row : Type :=
| mkRow (row_key : string) (rows : list Row).

Definition row_key (r : Row) : string :=
  match r with
  | mkRow k _ => k
  end.

Definition rows (r : Row) : list Row :=
  match r with
  | mkRow _ l => l
  end.

(** Induction on a row, with the claim in hand for the rows below it. *)
Fixpoint Row_rect' (P : Row -> Prop)
  (H : forall k l, Forall P l -> P (mkRow k l)) (r : Row) : P r :=
  match r with
  | mkRow k l =>
      H k l ((fix go (l : list Row) : Forall P l :=
                match l with
                | [] => @List.Forall_nil Row P
                | x :: l' => @List.Forall_cons Row P x l' (Row_rect' P H x) (go l')
                end) l)
  end.

Section Filter.
(** [indexIn pattern text] is QRegExp(pattern, Qt.CaseInsensitive,
    QRegExp.Wildcard).indexIn(text): where the first match starts, or -1. *)
Variable indexIn : string -> string -> Z.

(** ProxyModel.filterAcceptsRow; [pattern] is self.filterRegExp().pattern() *)
Definition filterAcceptsRow (pattern : string) (source_row : Row) : bool :=
  match pattern with
  | EmptyString => true
  | _ =>
      let data := row_key source_row in
      negb (indexIn pattern data =? -1)%Z
  end.

(** With setRecursiveFilteringEnabled(True) the proxy accepts a row that
    filterAcceptsRow accepts, or one of whose rows it accepts in this way. *)
Fixpoint filterRecursiveAcceptsRow (pattern : string) (source_row : Row) : bool :=
  filterAcceptsRow pattern source_row
  || existsb (filterRecursiveAcceptsRow pattern) (rows source_row).

(** The row reached from the top-level rows by a path of row numbers. *)
Fixpoint row_at (top : list Row) (path : list nat) : option Row :=
  match path with
  | [] => None
  | i :: path' =>
      match nth_error top i with
      | None => None
      | Some r =>
          match path' with
          | [] => Some r
          | _ => row_at (rows r) path'
          end
      end
  end.

(** The proxy has an index for a source row when it has one for the parent
    and accepts the row. *)
Fixpoint visible (pattern : string) (top : list Row) (path : list nat) : bool :=
  match path with
  | [] => true
  | i :: path' =>
      match nth_error top i with
      | None => false
      | Some r => filterRecursiveAcceptsRow pattern r && visible pattern (rows r) path'
      end
  end.

(** The keys of a row and of all the rows below it. *)
Fixpoint keys_below (r : Row) : list string :=
  row_key r :: flat_map keys_below (rows r).

Definition matches (pattern key : string) : Prop := indexIn pattern key <> (-1)%Z.

End Filter.

(** Case-insensitive search for a pattern without wildcard characters. *)
Fixpoint starts_with (p s : string) : bool :=
  match p, s with
  | EmptyString, _ => true
  | String a p', String b s' =>
      Ascii.eqb (casefold_char a) (casefold_char b) && starts_with p' s'
  | String _ _, EmptyString => false
  end.

Fixpoint find_from (i : Z) (p s : string) : Z :=
  if starts_with p s then i
  else
    match s with
    | EmptyString => (-1)%Z
    | String _ s' => find_from (i + 1)%Z p s'
    end.

Definition indexIn_plain (pattern text : string) : Z := find_from 0 pattern text.

End Proxy.

(** * lib/database/graphql.py: GraphQLAccessor._create_asset_info_from_db_item *)
Module GraphQL.

(** A value of a result row, or of a keyword argument. *)
Inductive Json : Type :=
| JNull
| JInt (n : Z)
| JStr (s : string).

(** A field of a dataclass, in the order of the class body; [field_default]
    is [None] when the field has no default. *)
Record Field : Type := mkField {
  field_name : string;
  field_default : option Json
}.

(** data_models.AssetInfo as @dataclass reads it. *)
Definition AssetInfo_fields : list Field :=
  [ mkField "id" None;
    mkField "type" None;
    mkField "name" None;
    mkField "icon" (Some JNull);
    mkField "details" (Some JNull) ].

Definition is_field (fields : list Field) (keyword : string) : bool :=
  existsb (fun f => String.eqb (field_name f) keyword) fields.

Fixpoint keyword_value (kwargs : list (string * Json)) (keyword : string) : option Json :=
  match kwargs with
  | [] => None
  | (k, v) :: rest => if String.eqb k keyword then Some v else keyword_value rest keyword
  end.

(** Binding the parameters in order, once every keyword is known. *)
Fixpoint bind_fields (fields : list Field) (kwargs : list (string * Json))
  : Result (list (string * Json)) :=
  match fields with
  | [] => inr []
  | f :: rest =>
      let value :=
        match keyword_value kwargs (field_name f) with
        | Some v => Some v
        | None => field_default f
        end in
      match value with
      | None =>
          inl (TypeError ("__init__() missing 1 required positional argument: '"
                          +:+ field_name f +:+ "'"))
      | Some v =>
          match bind_fields rest kwargs with
          | inl exc => inl exc
          | inr bound => inr ((field_name f, v) :: bound)
          end
      end
  end.

(** The __init__ that @dataclass generates, called with keyword arguments:
    a keyword that names no field is a TypeError; the result is the new
    object's attributes. *)
Definition dataclass_init (fields : list Field) (kwargs : list (string * Json))
  : Result (list (string * Json)) :=
  match List.find (fun kw => negb (is_field fields (fst kw))) kwargs with
  | Some (k, _) =>
      inl (TypeError ("__init__() got an unexpected keyword argument '" +:+ k +:+ "'"))
  | None => bind_fields fields kwargs
  end.

(** item[key] *)
Definition getitem (item : gmap string Json) (k : string) : Result Json :=
  match item !! k with
  | Some v => inr v
  | None => inl (KeyError k)
  end.

(** item.get(key) *)
Definition get (item : gmap string Json) (k : string) : Json :=
  match item !! k with
  | Some v => v
  | None => JNull
  end.

(** GraphQLAccessor._create_asset_info_from_db_item *)
Definition _create_asset_info_from_db_item (item : gmap string Json)
  : Result (list (string * Json)) :=
  match getitem item "id" with
  | inl exc => inl exc
  | inr id =>
      match getitem item "type" with
      | inl exc => inl exc
      | inr type =>
          match getitem item "name" with
          | inl exc => inl exc
          | inr name =>
              dataclass_init AssetInfo_fields
                [ ("id", id); ("type", type); ("name", name);
                  ("level", get item "level");
                  ("category", get item "category") ]
          end
      end
  end.

(** A row as the GetAssets query returns it. *)
Definition chair_row : gmap string Json :=
  <["id" := JInt 17]> (<["type" := JStr "Prop"]> (<["name" := JStr "chair"]>
    (<["level" := JNull]> (<["category" := JStr "furniture"]> ∅)))).

End GraphQL.

(** * Concrete inputs *)
Module Examples.
Import DataModels ThreadingUtils HookAccessor Icons AssetSelector Proxy.

(** Two AssetInfo objects for the same asset, as two queries return them. *)
Definition chair : AssetInfo := mkAssetInfo (IdInt 17) "Prop" "chair" None None.
Definition chair_again : AssetInfo := mkAssetInfo (IdInt 17) "Prop" "chair" None None.
Definition thumb : QPixmap := mkPixmap (Some 1).

(** A project whose hooks are not registered, and one whose hooks answer. *)
Definition no_hooks : Env string :=
  mkEnv (mkAccessor (Some "show")) (fun _ _ _ => inl HookNotFoundError).
Definition with_hooks : Env string :=
  mkEnv (mkAccessor None) (fun _ _ _ => inr (PyList [ItemStr "Prop"])).

Definition idle : World (Env string) PyValue nat := empty_world.

(** The tree after the asset types arrived: the root is item 0, "Prop" is
    item 1 and "Set" is item 2. *)
Definition two_types : list AssetSelector.Event :=
  [Answered 0 (Labels ["Prop"; "Set"])].

(** A type row that does not match "abc" above an asset row that does. *)
Definition prop_rows : list Row :=
  [mkRow "7|Prop" [mkRow "7|Prop|xAbCy" []]; mkRow "7|Set" []].

End Examples.

(** * More of IconManager: what the queue and the cache keep *)
Module IconCache.
Import DataModels Icons.
Section Cache.
Context {CB : Type}.

(** Calls of request_icon, one after the other. *)
Definition requests_of (reqs : list (CB * AssetInfo)) : list (Event CB) :=
  map (fun r => RequestIcon (fst r) (snd r)) reqs.

(** Nothing is on its way for an id that is in the cache. *)
Definition settled (s : IconSystem CB) : Prop :=
  forall i, is_Some (_loaded_icons (manager s) !! i) -> outstanding i s = 0.


End Cache.
End IconCache.

(** * More of AssetTreeView: the key index and the requests under way *)
Module TreeIndex.
Import DataModels AssetSelector.

(** Every live item that has a key is the one the index names for the key. *)
Definition indexed (v : AssetTreeView) : Prop :=
  forall h it k, items v !! h = Some it -> key it = Some k -> _mapping v !! k = Some h.

(** The loading states the view assigns. *)
Definition known_state (o : option LoadingStates) : Prop :=
  o = Some NotLoaded \/ o = Some InProgress \/ o = Some Loaded.

Definition states_known (v : AssetTreeView) : Prop :=
  forall h it, items v !! h = Some it -> known_state (loading_state it).

Record tidy (v : AssetTreeView) : Prop := {
  tidy_bounded : bounded v;
  tidy_indexed : indexed v;
  tidy_states : states_known v
}.

(** appendRow on the item the row goes under, nothing on the others. *)
Definition appendRow_if (b : bool) (child : nat) (it : Item) : Item :=
  if b then appendRow child it else it.

(** The request asks for the rows below item [p]. *)
Definition asks_for (p : nat) (c : AccessorCall) : bool :=
  match callback_of c with
  | AppendAssetItems q _ => Nat.eqb q p
  | _ => false
  end.


(** The rows below an item, in row order. *)
Definition row_items (item : nat) (v : AssetTreeView) : list Item :=
  match items v !! item with
  | Some it => omap (fun c => items v !! c) (rows it)
  | None => []
  end.

(** The row _append_item makes for an asset type under the root. *)
Definition type_row (project : Project) (label : string) : Item :=
  mkItem label (Some AssetType) (Some true)
    (Some (project_id project +:+ "|" +:+ label)) (Some NotLoaded)
    (Some (DataLabel label)) Normal [].

(** An asset row holds an AssetInfo in its DataRole. *)
Definition carries_asset (it : Item) : Prop :=
  entity_type it = Some AssetName -> exists a, data it = Some (DataAsset a).

Definition assets_attached (v : AssetTreeView) : Prop :=
  forall h it, items v !! h = Some it -> carries_asset it.

(** As [assets_attached], but for item [x], which is being made. *)
Definition assets_attached_but (x : nat) (v : AssetTreeView) : Prop :=
  forall h it, items v !! h = Some it -> h <> x -> carries_asset it.

End TreeIndex.

(** * More of ProxyModel: the order lessThan defines *)
Module ProxyOrder.
Import Proxy.

(** Three-way comparison of tuple elements as Python's [==] and [>] see them;
    a str and a float, which do not compare, are told apart here. *)
Definition elem_cmp (x y : Elem) : comparison :=
  match x, y with
  | EStr s, EStr t => String.compare s t
  | EFloat a, EFloat b => float_compare a b
  | EStr _, EFloat _ => Lt
  | EFloat _, EStr _ => Gt
  end.

(** Three-way comparison of tuples: the first unequal pair decides, else the
    lengths do. *)
Fixpoint tuple_cmp (a b : list Elem) : comparison :=
  match a, b with
  | [], [] => Eq
  | [], _ :: _ => Lt
  | _ :: _, [] => Gt
  | x :: a', y :: b' =>
      match elem_cmp x y with
      | Eq => tuple_cmp a' b'
      | c => c
      end
  end.

Definition is_gt (c : comparison) : bool :=
  match c with
  | Gt => true
  | _ => false
  end.

(** The tuple of a key; _human_key raises for no key. *)
Definition key_of (key : string) : list Elem :=
  match _human_key key with
  | inr k => k
  | inl _ => []
  end.

(** The key of each row is not greater than the key of any row shown below
    it: lessThan, which is [>] on the human keys, is false of the two. The
    view sorts in descending order by a lessThan that is [>], so the keys go
    up the natural order from the top row down. *)
Fixpoint ascending (shown : list string) : Prop :=
  match shown with
  | [] => True
  | a :: below => Forall (fun b => lessThan a b = inr false) below /\ ascending below
  end.

Fixpoint has_digit (s : string) : bool :=
  match s with
  | EmptyString => false
  | String c s' => is_digit c || has_digit s'
  end.

(** The text pieces of what re.split returns: those at the even indices. *)
Fixpoint texts (parts : list string) : list string :=
  match parts with
  | [] => []
  | t :: rest =>
      t :: match rest with
           | [] => []
           | _ :: rest' => texts rest'
           end
  end.

End ProxyOrder.

(** * widgets/asset_selector.py: Item.setIcon and Item.set_state *)
Module ItemIcons.
Import DataModels Icons.

(** Item.State *)
Inductive State : Type :=
| Normal
| Expanded
| Selected.

#[global] Instance IconState_eq_dec : EqDecision State.
Proof. solve_decision. Defined.

#[global] Instance IconState_countable : Countable State.
Proof.
  refine (inj_countable'
            (fun s => match s with Normal => 0 | Expanded => 1 | Selected => 2 end)
            (fun n => match n with 0 => Normal | 1 => Expanded | _ => Selected end) _).
  intros []; reflexivity.
Defined.

(** An Item as far as its icons go; [icon] is what QStandardItem.icon()
    holds, [None] for the null icon an item starts with. *)
Record Item : Type := mkItem {
  _icons : gmap State QIcon;
  _state : State;
  icon : option QIcon
}.

(** Item.__init__ *)
Definition new_item : Item := mkItem ∅ Normal None.

(** Item.setIcon *)
Definition setIcon (ic : QIcon) (state : option State) (it : Item) : Item :=
  let state := match state with
               | None => Normal
               | Some s => s
               end in
  let it := mkItem (<[state := ic]> (_icons it)) (_state it) (icon it) in
  if bool_decide (state = _state it) then mkItem (_icons it) (_state it) (Some ic)
  else it.

(** Item.set_state *)
Definition set_state (state : State) (it : Item) : Item :=
  if bool_decide (state = _state it) then it
  else
    let it := mkItem (_icons it) state (icon it) in
    match _icons it !! state with
    | Some ic => mkItem (_icons it) (_state it) (Some ic)
    | None => it
    end.

(** A call of one of the two methods. *)
Inductive Call : Type :=
| SetIcon (ic : QIcon) (state : option State)
| SetState (state : State).

Definition step (it : Item) (c : Call) : Item :=
  match c with
  | SetIcon ic state => setIcon ic state it
  | SetState state => set_state state it
  end.

Definition run (calls : list Call) (it : Item) : Item := fold_left step calls it.

End ItemIcons.

(** * widgets/asset_library.py: AssetLibraryWidget._on_item_clicked, with
      widgets/asset_details.py: AssetDetailsWidget.state and reload *)
Module AssetLibrary.
Import DataModels.

#[global] Instance QPixmap_eq_dec : EqDecision QPixmap.
Proof. solve_decision. Defined.

#[global] Instance AssetDetails_eq_dec : EqDecision AssetDetails.
Proof. solve_decision. Defined.

(** The [==] a dataclass gets: field by field. *)
#[global] Instance AssetInfo_eq_dec : EqDecision AssetInfo.
Proof. solve_decision. Defined.

(** AssetDetailsWidget.State *)
Inductive State : Type :=
| Empty
| Loading
| Ready.

#[global] Instance PanelState_eq_dec : EqDecision State.
Proof. solve_decision. Defined.

(** The details widget: [shown] is the AssetDetails whose values the four
    labels and the preview hold, [None] when they are clear (as they are at
    first, but for the placeholder text); [group_visible] and
    [overlay_visible] are the visibility of self._group and of the loading
    overlay. *)
Record AssetDetailsWidget : Type := mkDetailsWidget {
  _state : State;
  shown : option AssetDetails;
  group_visible : bool;
  overlay_visible : bool
}.

(** The overlay is a child of the preview, which lies in self._group: it is
    on the screen when both are visible. *)
Definition overlay_on_screen (w : AssetDetailsWidget) : bool :=
  overlay_visible w && group_visible w.

(** AssetDetailsWidget.__init__ *)
Definition new_details_widget : AssetDetailsWidget :=
  mkDetailsWidget Empty None false false.

(** The setter of AssetDetailsWidget.state *)
Definition set_state (state : State) (w : AssetDetailsWidget) : AssetDetailsWidget :=
  if bool_decide (state = _state w) then w
  else
    match state with
    | Ready => mkDetailsWidget Ready (shown w) true false
    | Empty => mkDetailsWidget Empty (shown w) false (overlay_visible w)
    | Loading => mkDetailsWidget Loading None true true
    end.

(** AssetDetailsWidget.reload *)
Definition reload (asset_details : option AssetDetails) (w : AssetDetailsWidget)
  : AssetDetailsWidget :=
  match asset_details with
  | None => set_state Empty w
  | Some d =>
      set_state Ready
        (mkDetailsWidget (_state w) (Some d) (group_visible w) (overlay_visible w))
  end.

(** The dialog. AssetInfo objects are mutable and shared between the items
    of the tree, the dialog and the closures it hands to the accessor:
    [assets] gives each object, known by a number, its fields as they are
    now. [sent] lists the requests for details that the accessor has yet to
    answer, each by the asset_info its callback closes over (the accessor
    has a project, which _init_widgets sets). *)
Record AssetLibraryWidget : Type := mkLibrary {
  assets : nat -> AssetInfo;
  _current_asset_info : option nat;
  _asset_details : AssetDetailsWidget;
  sent : list nat
}.

Definition new_library (assets : nat -> AssetInfo) : AssetLibraryWidget :=
  mkLibrary assets None new_details_widget [].

(** asset_info.details = asset_details *)
Definition set_details (asset_info : nat) (asset_details : option AssetDetails)
  (assets : nat -> AssetInfo) : nat -> AssetInfo :=
  fun x =>
    if Nat.eqb x asset_info then
      let a := assets x in mkAssetInfo (id a) (type a) (name a) (icon a) asset_details
    else assets x.

(** What the clicked item holds: the DataRole of an asset row is its
    AssetInfo object. *)
Inductive Clicked : Type :=
| AssetRow (asset_info : nat)
| OtherRow.

(** AssetLibraryWidget._on_item_clicked *)
Definition _on_item_clicked (item : Clicked) (w : AssetLibraryWidget)
  : AssetLibraryWidget :=
  match item with
  | OtherRow =>
      mkLibrary (assets w) (_current_asset_info w) (reload None (_asset_details w))
        (sent w)
  | AssetRow asset_info =>
      match details (assets w asset_info) with
      | Some d =>
          mkLibrary (assets w) (Some asset_info) (reload (Some d) (_asset_details w))
            (sent w)
      | None =>
          mkLibrary (assets w) (Some asset_info) (set_state Loading (_asset_details w))
            (sent w ++ [asset_info])
      end
  end.

(** The closure _on_asset_details_received of _on_item_clicked *)
Definition _on_asset_details_received (asset_info : nat)
  (asset_details : option AssetDetails) (w : AssetLibraryWidget) : AssetLibraryWidget :=
  let assets := set_details asset_info asset_details (assets w) in
  let w := mkLibrary assets (_current_asset_info w) (_asset_details w) (sent w) in
  match _current_asset_info w with
  | Some current =>
      if bool_decide (assets current <> assets asset_info) then w
      else
        mkLibrary assets (_current_asset_info w)
          (reload asset_details (_asset_details w)) (sent w)
  | None => w
  end.

(** What happens to the dialog, on the main thread: a row is clicked, or the
    accessor answers one of the requests it has. *)
Inductive Event : Type :=
| ItemClicked (item : Clicked)
| Answered (i : nat) (asset_details : option AssetDetails).

Definition step (w : AssetLibraryWidget) (e : Event) : AssetLibraryWidget :=
  match e with
  | ItemClicked item => _on_item_clicked item w
  | Answered i asset_details =>
      match take_nth i (sent w) with
      | Some (asset_info, rest) =>
          _on_asset_details_received asset_info asset_details
            (mkLibrary (assets w) (_current_asset_info w) (_asset_details w) rest)
      | None => w
      end
  end.

Definition run (es : list Event) (w : AssetLibraryWidget) : AssetLibraryWidget :=
  fold_left step es w.

End AssetLibrary.

(** * What the dialog keeps true of its details widget *)
Module LibraryFacts.
Import DataModels AssetLibrary.

Record consistent (w : AssetLibraryWidget) : Prop := {
  c_ready :
    _state (_asset_details w) = Ready ->
    exists current d,
      _current_asset_info w = Some current /\
      details (assets w current) = Some d /\
      shown (_asset_details w) = Some d;
  c_loading :
    _state (_asset_details w) = Loading ->
    shown (_asset_details w) = None /\
    exists current, _current_asset_info w = Some current /\ In current (sent w);
  c_overlay :
    overlay_on_screen (_asset_details w) = true ->
    _state (_asset_details w) = Loading;
  c_group :
    group_visible (_asset_details w) = false -> _state (_asset_details w) = Empty
}.

End LibraryFacts.

(** * The tree while the asset types are put in *)
Module TreeStart.
Import DataModels AssetSelector TreeIndex.

(** The invisible root while its rows are loaded, with the rows it has. *)
Definition loading_root (n : nat) : Item :=
  mkItem "" None None None (Some InProgress) None Normal (seq 1 n).

(** The view after rows for the labels [done] have been put under the new
    root, which is item 0. *)
Record filled (project : Project) (done : list string) (v : AssetTreeView) : Prop := {
  fl_root : root v = 0;
  fl_project : _project v = project;
  fl_fresh : fresh v = S (length done);
  fl_root_item : items v !! 0 = Some (loading_root (length done));
  fl_rows : forall i label, done !! i = Some label ->
            items v !! S i = Some (type_row project label);
  fl_mapping : forall k h, _mapping v !! k = Some h ->
               exists label, In label done /\ k = project_id project +:+ "|" +:+ label;
  fl_state : state v = Loading;
  fl_sent : sent v = []
}.

End TreeStart.

(** * The view's own loader: when AssetTreeView.state is Loading *)
Module TreeLoader.
Import DataModels AssetSelector.

(** The answer is of the type the callback takes: a list of labels for
    _on_asset_types_loaded, a list of AssetInfo for the others. *)
Definition fits (cb : Callback) (a : Answer) : bool :=
  match cb, a with
  | OnAssetTypesLoaded, Labels _ => true
  | AppendAssetItems _ _, AssetList _ => true
  | AppendAssetItemsByRegex, AssetList _ => true
  | _, _ => false
  end.

(** Every answer in the run is of the type its request's callback takes. *)
Fixpoint answers_fit (es : list Event) (v : AssetTreeView) : Prop :=
  match es with
  | [] => True
  | e :: es' =>
      match e with
      | Answered i a =>
          match take_nth i (sent v) with
          | Some (c, _) => fits (callback_of c) a = true
          | None => True
          end
      | _ => True
      end /\ answers_fit es' (step v e)
  end.

(** The callback ends with [self.state = self.State.Ready]. *)
Definition ends_loading (c : AccessorCall) : bool :=
  match callback_of c with
  | OnAssetTypesLoaded => true
  | AppendAssetItemsByRegex => true
  | AppendAssetItems _ _ => false
  end.

(** While the view is Loading, a request whose answer ends it is out. *)
Definition loading_has_cause (v : AssetTreeView) : Prop :=
  state v = Loading -> exists c, In c (sent v) /\ ends_loading c = true.

End TreeLoader.

Lemma take_nth_perm {A} (p : A -> bool) i (l : list A) x rest :
  take_nth i l = Some (x, rest) ->
  length (List.filter p l) = (if p x then 1 else 0) + length (List.filter p rest).
Proof.
  revert i x rest. induction l as [|a l IH]; intros i x rest H; simpl in H.
  - discriminate.
  - destruct i as [|i].
    + inversion H; subst. simpl. destruct (p x); simpl; lia.
    + destruct (take_nth i l) as [[y r]|] eqn:E; [|discriminate].
      inversion H; subst. specialize (IH _ _ _ E). simpl.
      destruct (p a), (p x); simpl in *; lia.
Qed.

Lemma take_nth_In {A} i (l : list A) x rest :
  take_nth i l = Some (x, rest) -> In x l /\ (forall y, In y rest -> In y l).
Proof.
  revert i x rest. induction l as [|a l IH]; intros i x rest H; simpl in H.
  - discriminate.
  - destruct i as [|i].
    + inversion H; subst. split; [now left | intros; now right].
    + destruct (take_nth i l) as [[y r]|] eqn:E; [|discriminate].
      inversion H; subst. destruct (IH _ _ _ E) as [H1 H2].
      split; [now right|]. intros z [->|Hz]; [now left | right; auto].
Qed.


Section RunnerFacts.
Import ThreadingUtils.
Context {Env R CB : Type}.
Abbreviation RWorld := (World Env R CB).
Abbreviation RSched := (Sched Env).

Lemma filter_length_app {A} (p : A -> bool) l1 l2 :
  length (List.filter p (l1 ++ l2)) = length (List.filter p l1) + length (List.filter p l2).
Proof. rewrite List.filter_app, length_app. reflexivity. Qed.

Lemma filter_length_none {A} (p : A -> bool) l :
  Forall (fun x => p x = false) l -> length (List.filter p l) = 0.
Proof.
  induction 1 as [|x l Hx _ IH]; simpl; [reflexivity|]. now rewrite Hx.
Qed.

Lemma count_pos_In {A} (p : A -> bool) (l : list A) :
  0 < length (List.filter p l) -> exists x, In x l /\ p x = true.
Proof.
  destruct (List.filter p l) as [|x r] eqn:E; simpl; [lia|]. intros _.
  assert (In x (List.filter p l)) as H by (rewrite E; now left).
  apply List.filter_In in H. eauto.
Qed.

Lemma tracked_execute (w : RWorld) request callback :
  ids_below w -> tracked [] (next_runner w) request callback (execute request callback w).
Proof.
  intros (Hp & Hq & Hc & Hl).
  assert (Z : forall {A} (f : A -> nat) (l : list A),
             Forall (fun x => f x < next_runner w) l ->
             Forall (fun x => Nat.eqb (f x) (next_runner w) = false) l).
  { intros A f l. apply List.Forall_impl. intros x Hx. apply Nat.eqb_neq. lia. }
  split; unfold in_pool, in_main_queue, in_called, in_log; simpl.
  - rewrite filter_length_app.
    rewrite (filter_length_none _ (pool w)) by (apply (Z _ runner_id); assumption).
    rewrite (filter_length_none _ (main_queue w)) by (apply (Z _ invoke_id); assumption).
    rewrite (filter_length_none _ (called w)) by (apply (Z _ invoke_id); assumption).
    rewrite (filter_length_none _ (log w)) by (apply (Z _ log_id); assumption).
    simpl. now rewrite Nat.eqb_refl.
  - intros r Hr Hn. apply in_app_or in Hr as [Hr|[<-|[]]]; [|now split].
    rewrite List.Forall_forall in Hp. apply Hp in Hr. lia.
  - intros m Hm Hn. rewrite List.Forall_forall in Hq. apply Hq in Hm. lia.
  - intros m Hm Hn. rewrite List.Forall_forall in Hc. apply Hc in Hm. lia.
  - intros l Hl' Hn. rewrite List.Forall_forall in Hl. apply Hl in Hl'. lia.
Qed.

Lemma tracked_more (seen seen' : list Env) n request callback (w : RWorld) :
  (forall env, In env seen -> In env seen') ->
  tracked seen n request callback w -> tracked seen' n request callback w.
Proof.
  intros Hsub [Ho Hp Hq Hc Hl]. split; [assumption | assumption | | |].
  - intros m Hm Hn. destruct (Hq m Hm Hn) as (H1 & env & He & Hr). eauto.
  - intros m Hm Hn. destruct (Hc m Hm Hn) as (H1 & env & He & Hr). eauto.
  - intros l Hl' Hn. destruct (Hl l Hl' Hn) as (env & He & Hr). eauto.
Qed.

Lemma tracked_step (seen : list Env) n request callback (w : RWorld) (s : RSched) :
  tracked seen n request callback w ->
  tracked (seen ++ envs_of [s]) n request callback (step w s).
Proof.
  intros H.
  assert (H' : tracked (seen ++ envs_of [s]) n request callback w).
  { apply tracked_more with seen; [|exact H]. intros env He. apply in_or_app. now left. }
  pose proof H' as [Ho Hp Hq Hc Hl]. destruct s as [i env|]; simpl.
  - unfold pool_step. destruct (take_nth i (pool w)) as [[r rest]|] eqn:E;
      [|exact H'].
    destruct (take_nth_In _ _ _ _ E) as [Hin Hrest].
    pose proof (take_nth_perm (fun r => Nat.eqb (runner_id r) n) _ _ _ _ E) as Hcount.
    assert (In env (seen ++ [env])) as Henv by (apply in_or_app; right; now left).
    unfold run; simpl. destruct (_request r env) as [e|res] eqn:Ereq.
    + split; unfold in_pool, in_main_queue, in_called, in_log in *; simpl in *.
      * rewrite filter_length_app. simpl.
        destruct (Nat.eqb (runner_id r) n); simpl in *; lia.
      * intros; apply Hp; auto.
      * assumption.
      * assumption.
      * intros l Hl' Hn. apply in_app_or in Hl' as [Hl'|[<-|[]]]; [now apply Hl|].
        simpl in Hn. destruct (Hp r Hin Hn) as [<- _]. eauto.
    + split; unfold in_pool, in_main_queue, in_called, in_log in *; simpl in *.
      * rewrite filter_length_app. simpl.
        destruct (Nat.eqb (runner_id r) n); simpl in *; lia.
      * intros; apply Hp; auto.
      * intros m Hm Hn. apply in_app_or in Hm as [Hm|[<-|[]]]; [now apply Hq|].
        simpl in *. destruct (Hp r Hin Hn) as [<- <-]. eauto.
      * assumption.
      * assumption.
  - unfold main_step. destruct (main_queue w) as [|m rest] eqn:E; [exact H'|].
    split; unfold in_pool, in_main_queue, in_called, in_log in *; simpl in *.
    + rewrite E in Ho. rewrite filter_length_app. simpl in *.
      destruct (Nat.eqb (invoke_id m) n); simpl in *; lia.
    + assumption.
    + intros m' Hm. apply Hq. right. exact Hm.
    + intros m' Hm Hn. apply in_app_or in Hm as [Hm|[<-|[]]]; [now apply Hc|].
      apply Hq; [now left | assumption].
    + assumption.
Qed.

Lemma envs_of_cons (s : RSched) (ss : list RSched) :
  envs_of (s :: ss) = envs_of [s] ++ envs_of ss.
Proof. unfold envs_of. simpl. now rewrite app_nil_r. Qed.

Lemma tracked_exec (seen : list Env) n request callback (ss : list RSched) (w : RWorld) :
  tracked seen n request callback w ->
  tracked (seen ++ envs_of ss) n request callback (exec ss w).
Proof.
  revert seen w. induction ss as [|s ss IH]; intros seen w H.
  - simpl. now rewrite app_nil_r.
  - rewrite envs_of_cons, app_assoc. simpl. apply IH. now apply tracked_step.
Qed.

Lemma quiescent_nowhere n (w : RWorld) :
  quiescent w -> in_pool n w = 0 /\ in_main_queue n w = 0.
Proof. intros [Hp Hq]. unfold in_pool, in_main_queue. now rewrite Hp, Hq. Qed.

Lemma tracked_from_execute (w : RWorld) request callback (ss : list RSched) :
  ids_below w ->
  tracked (envs_of ss) (next_runner w) request callback
    (exec ss (execute request callback w)).
Proof.
  intros Hw. apply (tracked_exec [] _ _ _ ss), tracked_execute, Hw.
Qed.

(** C7. A unit of work handed to RequestRunnable.execute is, at every moment
    of every schedule, in exactly one place: waiting in the pool, queued for
    the main thread, called back, or logged. Its callback is called only with
    a result the work returned, and an exception is logged only if the work
    raised it. If the work raises whenever it is run the callback is never
    called and, once pool and main queue are empty, the error is logged once;
    if the work returns whenever it is run nothing is logged and, once pool
    and main queue are empty, the callback has been called exactly once. *)
Theorem request_runnable_callback_iff_no_raise
  (w : RWorld) (request : Env -> Result R) (callback : CB) (ss : list RSched) :
  ids_below w ->
  let n := next_runner w in
  let w' := exec ss (execute request callback w) in
  called (execute request callback w) = called w /\
  in_pool n w' + in_main_queue n w' + in_called n w' + in_log n w' = 1 /\
  (forall m, In m (called w') -> invoke_id m = n ->
     method_callback m = callback /\
     exists env, In env (envs_of ss) /\ request env = inr (method_result m)) /\
  (forall l, In l (log w') -> log_id l = n ->
     exists env, In env (envs_of ss) /\ request env = inl (log_exc l)) /\
  ((forall env, In env (envs_of ss) -> exists e, request env = inl e) ->
     in_called n w' = 0 /\ (quiescent w' -> in_log n w' = 1)) /\
  ((forall env, In env (envs_of ss) -> exists r, request env = inr r) ->
     in_log n w' = 0 /\ (quiescent w' -> in_called n w' = 1)).
Proof.
  intros Hw n w'.
  pose proof (tracked_from_execute w request callback ss Hw) as [Ho Hp Hq Hc Hl].
  fold w' in Ho, Hp, Hq, Hc, Hl. fold n in Ho, Hp, Hq, Hc, Hl.
  split; [reflexivity|]. split; [exact Ho|]. split; [exact Hc|]. split; [exact Hl|].
  split.
  - intros Hraise.
    assert (in_called n w' = 0) as H0.
    { destruct (in_called n w') eqn:E; [reflexivity|].
      destruct (count_pos_In (fun m => Nat.eqb (invoke_id m) n) (called w')) as (m & Hm & Hn).
      { unfold in_called in E. lia. }
      apply Nat.eqb_eq in Hn. destruct (Hc m Hm Hn) as (_ & env & Hin & He).
      destruct (Hraise env Hin) as [e He']. congruence. }
    split; [exact H0|]. intros Hqu. destruct (quiescent_nowhere n w' Hqu). lia.
  - intros Hret.
    assert (in_log n w' = 0) as H0.
    { destruct (in_log n w') eqn:E; [reflexivity|].
      destruct (count_pos_In (fun m => Nat.eqb (log_id m) n) (log w')) as (m & Hm & Hn).
      { unfold in_log in E. lia. }
      apply Nat.eqb_eq in Hn. destruct (Hl m Hm Hn) as (env & Hin & He).
      destruct (Hret env Hin) as [e He']. congruence. }
    split; [exact H0|]. intros Hqu. destruct (quiescent_nowhere n w' Hqu). lia.
Qed.
End RunnerFacts.

Section AccessorFacts.
Import DataModels ThreadingUtils HookAccessor.
Context {Project CB : Type}.
Variable project_bool : Project -> bool.
Abbreviation AWorld := (ThreadingUtils.World (Env Project) PyValue CB).
Abbreviation ASched := (ThreadingUtils.Sched (Env Project)).

Lemma perform_blocked (c : Call) (self : Accessor Project) (callback : CB) (w : AWorld) :
  lets_through project_bool c self = false ->
  perform project_bool c self callback w = w.
Proof.
  unfold lets_through. destruct self as [[p|]]; destruct c; simpl; intros H;
    try discriminate; try reflexivity.
  unfold request_assets_by_regex. simpl. now rewrite H.
Qed.

Lemma perform_through (c : Call) (self : Accessor Project) (callback : CB) (w : AWorld) :
  lets_through project_bool c self = true ->
  exists request,
    perform project_bool c self callback w = execute request callback w /\
    forall env, request env = request_of c env.
Proof.
  unfold lets_through. destruct self as [[p|]]; [|discriminate].
  destruct c; simpl; intros H; eexists; (split; [
    first [ reflexivity
          | unfold request_assets_by_regex; simpl; rewrite H; reflexivity ] |]);
  intros env; unfold request_of, hook_outcome; simpl;
  destruct (execute_hook_one env _ _ _) as [[]|v]; reflexivity.
Qed.

Lemma request_of_expected (c : Call) (env : Env Project) :
  match request_of c env with
  | inr v => expected c (hook_outcome c env) = Some v
  | inl e => hook_outcome c env = inl e /\ expected c (hook_outcome c env) = None
  end.
Proof.
  unfold request_of, expected.
  destruct (hook_outcome c env) as [[]|v]; auto.
Qed.

Lemma request_of_answers (c : Call) (env : Env Project) :
  hook_answers (hook_outcome c env) -> exists v, request_of c env = inr v.
Proof.
  unfold request_of, hook_answers.
  destruct (hook_outcome c env) as [[]|v]; intros H; try contradiction; eauto.
Qed.

(** C1, amended. Each of the four request methods returns at once. With no
    active project (for request_assets_by_regex: with a project that is
    false) it does nothing, so its callback is never called. Otherwise it
    hands one unit of work to the runner; the callback is called only with
    what the hook returned, or with the empty result ([] for the lists, None
    for the details) when the hook is missing or, for the lists, returned a
    false value; an error of another kind is logged instead. If the hook
    answers or is missing whenever the work runs, nothing is logged and, once
    pool and main queue are empty, the callback has been called exactly
    once. *)
Theorem accessor_request_calls_back_once_given_project
  (c : Call) (self : Accessor Project) (callback : CB) (w : AWorld) (ss : list ASched) :
  ids_below w ->
  let n := next_runner w in
  let w1 := perform project_bool c self callback w in
  let w' := exec ss w1 in
  (lets_through project_bool c self = false -> w1 = w) /\
  (lets_through project_bool c self = true ->
     called w1 = called w /\
     in_pool n w' + in_main_queue n w' + in_called n w' + in_log n w' = 1 /\
     (forall m, In m (called w') -> invoke_id m = n ->
        method_callback m = callback /\
        exists env : Env Project,
          In env (envs_of ss) /\
          expected c (hook_outcome c env) = Some (method_result m)) /\
     (forall l, In l (log w') -> log_id l = n ->
        exists env : Env Project,
          In env (envs_of ss) /\
          hook_outcome c env = inl (log_exc l) /\
          expected c (hook_outcome c env) = None) /\
     ((forall env : Env Project, In env (envs_of ss) ->
         hook_answers (hook_outcome c env)) ->
        in_log n w' = 0 /\ (quiescent w' -> in_called n w' = 1))).
Proof.
  intros Hw n w1 w'. split; [apply perform_blocked|].
  intros Hthrough.
  destruct (perform_through c self callback w Hthrough) as (request & Hperf & Hreq).
  subst w' w1. rewrite Hperf.
  pose proof (tracked_from_execute w request callback ss Hw) as [Ho Hp Hq Hc Hl].
  fold n in Ho, Hp, Hq, Hc, Hl.
  set (w' := exec ss (execute request callback w)) in *.
  split; [reflexivity|]. split; [exact Ho|].
  assert (Hlog : forall l, In l (log w') -> log_id l = n ->
            exists env : Env Project,
              In env (envs_of ss) /\
              hook_outcome c env = inl (log_exc l) /\
              expected c (hook_outcome c env) = None).
  { intros l Hin Hn. destruct (Hl l Hin Hn) as (env & Hseen & He). exists env.
    split; [exact Hseen|].
    pose proof (request_of_expected c env) as Hx. rewrite <- Hreq, He in Hx. exact Hx. }
  split; [|split; [exact Hlog|]].
  - intros m Hin Hn. destruct (Hc m Hin Hn) as (Hcb & env & Hseen & He).
    split; [exact Hcb|]. exists env. split; [exact Hseen|].
    pose proof (request_of_expected c env) as Hx.
    rewrite <- Hreq, He in Hx. exact Hx.
  - intros Hans.
    assert (in_log n w' = 0) as H0.
    { destruct (in_log n w') eqn:E; [reflexivity|].
      destruct (count_pos_In (fun m => Nat.eqb (log_id m) n) (log w')) as (l & Hin & Hn).
      { unfold in_log in E. lia. }
      apply Nat.eqb_eq in Hn. destruct (Hl l Hin Hn) as (env & Hseen & He).
      destruct (request_of_answers c env (Hans env Hseen)) as [v Hv]. congruence. }
    split; [exact H0|]. intros Hqu. destruct (quiescent_nowhere n w' Hqu). lia.
Qed.
End AccessorFacts.

Section IconFacts.
Import DataModels Icons.
Context {CB : Type}.
Abbreviation Manager := (IconManager CB).
Abbreviation System := (IconSystem CB).
Abbreviation IEvent := (Event CB).

Lemma dedup_start : dedup (@start CB).
Proof.
  split; intros i; try reflexivity. simpl. rewrite lookup_empty. intros [x Hx]. discriminate.
Qed.

Lemma has_id_self (a : AssetInfo) : has_id (id a) a = true.
Proof. unfold has_id. now apply bool_decide_eq_true. Qed.

Lemma has_id_other (i : AssetId) (a : AssetInfo) : id a <> i -> has_id i a = false.
Proof. unfold has_id. intros H. now apply bool_decide_eq_false. Qed.


Lemma dedup_same (s s' : System) :
  manager s' = manager s -> loading s' = loading s -> signals s' = signals s ->
  fetched s' = fetched s -> dedup s -> dedup s'.
Proof.
  intros Hm Hl Hg Hf [Hi Hw Hd].
  split; intros i; [specialize (Hi i) | specialize (Hw i) | specialize (Hd i)];
    unfold issued, queued, pending_bit, count_loading, count_signals, count_fetched in *;
    rewrite ?Hm, ?Hl, ?Hg, ?Hf; assumption.
Qed.

Lemma dedup_step (s : System) (e : IEvent) :
  is_clear e = false -> dedup s -> dedup (step s e).
Proof.
  intros He Hs. pose proof Hs as [Hi Hw Hl].
  destruct e as [cb a| |k o| |]; simpl in *; try discriminate.
  - unfold request_icon.
    destruct (_loaded_icons (manager s) !! id a) as [ic|] eqn:El;
      [now apply (dedup_same s)|].
    destruct (_requests (manager s) !! id a) as [cb0|] eqn:Er;
      [now apply (dedup_same s)|].
    split; intros i; [|apply Hw|].
    + specialize (Hi i). unfold issued, queued, pending_bit in *. simpl.
      destruct (decide (id a = i)) as [<-|Hne].
      * rewrite has_id_self, lookup_insert_eq. rewrite Er in Hi. simpl. lia.
      * rewrite has_id_other, lookup_insert_ne by assumption. exact Hi.
    + simpl. intros Hsome. destruct (decide (id a = i)) as [<-|Hne].
      * rewrite lookup_insert_eq. eauto.
      * rewrite lookup_insert_ne by assumption. now apply Hl.
  - destruct (_queue (manager s)) as [|a rest] eqn:Eq; [exact Hs|].
    destruct (Nat.ltb (length (loading s)) workers); [|exact Hs].
    split; intros i; [| |apply Hl].
    + specialize (Hi i). unfold issued, queued, pending_bit in *. simpl.
      rewrite Eq in Hi. simpl in Hi. rewrite List.filter_app, length_app. simpl.
      unfold has_id in *. destruct (decide (id a = i)) as [Heq|Hne].
      * rewrite !bool_decide_eq_true_2 in * by assumption. simpl in *. lia.
      * rewrite !bool_decide_eq_false_2 in * by assumption. simpl in *. lia.
    + specialize (Hw i). unfold count_loading, count_signals, count_fetched in *. simpl.
      rewrite !List.filter_app, !length_app. simpl.
      unfold has_id in *. destruct (decide (id a = i)) as [Heq|Hne].
      * rewrite !bool_decide_eq_true_2 by assumption. simpl. lia.
      * rewrite !bool_decide_eq_false_2 by assumption. simpl. lia.
  - destruct (take_nth k (loading s)) as [[a rest]|] eqn:Er; [|exact Hs].
    destruct o as [exc|px]; (split; intros i; [apply Hi| |apply Hl]);
      specialize (Hw i); unfold count_loading, count_signals, count_fetched in *; simpl;
      rewrite (take_nth_perm (has_id i) _ _ _ _ Er) in Hw.
    + destruct (has_id i a); simpl in *; lia.
    + rewrite List.filter_app, length_app. simpl.
      destruct (has_id i a); simpl in *; lia.
  - destruct (signals s) as [|[a px] rest] eqn:Es; [exact Hs|].
    assert (is_Some (_requests (manager s) !! id a)) as Hpend.
    { pose proof (Hw (id a)) as Hwa. pose proof (Hi (id a)) as Hia.
      unfold count_loading, count_signals, count_fetched, issued, pending_bit in *.
      rewrite Es in Hwa. simpl in Hwa. rewrite has_id_self in Hwa. simpl in Hwa.
      destruct (_requests (manager s) !! id a); [eauto | lia]. }
    unfold _on_pixmap_loaded, _apply_icon. simpl. rewrite lookup_insert_eq.
    destruct Hpend as [cb Hcb]. rewrite Hcb.
    split; intros i.
    + apply Hi.
    + specialize (Hw i). unfold count_loading, count_signals, count_fetched in *.
      simpl in *. rewrite Es in Hw. simpl in Hw.
      destruct (has_id i a); simpl in *; lia.
    + simpl. destruct (decide (id a = i)) as [<-|Hne].
      * intros _. eauto.
      * rewrite lookup_insert_ne by assumption. apply Hl.
Qed.

Lemma dedup_run (es : list IEvent) (s : System) :
  no_clear es = true -> dedup s -> dedup (run es s).
Proof.
  revert s. induction es as [|e es IH]; intros s Hes Hs; simpl in *; [assumption|].
  apply andb_prop in Hes as [He Hes]. apply negb_true_iff in He.
  apply IH; [assumption|]. now apply dedup_step.
Qed.

Lemma dedup_bounds (s : System) (i : AssetId) :
  dedup s -> issued i s <= 1 /\ outstanding i s <= 1.
Proof.
  intros [Hi Hw _]. specialize (Hi i). specialize (Hw i).
  unfold outstanding, issued, pending_bit, count_loading, count_signals, count_fetched in *.
  destruct (_requests (manager s) !! i); lia.
Qed.

(** A pending, not yet loaded id: the call changes nothing. *)
Lemma request_icon_pending (self : Manager) (callback cb0 : CB) (a : AssetInfo) :
  _loaded_icons self !! id a = None ->
  _requests self !! id a = Some cb0 ->
  request_icon self callback a = (self, []).
Proof. intros Hl Hr. unfold request_icon. now rewrite Hl, Hr. Qed.

(** The callback recorded for an id stays until the cache is cleared. *)
Lemma pending_kept_step (s : System) (e : IEvent) (i : AssetId) (cb : CB) :
  is_clear e = false ->
  _requests (manager s) !! i = Some cb ->
  _requests (manager (step s e)) !! i = Some cb.
Proof.
  intros He Hr. destruct e as [cb' a| |k o| |]; simpl in *; try discriminate.
  - unfold request_icon.
    destruct (_loaded_icons (manager s) !! id a); [exact Hr|].
    destruct (_requests (manager s) !! id a) eqn:Er; [exact Hr|]. simpl.
    rewrite lookup_insert_ne; [exact Hr|]. intros Heq. rewrite Heq in Er. congruence.
  - destruct (_queue (manager s)); [exact Hr|].
    destruct (Nat.ltb (length (loading s)) workers); exact Hr.
  - destruct (take_nth k (loading s)) as [[a rest]|]; [|exact Hr].
    destruct o; exact Hr.
  - destruct (signals s) as [|[a px] rest]; [exact Hr|].
    unfold _on_pixmap_loaded, _apply_icon. simpl. rewrite lookup_insert_eq.
    destruct (_requests (manager s) !! id a); exact Hr.
Qed.

Lemma pending_kept_run (es : list IEvent) (s : System) (i : AssetId) (cb : CB) :
  no_clear es = true ->
  _requests (manager s) !! i = Some cb ->
  _requests (manager (run es s)) !! i = Some cb.
Proof.
  revert s. induction es as [|e es IH]; intros s Hes Hs; simpl in *; [assumption|].
  apply andb_prop in Hes as [He Hes]. apply negb_true_iff in He.
  apply IH; [assumption|]. now apply pending_kept_step.
Qed.

Lemma run_app (es1 es2 : list IEvent) (s : System) :
  run (es1 ++ es2) s = run es2 (run es1 s).
Proof. unfold run. apply fold_left_app. Qed.

Lemma no_clear_app (es1 es2 : list IEvent) :
  no_clear (es1 ++ es2) = no_clear es1 && no_clear es2.
Proof. unfold no_clear. apply forallb_app. Qed.

Lemma requested_is_pending (s : System) (cb : CB) (a : AssetInfo) :
  dedup s -> is_Some (_requests (manager (step s (RequestIcon cb a))) !! id a).
Proof.
  intros [_ _ Hl]. simpl. unfold request_icon.
  destruct (_loaded_icons (manager s) !! id a) as [ic|] eqn:El.
  { simpl. apply Hl. rewrite El. eauto. }
  destruct (_requests (manager s) !! id a) as [cb0|] eqn:Er; simpl.
  - rewrite Er. eauto.
  - rewrite lookup_insert_eq. eauto.
Qed.

Lemma step_request_fresh (s : System) (cb : CB) (a : AssetInfo) :
  _loaded_icons (manager s) !! id a = None ->
  _requests (manager s) !! id a = None ->
  step s (RequestIcon cb a) =
  mkIconSystem
    (mkIconManager (a :: _queue (manager s)) (_loaded_icons (manager s))
       (<[id a := cb]> (_requests (manager s))))
    (loading s) (signals s) (fetched s) (notified s ++ []) (failures s).
Proof. intros Hl Hr. simpl. unfold request_icon. now rewrite Hl, Hr. Qed.

Lemma step_request_pending (s : System) (cb cb0 : CB) (a : AssetInfo) :
  _loaded_icons (manager s) !! id a = None ->
  _requests (manager s) !! id a = Some cb0 ->
  step s (RequestIcon cb a) =
  mkIconSystem (manager s) (loading s) (signals s) (fetched s) (notified s ++ [])
    (failures s).
Proof. intros Hl Hr. simpl. unfold request_icon. now rewrite Hl, Hr. Qed.

(** C2, amended. While an id is recorded as pending and not yet loaded,
    request_icon for it changes nothing and calls nobody. In every run that
    does not clear the cache, each id has at most one fetch issued and at most
    one entry outstanding (queued, loading or waiting for delivery), and an id
    that has been requested, however often, has exactly one fetch issued. *)
Theorem request_icon_one_fetch_per_id_unless_cleared
  (es : list IEvent) (i : AssetId) :
  no_clear es = true ->
  let s := run es start in
  (forall (self : Manager) (callback cb0 : CB) (a : AssetInfo),
     _requests self !! id a = Some cb0 -> _loaded_icons self !! id a = None ->
     request_icon self callback a = (self, [])) /\
  issued i s <= 1 /\
  outstanding i s <= 1 /\
  (forall (callback : CB) (a : AssetInfo),
     In (RequestIcon callback a) es -> id a = i -> issued i s = 1).
Proof.
  intros Hes s. split.
  { intros self callback cb0 a Hr Hl. now apply request_icon_pending with cb0. }
  pose proof (dedup_run es start Hes dedup_start) as Hd. fold s in Hd.
  destruct (dedup_bounds s i Hd) as [H1 H2]. split; [exact H1|]. split; [exact H2|].
  intros callback a Hin <-.
  apply in_split in Hin as (es1 & es2 & ->).
  rewrite no_clear_app in Hes. apply andb_prop in Hes as [Hes1 Hes2].
  unfold no_clear in Hes2. simpl in Hes2. fold (no_clear es2) in Hes2.
  pose proof (dedup_run es1 start Hes1 dedup_start) as Hd1.
  destruct (requested_is_pending (run es1 start) callback a Hd1) as [cb Hcb].
  pose proof (pending_kept_run es2 _ _ _ Hes2 Hcb) as Hkept.
  assert (s = run es2 (step (run es1 start) (RequestIcon callback a))) as Hs.
  { unfold s. rewrite run_app. reflexivity. }
  rewrite <- Hs in Hkept. destruct Hd as [Hi _ _]. rewrite Hi.
  unfold pending_bit. now rewrite Hkept.
Qed.

(** C3, amended. When two callers ask for the same id, neither loaded nor
    pending, one after the other, nobody is called back yet, one entry is
    queued, and the callback kept for the id is the first caller's; it stays
    the one kept through any run that does not clear the cache, and when the
    load of that id is delivered it is the first caller's callback, and only
    it, that is called with the icon. *)
Theorem request_icon_keeps_first_callback
  (s : System) (cb1 cb2 : CB) (a1 a2 a : AssetInfo) (pixmap : QPixmap)
  (es : list IEvent) :
  id a2 = id a1 -> id a = id a1 ->
  _loaded_icons (manager s) !! id a1 = None ->
  _requests (manager s) !! id a1 = None ->
  no_clear es = true ->
  let s2 := run [RequestIcon cb1 a1; RequestIcon cb2 a2] s in
  let s3 := run es s2 in
  notified s2 = notified s /\
  _queue (manager s2) = a1 :: _queue (manager s) /\
  _requests (manager s3) !! id a1 = Some cb1 /\
  snd (_on_pixmap_loaded (manager s3) a pixmap) = inr [(cb1, mkIcon pixmap)].
Proof.
  intros H2 Ha Hl Hr Hes s2 s3.
  assert (manager s2 = mkIconManager (a1 :: _queue (manager s)) (_loaded_icons (manager s))
                         (<[id a1 := cb1]> (_requests (manager s)))
          /\ notified s2 = notified s) as [Hm Hn].
  { unfold s2, run. cbn [fold_left].
    rewrite (step_request_fresh s cb1 a1 Hl Hr).
    rewrite (step_request_pending _ cb2 cb1 a2);
      [| simpl; now rewrite H2 | simpl; rewrite H2; apply lookup_insert_eq].
    simpl. split; [reflexivity|]. now rewrite !app_nil_r. }
  assert (_requests (manager s3) !! id a1 = Some cb1) as Hkept.
  { apply pending_kept_run; [assumption|]. rewrite Hm. simpl. apply lookup_insert_eq. }
  split; [exact Hn|]. split; [now rewrite Hm|]. split; [exact Hkept|].
  unfold _on_pixmap_loaded, _apply_icon. simpl.
  rewrite Ha, lookup_insert_eq, Hkept. reflexivity.
Qed.

(** C8. When the id of the asset is in the icon cache, request_icon calls the
    callback with the cached icon before it returns and leaves the manager as
    it was; after any number of such calls the queue, the pending requests,
    the cache, the loads under way and the fetches made are unchanged, and
    each callback has been called once with the cached icon, in order. *)
Theorem request_icon_cached_calls_back_at_once
  (s : System) (a : AssetInfo) (icon : QIcon) (callback : CB) (cbs : list CB) :
  _loaded_icons (manager s) !! id a = Some icon ->
  let s' := run (map (fun cb => RequestIcon cb a) cbs) s in
  request_icon (manager s) callback a = (manager s, [(callback, icon)]) /\
  manager s' = manager s /\
  loading s' = loading s /\ signals s' = signals s /\ fetched s' = fetched s /\
  notified s' = notified s ++ map (fun cb => (cb, icon)) cbs.
Proof.
  intros Hl. split.
  { unfold request_icon. now rewrite Hl. }
  revert s Hl. induction cbs as [|cb cbs IH]; intros s Hl.
  { simpl. now rewrite app_nil_r. }
  change (run (map (fun cb => RequestIcon cb a) (cb :: cbs)) s)
    with (run (map (fun cb => RequestIcon cb a) cbs) (step s (RequestIcon cb a))).
  set (s1 := step s (RequestIcon cb a)).
  assert (manager s1 = manager s /\ loading s1 = loading s /\ signals s1 = signals s
          /\ fetched s1 = fetched s /\ notified s1 = notified s ++ [(cb, icon)])
    as (Hm & Hlo & Hsi & Hf & Hn).
  { unfold s1. simpl. unfold request_icon. rewrite Hl. simpl. auto. }
  assert (_loaded_icons (manager s1) !! id a = Some icon) as Hl1 by now rewrite Hm.
  destruct (IH s1 Hl1) as (Hm' & Hlo' & Hsi' & Hf' & Hn').
  rewrite Hm', Hlo', Hsi', Hf', Hn', Hm, Hlo, Hsi, Hf, Hn.
  simpl. rewrite <- app_assoc. auto.
Qed.

End IconFacts.

Section TreeFacts.
Import DataModels AssetSelector.

Lemma isValid_true (h : nat) (v : AssetTreeView) : isValid h v = true <-> valid h v.
Proof. unfold isValid, valid. apply bool_decide_eq_true. Qed.

Lemma isValid_false (h : nat) (v : AssetTreeView) : isValid h v = false <-> ~ valid h v.
Proof. unfold isValid, valid. apply bool_decide_eq_false. Qed.

Lemma frame_refl (v : AssetTreeView) : frame v v.
Proof. split; auto. Qed.

Lemma frame_trans (v1 v2 v3 : AssetTreeView) : frame v1 v2 -> frame v2 v3 -> frame v1 v3.
Proof.
  intros [R1 F1 S1 O1 N1 B1] [R2 F2 S2 O2 N2 B2]. split.
  - congruence.
  - lia.
  - auto.
  - intros h Hh. destruct (O1 h Hh) as [Hv He]. destruct (O2 h Hv) as [Hv' He'].
    split; [assumption | congruence].
  - intros h Hh. destruct (N2 h Hh) as [Hv|Hf]; [|right; lia].
    destruct (N1 h Hv) as [Hv'|Hf]; [now left | right; lia].
  - auto.
Qed.

Lemma advances_refl (o : option LoadingStates) : advances o o.
Proof. now left. Qed.

Lemma frame_one_step (v v' : AssetTreeView) : frame v v' -> one_step v v'.
Proof.
  intros [R F S O N B]. split; [exact R | exact F | | | exact N | exact B].
  - intros c Hc. left. now apply S.
  - intros h Hh. destruct (O h Hh) as [Hv He]. split; [assumption|].
    rewrite He. apply advances_refl.
Qed.

Lemma frame_then_step (v1 v2 v3 : AssetTreeView) :
  frame v1 v2 -> one_step v2 v3 -> one_step v1 v3.
Proof.
  intros [R1 F1 S1 O1 N1 B1] [R2 F2 S2 O2 N2 B2]. split.
  - congruence.
  - lia.
  - intros c Hc. destruct (S2 c Hc) as [Hin|Hnew]; [left; now apply S1 | now right].
  - intros h Hh. destruct (O1 h Hh) as [Hv He]. destruct (O2 h Hv) as [Hv' Ha].
    split; [assumption|]. now rewrite <- He.
  - intros h Hh. destruct (N2 h Hh) as [Hv|Hf]; [|right; lia].
    destruct (N1 h Hv) as [Hv'|Hf]; [now left | right; lia].
  - auto.
Qed.

Lemma step_then_frame (v1 v2 v3 : AssetTreeView) :
  one_step v1 v2 -> frame v2 v3 -> one_step v1 v3.
Proof.
  intros [R1 F1 S1 O1 N1 B1] [R2 F2 S2 O2 N2 B2]. split.
  - congruence.
  - lia.
  - intros c Hc. apply S2 in Hc. destruct (S1 c Hc) as [Hin|Hnew]; [now left|].
    right. intros p et Hcb. destruct (Hnew p et Hcb) as [Hv Hs].
    destruct (O2 p Hv) as [Hv' He]. split; [assumption | congruence].
  - intros h Hh. destruct (O1 h Hh) as [Hv Ha]. destruct (O2 h Hv) as [Hv' He].
    split; [assumption|]. now rewrite He.
  - intros h Hh. destruct (N2 h Hh) as [Hv|Hf]; [|right; lia].
    destruct (N1 h Hv) as [Hv'|Hf]; [now left | right; lia].
  - auto.
Qed.

(** A view that differs in fields the tree does not depend on. *)
Lemma frame_same_tree (v v' : AssetTreeView) :
  items v' = items v -> root v' = root v -> fresh v' = fresh v ->
  _mapping v' = _mapping v -> sent v' = sent v -> frame v v'.
Proof.
  intros Hi Hr Hf Hm Hs. split; unfold valid, item_loading_state; rewrite ?Hi; auto.
  - lia.
  - intros c. now rewrite Hs.
  - intros [B1 B2]. split; unfold valid; rewrite ?Hi, ?Hf, ?Hm; assumption.
Qed.

(** Changing an item without touching its loading state. *)
Lemma frame_alter (f : Item -> Item) (h : nat) (v : AssetTreeView) :
  (forall it, loading_state (f it) = loading_state it) ->
  frame v (with_items (alter f h) v).
Proof.
  intros Hf.
  assert (Hv : forall h', valid h' (with_items (alter f h) v) <-> valid h' v).
  { intros h'. unfold valid. simpl. rewrite lookup_alter_is_Some. reflexivity. }
  split; simpl; auto.
  - intros h' Hh'. split; [now apply Hv|].
    unfold item_loading_state. simpl. rewrite lookup_alter.
    destruct (decide (h = h')) as [->|]; [|reflexivity].
    destruct (items v !! h'); simpl; [apply Hf | reflexivity].
  - intros h' Hh'. left. now apply Hv.
  - intros [B1 B2]. split; simpl; [|assumption].
    intros h' Hh'. apply B1. now apply Hv.
Qed.

Lemma find_frame (k : string) (v : AssetTreeView) :
  frame v (snd (_find_item_by_key k v)) /\
  _project (snd (_find_item_by_key k v)) = _project v /\
  (forall h, fst (_find_item_by_key k v) = Some h -> valid h v).
Proof.
  unfold _find_item_by_key. destruct (_mapping v !! k) as [h|] eqn:E.
  - destruct (isValid h v) eqn:Ev; simpl.
    + split; [apply frame_refl|]. split; [reflexivity|].
      intros h' [= <-]. now apply isValid_true.
    + split; [|split; [reflexivity | discriminate]].
      split; simpl; auto.
      intros [B1 B2]. split; simpl; [assumption|].
      intros k' h' Hk. apply lookup_delete_Some in Hk as [_ Hk]. eauto.
  - simpl. split; [apply frame_refl|]. split; [reflexivity | discriminate].
Qed.

Lemma append_item_frame (p : nat) (label : string) (et : EntityType)
  (key_arg : option string) (ex : bool) (v : AssetTreeView) :
  bounded v ->
  frame v (snd (_append_item p label et key_arg ex v)) /\
  _project (snd (_append_item p label et key_arg ex v)) = _project v.
Proof.
  intros Hb. unfold _append_item.
  set (p' := if isValid p v then p else root v).
  set (k := (str_or match items v !! p' with
                    | Some it => key it
                    | None => None
                    end (project_id (_project v)) +:+ "|" +:+ str_or key_arg label)).
  destruct (find_frame k v) as (Hfr & Hpr & _).
  destruct (_find_item_by_key k v) as [found v1] eqn:Ef. simpl in Hfr, Hpr.
  destruct found as [child|]; simpl; [now split|].
  split; [|assumption].
  apply frame_trans with v1; [assumption|].
  pose proof (f_bounded _ _ Hfr Hb) as [B1 B2].
  assert (Hold : forall h, valid h v1 -> h <> fresh v1).
  { intros h Hh. apply B1 in Hh. lia. }
  split; simpl; auto.
  - intros h Hh. unfold valid, item_loading_state. simpl.
    rewrite lookup_insert_ne by (apply not_eq_sym, Hold, Hh).
    split.
    + apply lookup_alter_is_Some. exact Hh.
    + rewrite lookup_alter. destruct (decide (p' = h)) as [->|]; [|reflexivity].
      destruct (items v1 !! h); reflexivity.
  - intros h Hh. unfold valid in Hh. simpl in Hh.
    destruct (decide (fresh v1 = h)) as [<-|Hne]; [right; lia|].
    rewrite lookup_insert_ne in Hh by assumption.
    left. now apply lookup_alter_is_Some in Hh.
  - intros _. split; simpl.
    + intros h Hh. unfold valid in Hh. simpl in Hh.
      destruct (decide (fresh v1 = h)) as [<-|Hne]; [lia|].
      rewrite lookup_insert_ne in Hh by assumption.
      apply lookup_alter_is_Some in Hh. apply B1 in Hh. lia.
    + intros k' h Hk. rewrite lookup_insert in Hk.
      destruct (decide (k = k')); [inversion Hk; lia|]. apply B2 in Hk. lia.
Qed.

Lemma fold_frame {A} (f : AssetTreeView -> A -> AssetTreeView) (l : list A)
  (v : AssetTreeView) :
  (forall v x, bounded v -> frame v (f v x)) ->
  bounded v -> frame v (fold_left f l v).
Proof.
  intros Hf. revert v. induction l as [|x l IH]; intros v Hb; simpl.
  - apply frame_refl.
  - apply frame_trans with (f v x); [now apply Hf|].
    apply IH. exact (f_bounded _ _ (Hf v x Hb) Hb).
Qed.

Lemma set_data_keeps (d : ItemData) (it : Item) :
  loading_state (set_data d it) = loading_state it.
Proof. reflexivity. Qed.

Lemma set_state_keeps (s : ItemState) (it : Item) :
  loading_state (set_state s it) = loading_state it.
Proof. reflexivity. Qed.

Lemma append_labels_frame (p : nat) (et : EntityType) (labels : list string)
  (v : AssetTreeView) :
  bounded v ->
  frame v (fold_left (fun v label => snd (_append_item p label et None true v)) labels v).
Proof.
  apply fold_frame. intros v0 x Hb. now apply append_item_frame.
Qed.

Lemma append_assets_frame (p : nat) (et : EntityType) (assets : list AssetInfo)
  (v : AssetTreeView) :
  bounded v ->
  frame v (fold_left
             (fun v asset =>
                let '(item, v) := _append_item p (name asset) et None false v in
                with_items (alter (set_data (DataAsset asset)) item) v)
             assets v).
Proof.
  apply fold_frame. intros v0 x Hb.
  destruct (append_item_frame p (name x) et None false v0 Hb) as [Hfr _].
  destruct (_append_item p (name x) et None false v0) as [item v1]. simpl in Hfr.
  apply frame_trans with v1; [assumption|].
  apply frame_alter, set_data_keeps.
Qed.

Lemma append_regex_frame (assets : list AssetInfo) (v : AssetTreeView) :
  bounded v ->
  frame v (_append_asset_items_by_regex assets v).
Proof.
  intros Hb. unfold _append_asset_items_by_regex.
  match goal with
  | |- frame v (with_state Ready ?w) => apply frame_trans with w
  end; [|now apply frame_same_tree].
  revert Hb. apply fold_frame. clear v. intros v x Hb.
  destruct (find_frame (project_id (_project v) +:+ "|" +:+ type x) v) as (F1 & _ & _).
  destruct (_find_item_by_key (project_id (_project v) +:+ "|" +:+ type x) v)
    as [found v1]. simpl in F1.
  pose proof (f_bounded _ _ F1 Hb) as Hb1.
  assert (exists h v2, (match found with
                        | Some it => (it, v1)
                        | None => _append_item (root v) (type x) AssetType None true v1
                        end) = (h, v2) /\ frame v1 v2) as (h & v2 & E2 & F2).
  { destruct found as [it|].
    - exists it, v1. split; [reflexivity | apply frame_refl].
    - destruct (append_item_frame (root v) (type x) AssetType None true v1 Hb1) as [F _].
      destruct (_append_item (root v) (type x) AssetType None true v1) as [h v2].
      exists h, v2. split; [reflexivity | exact F]. }
  rewrite E2.
  pose proof (f_bounded _ _ F2 Hb1) as Hb2.
  destruct (find_frame "{parent_key}|{asset_name}" v2) as (F3 & _ & _).
  destruct (_find_item_by_key "{parent_key}|{asset_name}" v2) as [found3 v3].
  simpl in F3. pose proof (f_bounded _ _ F3 Hb2) as Hb3.
  apply frame_trans with v1; [assumption|].
  apply frame_trans with v2; [assumption|].
  apply frame_trans with v3; [assumption|].
  destruct found3 as [?|]; [apply frame_refl|].
  destruct (append_item_frame h (name x) AssetName None false v3 Hb3) as [F4 _].
  destruct (_append_item h (name x) AssetName None false v3) as [child v4]. simpl in F4.
  apply frame_trans with v4; [assumption|].
  apply frame_alter, set_data_keeps.
Qed.

Lemma set_loading_step (s : LoadingStates) (p : nat) (v : AssetTreeView) :
  valid p v -> advances (item_loading_state p v) (Some s) ->
  one_step v (with_items (alter (set_loading_state s) p) v).
Proof.
  intros Hp Ha.
  assert (Hv : forall h, valid h (with_items (alter (set_loading_state s) p) v) <-> valid h v).
  { intros h. unfold valid. simpl. rewrite lookup_alter_is_Some. reflexivity. }
  split; simpl; auto.
  - intros h Hh. split; [now apply Hv|].
    unfold item_loading_state in *. simpl. rewrite lookup_alter.
    destruct (decide (p = h)) as [<-|]; [|apply advances_refl].
    destruct Hp as [it Hit]. rewrite Hit in *. exact Ha.
  - intros h Hh. left. now apply Hv.
  - intros [B1 B2]. split; simpl; [|assumption].
    intros h Hh. apply B1. now apply Hv.
Qed.

Lemma set_loading_reads (s : LoadingStates) (p : nat) (v : AssetTreeView) :
  valid p v ->
  item_loading_state p (with_items (alter (set_loading_state s) p) v) = Some s.
Proof.
  intros [it Hit]. unfold item_loading_state. simpl.
  now rewrite lookup_alter_eq, Hit.
Qed.

Lemma send_step (c : AccessorCall) (v v1 : AssetTreeView) :
  one_step v v1 ->
  (forall p et, callback_of c = AppendAssetItems p et ->
     valid p v1 /\ item_loading_state p v1 = Some InProgress) ->
  one_step v (send c v1).
Proof.
  intros [R F S O N B] Hc. split; simpl; auto.
  - intros c' Hin. apply in_app_or in Hin as [Hin|[<-|[]]]; [now apply S|].
    right. exact Hc.
  - intros Hb. destruct (B Hb) as [B1 B2]. now split.
Qed.

Lemma load_children_noop (h : nat) (v : AssetTreeView) :
  item_loading_state h v <> Some NotLoaded -> _load_children h v = v.
Proof.
  intros H. unfold _load_children. now rewrite bool_decide_eq_false_2.
Qed.

Lemma load_children_step (h : nat) (v : AssetTreeView) :
  valid h v ->
  one_step v (_load_children h v) /\
  item_loading_state h (_load_children h v) <> Some NotLoaded /\
  (item_loading_state h v = Some NotLoaded ->
   item_loading_state h (_load_children h v) = Some InProgress).
Proof.
  intros Hh. unfold _load_children.
  destruct (bool_decide (item_loading_state h v = Some NotLoaded)) eqn:E.
  2:{ apply bool_decide_eq_false in E. split; [apply frame_one_step, frame_refl|].
      split; [assumption | contradiction]. }
  apply bool_decide_eq_true in E.
  set (v1 := with_items (alter (set_loading_state InProgress) h) v).
  assert (one_step v v1) as H1.
  { apply set_loading_step; [assumption|]. rewrite E. right. left. now split. }
  assert (item_loading_state h v1 = Some InProgress) as Hs1
    by now apply set_loading_reads.
  assert (valid h v1) as Hv1 by (apply (o_old _ _ H1), Hh).
  assert (forall c, item_loading_state h (send c v1) = Some InProgress) as Hsend
    by (intros c; exact Hs1).
  destruct (bool_decide (h = root v1)).
  { split; [apply send_step; [assumption | discriminate]|].
    rewrite Hsend. split; [discriminate | reflexivity]. }
  assert (one_step v v1 /\ item_loading_state h v1 <> Some NotLoaded /\
          (item_loading_state h v = Some NotLoaded ->
           item_loading_state h v1 = Some InProgress)) as Hstay.
  { split; [exact H1|]. rewrite Hs1. split; [discriminate | reflexivity]. }
  destruct (items v1 !! h) as [it|] eqn:Eit; [|exact Hstay].
  destruct (entity_type it) as [[]|]; try exact Hstay.
  split.
  - apply send_step; [assumption|]. simpl. intros p et [= <- <-]. now split.
  - rewrite Hsend. split; [discriminate | reflexivity].
Qed.

Lemma one_step_wf (v v' : AssetTreeView) : wf v -> one_step v v' -> wf v'.
Proof.
  intros [Wb Wr Ws Wc] [R F S O N B].
  assert (Hprog : forall h, valid h v -> progressing (item_loading_state h v) ->
                  progressing (item_loading_state h v')).
  { intros h Hh Hp. destruct (O h Hh) as [_ [He|[[Hb _]|[_ Ha]]]].
    - now rewrite He.
    - destruct Hp; congruence.
    - now right. }
  split.
  - auto.
  - rewrite R. apply O, Wr.
  - rewrite R. apply Hprog; assumption.
  - intros c p et Hin Hcb. destruct (S c Hin) as [Hold|Hnew].
    + destruct (Wc c p et Hold Hcb) as [Hlt Hst]. split; [lia|].
      intros Hv. destruct (N p Hv) as [Hv0|Hge]; [|lia]. apply Hprog; auto.
    + destruct (Hnew p et Hcb) as [Hv Hs]. split.
      * apply (b_items _ (B Wb)), Hv.
      * intros _. now left.
Qed.

Lemma clear_eq (v : AssetTreeView) :
  _clear v =
  mkView (_project v)
    {[fresh v := mkItem "" None None None (Some InProgress) None Normal []]}
    (fresh v) (S (fresh v)) (_mapping v) Loading (filter_wildcard v)
    (sent v ++ [RequestAssetTypes OnAssetTypesLoaded]).
Proof.
  unfold _clear, _load_children, item_loading_state, with_state, with_items, send. simpl.
  rewrite !alter_singleton_eq. simpl. rewrite lookup_singleton_eq. simpl.
  rewrite bool_decide_eq_true_2 by reflexivity.
  rewrite ?alter_singleton_eq. simpl.
  rewrite ?bool_decide_eq_true_2 by reflexivity. reflexivity.
Qed.

Lemma clear_wf (v : AssetTreeView) :
  bounded v ->
  (forall c p et, In c (sent v) -> callback_of c = AppendAssetItems p et -> p < fresh v) ->
  wf (_clear v).
Proof.
  intros [B1 B2] Hs. rewrite clear_eq.
  split; [split|..]; unfold valid, item_loading_state; simpl.
  - intros h Hh. apply lookup_singleton_is_Some in Hh. lia.
  - intros k h Hk. apply B2 in Hk. lia.
  - rewrite lookup_singleton_eq. eauto.
  - rewrite lookup_singleton_eq. now left.
  - intros c p et Hin Hcb. apply in_app_or in Hin as [Hin|[<-|[]]]; [|discriminate].
    pose proof (Hs c p et Hin Hcb). split; [lia|].
    intros Hv. apply lookup_singleton_is_Some in Hv. lia.
Qed.

Lemma clear_drops (v : AssetTreeView) (h : nat) :
  bounded v -> valid h v -> ~ valid h (_clear v).
Proof.
  intros [B1 _] Hh. rewrite clear_eq. unfold valid. simpl.
  intros Hv. apply lookup_singleton_is_Some in Hv. apply B1 in Hh. lia.
Qed.

Lemma answered_frame (v : AssetTreeView) (rest : list AccessorCall) :
  (forall c, In c rest -> In c (sent v)) ->
  frame v (mkView (_project v) (items v) (root v) (fresh v) (_mapping v) (state v)
             (filter_wildcard v) rest).
Proof.
  intros Hsub. split; simpl; auto.
  intros [B1 B2]. now split.
Qed.

Lemma loaded_after_frame (v v2 : AssetTreeView) (p : nat) :
  frame v v2 -> valid p v -> progressing (item_loading_state p v) ->
  one_step v (with_items (alter (set_loading_state Loaded) p) v2).
Proof.
  intros F Hp Hprog. apply frame_then_step with v2; [assumption|].
  destruct (f_old _ _ F p Hp) as [Hp2 He].
  apply set_loading_step; [assumption|]. rewrite He.
  destruct Hprog as [-> | ->]; [right; right; now split | now left].
Qed.

Lemma step_one_step (v : AssetTreeView) (e : Event) :
  wf v -> rebuilds e = false -> one_step v (step v e).
Proof.
  intros W He. pose proof W as [Wb Wr Ws Wc].
  destruct e as [item|item|item ex|i a| | |regex]; simpl in *; try discriminate.
  - destruct (isValid item v) eqn:E; [|apply frame_one_step, frame_refl].
    apply isValid_true in E. unfold _on_expanded.
    pose proof (frame_alter (set_state Expanded) item v (set_state_keeps Expanded)) as F.
    apply frame_then_step with (with_items (alter (set_state Expanded) item) v);
      [exact F|].
    apply load_children_step. apply (f_old _ _ F), E.
  - destruct (isValid item v); apply frame_one_step;
      [apply frame_alter, set_state_keeps | apply frame_refl].
  - destruct (isValid item v) eqn:E; [|apply frame_one_step, frame_refl].
    apply isValid_true in E. unfold _on_clicked.
    destruct (items v !! item) as [it|]; [|apply frame_one_step, frame_refl].
    destruct (expandable it) as [[]|]; try apply frame_one_step, frame_refl.
    destruct ex; simpl.
    + apply frame_one_step. unfold _on_collapsed. apply frame_alter, set_state_keeps.
    + destruct (load_children_step item v E) as (H1 & Hn & _).
      set (v1 := _load_children item v) in *. unfold _on_expanded.
      pose proof (frame_alter (set_state Expanded) item v1 (set_state_keeps Expanded))
        as F.
      rewrite load_children_noop.
      * now apply step_then_frame with v1.
      * destruct (o_old _ _ H1 item E) as [Hv1 _].
        destruct (f_old _ _ F item Hv1) as [_ Hsame]. now rewrite Hsame.
  - destruct (take_nth i (sent v)) as [[c rest]|] eqn:Ed;
      [|apply frame_one_step, frame_refl].
    destruct (take_nth_In _ _ _ _ Ed) as [Hin Hrest].
    pose proof (answered_frame v rest Hrest) as F0.
    set (v0 := mkView (_project v) (items v) (root v) (fresh v) (_mapping v) (state v)
                 (filter_wildcard v) rest) in *.
    pose proof (f_bounded _ _ F0 Wb) as Hb0.
    apply frame_then_step with v0; [exact F0|].
    destruct (callback_of c) as [|p et|] eqn:Ecb; destruct a as [l|l]; simpl;
      try apply frame_one_step, frame_refl.
    + unfold _on_asset_types_loaded, _append_items.
      assert (valid (root v0) v0) as Hr0 by exact Wr.
      rewrite (proj2 (isValid_true _ _) Hr0).
      match goal with
      | |- one_step v0 (with_state Ready ?w) => apply step_then_frame with w
      end; [|now apply frame_same_tree].
      apply loaded_after_frame; [now apply append_labels_frame | exact Hr0 | exact Ws].
    + unfold _append_asset_items.
      destruct (isValid p v0) eqn:Ep; [|apply frame_one_step, frame_refl].
      apply isValid_true in Ep.
      apply loaded_after_frame; [now apply append_assets_frame | exact Ep |].
      destruct (Wc c p et Hin Ecb) as [_ Hprog]. now apply Hprog.
    + apply frame_one_step. now apply append_regex_frame.
  - match goal with
    | |- one_step v (load_by_regex regex v) => unfold load_by_regex
    end.
    match goal with
    | |- one_step v (mkView _ _ _ _ _ _ _ (sent ?w)) =>
        apply step_then_frame with w; [|now apply frame_same_tree]
    end.
    destruct regex as [[|c s]|].
    + apply frame_one_step. now apply frame_same_tree.
    + apply send_step; [|discriminate].
      apply frame_one_step. now apply frame_same_tree.
    + apply frame_one_step. now apply frame_same_tree.
Qed.

Lemma step_wf (v : AssetTreeView) (e : Event) : wf v -> wf (step v e).
Proof.
  intros W. destruct (rebuilds e) eqn:He.
  - pose proof W as [Wb Wr Ws Wc].
    destruct e; simpl in *; try discriminate.
    + apply clear_wf; [exact Wb|]. intros c p et Hin Hcb. now apply (Wc c p et).
    + unfold set_active_project, reload. apply clear_wf.
      * destruct Wb as [B1 B2]. now split.
      * simpl. intros c p et Hin Hcb. now apply (Wc c p et).
  - apply one_step_wf with v; [assumption|]. now apply step_one_step.
Qed.

Lemma new_view_wf (project : Project) : wf (new_view project).
Proof.
  unfold new_view. apply clear_wf.
  - split; unfold valid; simpl.
    + intros h Hh. rewrite lookup_empty in Hh. destruct Hh; discriminate.
    + intros k h Hk. rewrite lookup_empty in Hk. discriminate.
  - simpl. intros c p et [].
Qed.

Lemma run_wf (es : list Event) (v : AssetTreeView) : wf v -> wf (run es v).
Proof.
  revert v. induction es as [|e es IH]; intros v W; simpl; [assumption|].
  apply IH, step_wf, W.
Qed.

Lemma rebuild_drops (v : AssetTreeView) (e : Event) (h : nat) :
  wf v -> rebuilds e = true -> valid h v -> ~ valid h (step v e).
Proof.
  intros [Wb _ _ _] He Hh. destruct e; simpl in *; try discriminate.
  - now apply clear_drops.
  - unfold set_active_project, reload. apply clear_drops.
    + destruct Wb as [B1 B2]. now split.
    + exact Hh.
Qed.

(** C4. In every state the view reaches from its construction:
    _load_children on an item whose loading state is not NotLoaded changes
    nothing, and on an item that is NotLoaded it makes the state InProgress;
    an event other than a reload (reload, set_active_project) keeps every
    item alive and moves its loading state by at most one step of
    NotLoaded -> InProgress -> Loaded, so a Loaded item stays Loaded; a reload
    destroys every item of the old tree. *)
Theorem loading_state_advances_one_way
  (project : Project) (es : list Event) (e : Event) (item : nat) :
  let v := run es (new_view project) in
  (item_loading_state item v <> Some NotLoaded -> _load_children item v = v) /\
  (item_loading_state item v = Some NotLoaded ->
     item_loading_state item (_load_children item v) = Some InProgress) /\
  (rebuilds e = false -> isValid item v = true ->
     isValid item (step v e) = true /\
     advances (item_loading_state item v) (item_loading_state item (step v e))) /\
  (rebuilds e = false -> item_loading_state item v = Some Loaded ->
     item_loading_state item (step v e) = Some Loaded) /\
  (rebuilds e = true -> isValid item v = true -> isValid item (step v e) = false).
Proof.
  intros v. pose proof (run_wf es _ (new_view_wf project)) as W. fold v in W.
  assert (Hadv : rebuilds e = false -> isValid item v = true ->
            isValid item (step v e) = true /\
            advances (item_loading_state item v) (item_loading_state item (step v e))).
  { intros He Hv. apply isValid_true in Hv.
    destruct (o_old _ _ (step_one_step v e W He) item Hv) as [Hv' Ha].
    split; [now apply isValid_true | exact Ha]. }
  split; [apply load_children_noop|]. split.
  { intros Hs. apply load_children_step; [|exact Hs].
    unfold valid. unfold item_loading_state in Hs.
    destruct (items v !! item); [eauto | discriminate]. }
  split; [exact Hadv|]. split.
  - intros He Hs.
    assert (isValid item v = true) as Hv.
    { apply isValid_true. unfold valid. unfold item_loading_state in Hs.
      destruct (items v !! item); [eauto | discriminate]. }
    destruct (Hadv He Hv) as [_ [Ha|[[Hb _]|[Hb _]]]]; congruence.
  - intros He Hv. apply isValid_true in Hv. apply isValid_false.
    now apply rebuild_drops.
Qed.

End TreeFacts.

Section ProxyFacts.
Import Proxy.

Lemma append_cons (c : ascii) (s t : string) : String c s +:+ t = String c (s +:+ t).
Proof. reflexivity. Qed.

Lemma append_empty_r (s : string) : s +:+ EmptyString = s.
Proof. induction s as [|c s IH]; [reflexivity | now rewrite append_cons, IH]. Qed.

Lemma span_digits_spec (s : string) :
  s = fst (span_digits s) +:+ snd (span_digits s) /\
  all_digits (fst (span_digits s)) = true /\
  no_digit_ahead (snd (span_digits s)).
Proof.
  induction s as [|c s IH]; simpl; [auto|].
  destruct (is_digit c) eqn:Ec.
  - destruct (span_digits s) as [d r]. simpl in *. destruct IH as (H1 & H2 & H3).
    rewrite Ec, H2. split; [|split; [reflexivity | assumption]].
    change (String c d +:+ r) with (String c (d +:+ r)). now rewrite <- H1.
  - simpl. auto.
Qed.

Lemma span_digits_app (d r : string) :
  all_digits d = true -> no_digit_ahead r -> span_digits (d +:+ r) = (d, r).
Proof.
  induction d as [|c d IH]; intros Hd Hr.
  - change (EmptyString +:+ r) with r.
    destruct r as [|c r]; simpl in *; [reflexivity | now rewrite Hr].
  - rewrite append_cons. simpl in *.
    apply andb_prop in Hd as [Hc Hd]. rewrite Hc, (IH Hd Hr). reflexivity.
Qed.

Lemma span_digits_all (d : string) : all_digits d = true -> span_digits d = (d, EmptyString).
Proof.
  intros Hd. pose proof (span_digits_app d EmptyString Hd I) as H.
  now rewrite append_empty_r in H.
Qed.

Lemma dot_not_digit : is_digit "."%char = false.
Proof. reflexivity. Qed.

Lemma length_append (s t : string) :
  String.length (s +:+ t) = String.length s + String.length t.
Proof.
  induction s as [|c s IH]; [reflexivity|]. rewrite append_cons. simpl. now rewrite IH.
Qed.

Lemma append_assoc (s t u : string) : (s +:+ t) +:+ u = s +:+ (t +:+ u).
Proof.
  induction s as [|c s IH]; [reflexivity|]. now rewrite !append_cons, IH.
Qed.

(** What a match is: a piece of the input that float() reads. *)
Lemma match_number_spec (s m rest : string) :
  match_number s = Some (m, rest) ->
  s = m +:+ rest /\ 0 < String.length m /\ exists f, float m = inr f.
Proof.
  unfold match_number. destruct (span_digits_spec s) as (Hs & Hd & Hr).
  destruct (span_digits s) as [d1 r1]. simpl in *.
  assert (Hdigits : match d1 with
                    | EmptyString => None
                    | _ => Some (d1, r1)
                    end = Some (m, rest) ->
            s = m +:+ rest /\ 0 < String.length m /\ exists f, float m = inr f).
  { destruct d1 as [|c d1]; [discriminate|]. intros [= <- <-].
    split; [assumption|]. split; [simpl; lia|].
    unfold float. rewrite (span_digits_all _ Hd). eauto. }
  destruct r1 as [|c r2]; [exact Hdigits|].
  destruct (Ascii.eqb_spec c "."%char) as [->|Hne].
  2:{ destruct c as [[] [] [] [] [] [] [] []]; try exact Hdigits. contradiction. }
  destruct (span_digits_spec r2) as (Hs2 & Hd2 & Hr2).
  destruct (span_digits r2) as [d2 r3]. simpl in *.
  destruct d2 as [|c2 d2]; [exact Hdigits|].
  intros [= <- <-]. split.
  { rewrite Hs, Hs2. rewrite append_assoc. reflexivity. }
  split.
  { rewrite length_append. simpl. lia. }
  unfold float.
  rewrite (span_digits_app d1 (String "."%char (String c2 d2)) Hd dot_not_digit).
  rewrite (span_digits_all _ Hd2).
  destruct (d1 +:+ String c2 d2) eqn:E; [|eauto].
  destruct d1; discriminate.
Qed.

Lemma cons_head_shape (c : ascii) (l : list string) :
  split_shape l -> split_shape (cons_head c l).
Proof. intros [t|t m l' Hm Hl]; simpl; now constructor. Qed.

Lemma re_split_fuel_shape (fuel : nat) (s : string) : split_shape (re_split_fuel fuel s).
Proof.
  revert s. induction fuel as [|fuel IH]; intros s; simpl; [constructor|].
  destruct (match_number s) as [[m rest]|] eqn:E.
  - destruct (match_number_spec _ _ _ E) as (_ & _ & Hf). constructor; auto.
  - destruct s as [|c s]; [constructor | apply cons_head_shape, IH].
Qed.

(** More fuel than there are characters changes nothing. *)
Lemma re_split_fuel_enough (fuel fuel' : nat) (s : string) :
  String.length s < fuel -> String.length s < fuel' ->
  re_split_fuel fuel s = re_split_fuel fuel' s.
Proof.
  revert fuel' s. induction fuel as [|fuel IH]; intros fuel' s H H'; [lia|].
  destruct fuel' as [|fuel']; [lia|]. simpl.
  destruct (match_number s) as [[m rest]|] eqn:E.
  - destruct (match_number_spec _ _ _ E) as (Hs & Hm & _).
    assert (String.length rest < String.length s).
    { assert (String.length s = String.length m + String.length rest) as Hlen
        by (rewrite <- length_append; now f_equal).
      lia. }
    f_equal. f_equal. apply IH; lia.
  - destruct s as [|c s]; [reflexivity|]. simpl in *. f_equal. apply IH; lia.
Qed.

Lemma concat_cons_head (c : ascii) (l : list string) :
  l <> [] -> concat_parts (cons_head c l) = String c (concat_parts l).
Proof. destruct l; [contradiction | reflexivity]. Qed.

Lemma re_split_fuel_nonempty (fuel : nat) (s : string) : re_split_fuel fuel s <> [].
Proof. destruct (re_split_fuel_shape fuel s); discriminate. Qed.

(** The pieces, put together again, are the key. *)
Lemma re_split_fuel_concat (fuel : nat) (s : string) :
  concat_parts (re_split_fuel fuel s) = s.
Proof.
  revert s. induction fuel as [|fuel IH]; intros s; simpl.
  { apply append_empty_r. }
  destruct (match_number s) as [[m rest]|] eqn:E.
  - destruct (match_number_spec _ _ _ E) as (Hs & _ & _).
    change (concat_parts (EmptyString :: m :: re_split_fuel fuel rest))
      with (m +:+ concat_parts (re_split_fuel fuel rest)).
    now rewrite IH.
  - destruct s as [|c s]; [reflexivity|].
    rewrite concat_cons_head by apply re_split_fuel_nonempty. now rewrite IH.
Qed.

Lemma human_key_from_even (i : nat) (t : string) (rest : list string) :
  Nat.even i = true ->
  human_key_from i (t :: rest) =
  match human_key_from (S i) rest with
  | inl exc => inl exc
  | inr l => inr (EStr (swapcase t) :: l)
  end.
Proof. intros H. cbn [human_key_from]. now rewrite H. Qed.

Lemma human_key_from_odd (i : nat) (m : string) (rest : list string) (f : PyFloat) :
  Nat.even i = false -> float m = inr f ->
  human_key_from i (m :: rest) =
  match human_key_from (S i) rest with
  | inl exc => inl exc
  | inr l => inr (EFloat f :: l)
  end.
Proof. intros H Hf. cbn [human_key_from]. now rewrite H, Hf. Qed.

Lemma human_key_from_shape (parts : list string) :
  split_shape parts ->
  forall i, Nat.even i = true ->
  exists k, human_key_from i parts = inr k /\ alternates i k /\
            length k = length parts.
Proof.
  induction 1 as [t|t m l [f Hf] Hl IH]; intros i Hi.
  - rewrite human_key_from_even by assumption. cbn [human_key_from].
    eexists. split; [reflexivity|]. cbn [alternates]. rewrite Hi. eauto.
  - assert (Nat.even (S i) = false) as Hi1.
    { rewrite Nat.even_succ. rewrite <- Nat.negb_even. now rewrite Hi. }
    assert (Nat.even (S (S i)) = true) as Hi2 by (simpl; exact Hi).
    rewrite human_key_from_even by assumption.
    rewrite (human_key_from_odd _ _ _ f) by assumption.
    destruct (IH (S (S i)) Hi2) as (k & Hk & Ha & Hlen).
    rewrite Hk. eexists. split; [reflexivity|]. cbn [alternates]. rewrite Hi, Hi1.
    repeat split; eauto. simpl. now rewrite Hlen.
Qed.

Lemma tuple_gt_total (a b : list Elem) (i : nat) :
  alternates i a -> alternates i b -> exists r, tuple_gt a b = inr r.
Proof.
  revert b i. induction a as [|x a IH]; intros b i Ha Hb; simpl; [eauto|].
  destruct b as [|y b]; [eauto|]. simpl in Ha, Hb.
  destruct Ha as [Hx Ha], Hb as [Hy Hb].
  destruct (elem_eq x y); [now apply (IH b (S i))|].
  destruct (Nat.even i); destruct Hx as [? ->], Hy as [? ->]; simpl; eauto.
Qed.

Lemma human_key_total (key : string) :
  exists k, _human_key key = inr k /\ alternates 0 k.
Proof.
  unfold _human_key, re_split.
  destruct (human_key_from_shape _ (re_split_fuel_shape (S (String.length key)) key) 0
              eq_refl) as (k & Hk & Ha & _).
  eauto.
Qed.

(** C10. For any two keys _human_key returns without raising, the elements
    of both tuples are strings at the even indices and floats at the odd
    ones, and lessThan returns a boolean: no TypeError, no ValueError. *)
Theorem human_keys_always_compare (left_key right_key : string) :
  exists (kl kr : list Elem) (b : bool),
    _human_key left_key = inr kl /\
    _human_key right_key = inr kr /\
    alternates 0 kl /\ alternates 0 kr /\
    lessThan left_key right_key = inr b.
Proof.
  destruct (human_key_total left_key) as (kl & Hl & Al).
  destruct (human_key_total right_key) as (kr & Hr & Ar).
  destruct (tuple_gt_total kl kr 0 Al Ar) as [b Hb].
  exists kl, kr, b. unfold lessThan. rewrite Hl, Hr. auto.
Qed.

(** What Python gives on these keys. *)
Lemma re_split_examples :
  re_split "v10" = ["v"; "10"; ""] /\
  re_split "1.2.3" = [""; "1.2"; ""; ".3"; ""] /\
  re_split "v1." = ["v"; "1"; "."] /\
  re_split "..5x" = ["."; ".5"; "x"] /\
  re_split "" = [""] /\
  re_split "12|Prop|item10.5a" = [""; "12"; "|Prop|item"; "10.5"; "a"].
Proof. repeat split. Qed.

(** float() rounds to the nearest binary64, ties to even. *)
Lemma float_examples :
  float "0.1" = inr (Finite 7205759403792794 (-56)) /\
  float "9007199254740993" = inr (Finite 4503599627370496 1) /\
  float ".5" = inr (Finite 4503599627370496 (-53)) /\
  float "10" = inr (Finite 5629499534213120 (-49)).
Proof. repeat split; vm_compute; reflexivity. Qed.

Lemma re_split_shape (key : string) :
  split_shape (re_split key) /\ concat_parts (re_split key) = key.
Proof.
  unfold re_split. split; [apply re_split_fuel_shape | apply re_split_fuel_concat].
Qed.

Lemma string_eqb_refl (s : string) : String.eqb s s = true.
Proof. now apply String.eqb_eq. Qed.

Lemma string_compare_refl (s : string) : String.compare s s = Eq.
Proof.
  induction s as [|c s IH]; simpl; [reflexivity|].
  unfold Ascii.compare. now rewrite N.compare_refl.
Qed.

(** C5, amended. re.split cuts a key into text and number runs in turn, which
    put together are the key. Two keys that are one text run each are compared
    by code point after str.swapcase (not case-folded: lower case goes before
    upper case). Two keys that agree on the first text run and differ in the
    number after it are ordered by the float values of the numbers. The view
    shows "v2", "v10", "v100" in this order whatever order the model has them
    in, "item2" before "item10", and "a", "b" before "A", "B". *)
Theorem natural_order_compares_swapped_case :
  (forall key, split_shape (re_split key) /\ concat_parts (re_split key) = key) /\
  (forall l r, re_split l = [l] -> re_split r = [r] ->
     lessThan l r = inr (String.ltb (swapcase r) (swapcase l))) /\
  (forall l r t a b u u' x y,
     re_split l = [t; a; u] -> re_split r = [t; b; u'] ->
     float a = inr x -> float b = inr y -> float_compare x y <> Eq ->
     lessThan l r = inr match float_compare x y with
                        | Gt => true
                        | _ => false
                        end) /\
  Forall (fun keys => displayed keys = inr ["v2"; "v10"; "v100"])
    [["v2"; "v10"; "v100"]; ["v2"; "v100"; "v10"]; ["v10"; "v2"; "v100"];
     ["v10"; "v100"; "v2"]; ["v100"; "v2"; "v10"]; ["v100"; "v10"; "v2"]] /\
  displayed ["item10"; "item2"] = inr ["item2"; "item10"] /\
  displayed ["item2"; "item10"] = inr ["item2"; "item10"] /\
  displayed ["b"; "B"; "a"; "A"] = inr ["a"; "b"; "A"; "B"].
Proof.
  split; [apply re_split_shape|]. split.
  { intros l r Hl Hr. unfold lessThan, _human_key. rewrite Hl, Hr. simpl.
    destruct (String.eqb (swapcase l) (swapcase r)) eqn:E; [|reflexivity].
    apply String.eqb_eq in E. rewrite E.
    destruct (String.ltb (swapcase r) (swapcase r)) eqn:E'; [|reflexivity].
    unfold String.ltb in E'. rewrite string_compare_refl in E'. discriminate. }
  split.
  { intros l r t a b u u' x y Hl Hr Ha Hb Hne.
    unfold lessThan, _human_key. rewrite Hl, Hr.
    cbn [human_key_from Nat.even]. rewrite Ha, Hb.
    cbn [tuple_gt elem_eq elem_gt]. rewrite string_eqb_refl.
    destruct (float_compare x y); [contradiction | reflexivity | reflexivity]. }
  split; [repeat constructor|]; repeat split; vm_compute; reflexivity.
Qed.

Section FilterFacts.
Variable indexIn : string -> string -> Z.
Variable pattern : string.
Hypothesis pattern_given : pattern <> EmptyString.

Lemma accepts_own_key (r : Row) :
  filterAcceptsRow indexIn pattern r = true <-> matches indexIn pattern (row_key r).
Proof.
  unfold filterAcceptsRow, matches. destruct pattern; [contradiction|].
  rewrite negb_true_iff, Z.eqb_neq. reflexivity.
Qed.

Lemma accepts_iff_key_below (r : Row) :
  filterRecursiveAcceptsRow indexIn pattern r = true <->
  exists key, In key (keys_below r) /\ matches indexIn pattern key.
Proof.
  induction r as [k l IH] using Row_rect'.
  cbn [filterRecursiveAcceptsRow keys_below rows row_key].
  rewrite orb_true_iff, accepts_own_key, existsb_exists. simpl. split.
  - intros [Hk|(x & Hx & Hacc)].
    + exists k. auto.
    + rewrite List.Forall_forall in IH. apply (IH x Hx) in Hacc as (key & Hin & Hm).
      exists key. split; [|assumption]. right. apply in_flat_map. eauto.
  - intros (key & [<-|Hin] & Hm); [now left|]. right.
    apply in_flat_map in Hin as (x & Hx & Hin). exists x. split; [assumption|].
    rewrite List.Forall_forall in IH. apply (IH x Hx). eauto.
Qed.

Lemma accepted_below (a r : Row) (path : list nat) :
  row_at (rows a) path = Some r ->
  filterRecursiveAcceptsRow indexIn pattern r = true ->
  filterRecursiveAcceptsRow indexIn pattern a = true.
Proof.
  revert a. induction path as [|i path IH]; intros a Hat Hr; [discriminate|].
  cbn [row_at] in Hat. destruct (nth_error (rows a) i) as [c|] eqn:Ei; [|discriminate].
  assert (filterRecursiveAcceptsRow indexIn pattern c = true) as Hc.
  { destruct path as [|j path]; [now inversion Hat; subst | now apply IH]. }
  destruct a as [k l]. cbn [filterRecursiveAcceptsRow rows] in *.
  apply orb_true_iff. right. apply existsb_exists. exists c.
  split; [now apply nth_error_In with i | assumption].
Qed.

Lemma visible_iff_accepted (top : list Row) (path : list nat) (r : Row) :
  row_at top path = Some r ->
  visible indexIn pattern top path = true <->
  filterRecursiveAcceptsRow indexIn pattern r = true.
Proof.
  revert top. induction path as [|i path IH]; intros top Hat; [discriminate|].
  cbn [row_at visible] in *.
  destruct (nth_error top i) as [a|]; [|discriminate].
  destruct path as [|j path].
  - inversion Hat; subst. cbn [visible]. now rewrite andb_true_r.
  - rewrite andb_true_iff, (IH (rows a) Hat). split; [now intros [_ H]|].
    intros Hr. split; [|assumption]. now apply accepted_below with r (j :: path).
Qed.

Lemma visible_prefix (top : list Row) (path : list nat) (n : nat) :
  visible indexIn pattern top path = true ->
  visible indexIn pattern top (firstn n path) = true.
Proof.
  revert top n. induction path as [|i path IH]; intros top n H.
  - now rewrite firstn_nil.
  - destruct n as [|n]; [reflexivity|]. cbn [firstn visible] in *.
    destruct (nth_error top i) as [a|]; [|discriminate].
    apply andb_true_iff in H as [Ha Hv]. rewrite Ha. simpl. now apply IH.
Qed.

End FilterFacts.

(** C6. With a filter pattern that is not empty, a row of the tree is shown
    if and only if its own key or the key of a row below it matches the
    pattern; and when the key of a row matches, the row and every row above
    it are shown. *)
Theorem filter_shows_row_iff_match_at_or_below
  (indexIn : string -> string -> Z) (pattern : string) (top : list Row)
  (path : list nat) (r : Row) :
  pattern <> EmptyString ->
  row_at top path = Some r ->
  (visible indexIn pattern top path = true <->
   exists key, In key (keys_below r) /\ matches indexIn pattern key) /\
  (matches indexIn pattern (row_key r) ->
   forall n, visible indexIn pattern top (firstn n path) = true).
Proof.
  intros Hp Hat. split.
  - rewrite (visible_iff_accepted indexIn pattern top path r Hat).
    now apply accepts_iff_key_below.
  - intros Hm n. apply visible_prefix.
    apply (visible_iff_accepted indexIn pattern top path r Hat).
    apply accepts_iff_key_below; [assumption|].
    exists (row_key r). split; [|assumption]. destruct r. now left.
Qed.

End ProxyFacts.

Section GraphQLFacts.
Import GraphQL.

(** C9. The AssetInfo dataclass has no field named level or category, and
    GraphQLAccessor._create_asset_info_from_db_item passes both as keywords:
    for every row it raises (KeyError when id, type or name is missing,
    TypeError otherwise) and never returns an AssetInfo; the same constructor
    called without the two keywords succeeds. *)
Theorem asset_info_rejects_level_and_category :
  is_field AssetInfo_fields "level" = false /\
  is_field AssetInfo_fields "category" = false /\
  (forall item : gmap string Json,
     exists exc, _create_asset_info_from_db_item item = inl exc) /\
  _create_asset_info_from_db_item chair_row =
    inl (TypeError "__init__() got an unexpected keyword argument 'level'") /\
  dataclass_init AssetInfo_fields
    [("id", JInt 17); ("type", JStr "Prop"); ("name", JStr "chair")] =
    inr [("id", JInt 17); ("type", JStr "Prop"); ("name", JStr "chair");
         ("icon", JNull); ("details", JNull)].
Proof.
  split; [reflexivity|]. split; [reflexivity|]. split.
  { intros item. unfold _create_asset_info_from_db_item.
    destruct (getitem item "id") as [e|id]; [eauto|].
    destruct (getitem item "type") as [e|ty]; [eauto|].
    destruct (getitem item "name") as [e|nm]; [eauto|].
    eexists. reflexivity. }
  split; vm_compute; reflexivity.
Qed.

End GraphQLFacts.

Section Closing.
Import DataModels ThreadingUtils HookAccessor Icons AssetSelector Proxy Examples.

Lemma request_runnable_witness :
  ids_below (@empty_world unit nat nat) /\
  in_called 0
    (exec [PoolRuns 0 tt; MainLoop] (execute (fun _ : unit => inr 5) 7 empty_world)) = 1.
Proof.
  assert (ids_below (@empty_world unit nat nat)) as H by (repeat split; constructor).
  split; [exact H|].
  destruct (request_runnable_callback_iff_no_raise empty_world
              (fun _ : unit => inr 5) 7 [PoolRuns 0 tt; MainLoop] H)
    as (_ & _ & _ & _ & _ & Hret).
  apply Hret.
  - intros env _. exists 5. reflexivity.
  - split; reflexivity.
Defined.

Lemma accessor_without_project_never_calls_back :
  request_asset_types (mkAccessor None) 7 idle = idle /\
  quiescent (exec [PoolRuns 0 with_hooks; MainLoop]
               (request_asset_types (mkAccessor None) 7 idle)) /\
  in_called 0 (exec [PoolRuns 0 with_hooks; MainLoop]
                 (request_asset_types (mkAccessor None) 7 idle)) = 0.
Proof. repeat split. Qed.

Lemma accessor_request_witness :
  ids_below idle /\
  in_called 0
    (exec [PoolRuns 0 no_hooks; MainLoop]
       (perform (fun _ : string => true) AssetTypes (mkAccessor (Some "show")) 7 idle))
  = 1.
Proof.
  assert (ids_below idle) as H by (repeat split; constructor).
  split; [exact H|].
  destruct (accessor_request_calls_back_once_given_project (fun _ : string => true)
              AssetTypes (mkAccessor (Some "show")) 7 idle
              [PoolRuns 0 no_hooks; MainLoop] H) as [_ Hthrough].
  destruct (Hthrough eq_refl) as (_ & _ & _ & _ & Hans).
  apply Hans.
  - intros env [<-|[]]. exact I.
  - split; reflexivity.
Defined.

Lemma clear_cache_lets_an_id_be_queued_twice :
  queued (IdInt 17)
    (Icons.run [RequestIcon 1 chair; ClearCache; RequestIcon 2 chair_again] start) = 2 /\
  issued (IdInt 17)
    (Icons.run [RequestIcon 1 chair; ClearCache; RequestIcon 2 chair_again;
                LoaderTakes; LoaderTakes] start) = 2.
Proof. split; vm_compute; reflexivity. Qed.

Lemma request_icon_one_fetch_witness :
  no_clear [RequestIcon 1 chair; RequestIcon 2 chair_again; @LoaderTakes nat] = true /\
  issued (IdInt 17)
    (Icons.run [RequestIcon 1 chair; RequestIcon 2 chair_again; LoaderTakes] start) = 1.
Proof.
  split; [reflexivity|].
  destruct (request_icon_one_fetch_per_id_unless_cleared
              [RequestIcon 1 chair; RequestIcon 2 chair_again; LoaderTakes]
              (IdInt 17) eq_refl) as (_ & _ & _ & Hone).
  apply (Hone 1 chair); [now left | reflexivity].
Defined.

Lemma second_caller_is_not_notified :
  notified
    (Icons.run [RequestIcon 1 chair; RequestIcon 2 chair_again; LoaderTakes;
                LoaderDone 0 (inr thumb); SlotRuns] start)
  = [(1, mkIcon thumb)].
Proof. vm_compute. reflexivity. Qed.

Lemma request_icon_first_callback_witness :
  id chair_again = id chair /\
  _loaded_icons (manager (@start nat)) !! id chair = None /\
  _requests (manager (@start nat)) !! id chair = None /\
  no_clear [@LoaderTakes nat; LoaderDone 0 (inr thumb)] = true /\
  snd (_on_pixmap_loaded
         (manager (Icons.run [LoaderTakes; LoaderDone 0 (inr thumb)]
                     (Icons.run [RequestIcon 1 chair; RequestIcon 2 chair_again] start)))
         chair thumb)
  = inr [(1, mkIcon thumb)].
Proof.
  assert (_loaded_icons (manager (@start nat)) !! id chair = None) as Hl by reflexivity.
  assert (_requests (manager (@start nat)) !! id chair = None) as Hr by reflexivity.
  split; [reflexivity|]. split; [exact Hl|]. split; [exact Hr|]. split; [reflexivity|].
  apply (request_icon_keeps_first_callback start 1 2 chair chair_again chair thumb
           [LoaderTakes; LoaderDone 0 (inr thumb)] eq_refl eq_refl Hl Hr eq_refl).
Defined.

Lemma request_icon_cached_witness :
  _loaded_icons
    (manager (Icons.run [RequestIcon 1 chair; LoaderTakes; LoaderDone 0 (inr thumb);
                         SlotRuns] start)) !! id chair_again = Some (mkIcon thumb) /\
  request_icon
    (manager (Icons.run [RequestIcon 1 chair; LoaderTakes; LoaderDone 0 (inr thumb);
                         SlotRuns] start)) 5 chair_again
  = (manager (Icons.run [RequestIcon 1 chair; LoaderTakes; LoaderDone 0 (inr thumb);
                         SlotRuns] start), [(5, mkIcon thumb)]).
Proof.
  assert (_loaded_icons
            (manager (Icons.run [RequestIcon 1 chair; LoaderTakes;
                                 LoaderDone 0 (inr thumb); SlotRuns] start))
            !! id chair_again = Some (mkIcon thumb)) as H by (vm_compute; reflexivity).
  split; [exact H|].
  apply (request_icon_cached_calls_back_at_once _ chair_again (mkIcon thumb) 5 [2; 3] H).
Defined.

Lemma loading_state_witness :
  rebuilds (ItemExpanded 1) = false /\
  isValid 1 (AssetSelector.run two_types (new_view (mkProject "7"))) = true /\
  isValid 1
    (AssetSelector.step (AssetSelector.run two_types (new_view (mkProject "7")))
       (ItemExpanded 1)) = true /\
  advances
    (item_loading_state 1 (AssetSelector.run two_types (new_view (mkProject "7"))))
    (item_loading_state 1
       (AssetSelector.step (AssetSelector.run two_types (new_view (mkProject "7")))
          (ItemExpanded 1))).
Proof.
  assert (isValid 1 (AssetSelector.run two_types (new_view (mkProject "7"))) = true)
    as H by (vm_compute; reflexivity).
  split; [reflexivity|]. split; [exact H|].
  destruct (loading_state_advances_one_way (mkProject "7") two_types (ItemExpanded 1) 1)
    as (_ & _ & Hadv & _).
  exact (Hadv eq_refl H).
Defined.

Lemma swapped_case_is_not_case_folded :
  displayed ["7|Prop|Ab"; "7|Prop|aC"] = inr ["7|Prop|aC"; "7|Prop|Ab"] /\
  spec_displayed ["7|Prop|Ab"; "7|Prop|aC"] = inr ["7|Prop|Ab"; "7|Prop|aC"] /\
  lessThan "Ab" "aC" = inr true /\
  spec_lessThan "Ab" "aC" = inr false.
Proof. repeat split; vm_compute; reflexivity. Qed.

Lemma natural_order_witness :
  re_split "abc" = ["abc"] /\
  re_split "Abd" = ["Abd"] /\
  lessThan "abc" "Abd" = inr (String.ltb (swapcase "Abd") (swapcase "abc")).
Proof.
  assert (re_split "abc" = ["abc"]) as Hl by reflexivity.
  assert (re_split "Abd" = ["Abd"]) as Hr by reflexivity.
  split; [exact Hl|]. split; [exact Hr|].
  destruct natural_order_compares_swapped_case as (_ & Htext & _).
  exact (Htext "abc" "Abd" Hl Hr).
Defined.

Lemma filter_witness :
  "abc" <> EmptyString /\
  row_at prop_rows [0; 0] = Some (mkRow "7|Prop|xAbCy" []) /\
  matches indexIn_plain "abc" "7|Prop|xAbCy" /\
  filterAcceptsRow indexIn_plain "abc" (mkRow "7|Prop" [mkRow "7|Prop|xAbCy" []]) = false /\
  visible indexIn_plain "abc" prop_rows (firstn 1 [0; 0]) = true.
Proof.
  assert ("abc" <> EmptyString) as Hp by discriminate.
  assert (row_at prop_rows [0; 0] = Some (mkRow "7|Prop|xAbCy" [])) as Hat by reflexivity.
  assert (matches indexIn_plain "abc" "7|Prop|xAbCy") as Hm
    by (unfold matches; vm_compute; discriminate).
  split; [exact Hp|]. split; [exact Hat|]. split; [exact Hm|]. split; [reflexivity|].
  destruct (filter_shows_row_iff_match_at_or_below indexIn_plain "abc" prop_rows [0; 0]
              (mkRow "7|Prop|xAbCy" []) Hp Hat) as [_ Hchain].
  exact (Hchain Hm 1).
Defined.

End Closing.

Section IconCacheFacts.
Import DataModels Icons IconCache.
Context {CB : Type}.

Lemma requests_of_no_clear (reqs : list (CB * AssetInfo)) :
  no_clear (requests_of reqs) = true.
Proof. induction reqs as [|r reqs IH]; [reflexivity | exact IH]. Qed.

(** X1 (IconManager.request_icon, LifoQueue). Requests for assets that are
    neither loaded nor pending, all of different ids, call nobody back, record
    each caller, and leave the queue with the assets in reverse order of the
    calls in front of what was queued before: the icon asked for last is the
    next a loader takes. *)
Theorem later_requests_are_queued_in_front
  (s : IconSystem CB) (reqs : list (CB * AssetInfo)) :
  List.NoDup (map (fun r => id (snd r)) reqs) ->
  Forall (fun r => _loaded_icons (manager s) !! id (snd r) = None /\
                   _requests (manager s) !! id (snd r) = None) reqs ->
  let s' := Icons.run (requests_of reqs) s in
  _queue (manager s') = rev (map snd reqs) ++ _queue (manager s) /\
  _loaded_icons (manager s') = _loaded_icons (manager s) /\
  notified s' = notified s /\
  loading s' = loading s /\
  Forall (fun r => _requests (manager s') !! id (snd r) = Some (fst r)) reqs.
Proof.
  revert s. induction reqs as [|[cb a] reqs IH]; intros s Hnd Hfresh.
  { simpl. auto. }
  inversion Hnd as [|x l Hnotin Hnd']; subst.
  inversion Hfresh as [|x l [Hl Hr] Hfresh']; subst. simpl in Hl, Hr, Hnotin.
  change (Icons.run (requests_of ((cb, a) :: reqs)) s)
    with (Icons.run (requests_of reqs) (Icons.step s (RequestIcon cb a))).
  rewrite (step_request_fresh s cb a Hl Hr).
  set (s1 := mkIconSystem
               (mkIconManager (a :: _queue (manager s)) (_loaded_icons (manager s))
                  (<[id a := cb]> (_requests (manager s))))
               (loading s) (signals s) (fetched s) (notified s ++ []) (failures s)).
  assert (Forall (fun r => _loaded_icons (manager s1) !! id (snd r) = None /\
                           _requests (manager s1) !! id (snd r) = None) reqs) as Hfresh1.
  { rewrite List.Forall_forall in *. intros r Hin. destruct (Hfresh' r Hin) as [H1 H2].
    split; [exact H1|]. simpl. rewrite lookup_insert_ne; [exact H2|].
    intros Heq. apply Hnotin. rewrite Heq.
    apply (in_map (fun r => id (snd r))), Hin. }
  destruct (IH s1 Hnd' Hfresh1) as (Hq & Hc & Hn & Hlo & Hreq).
  cbv zeta. rewrite Hq, Hc, Hn, Hlo. simpl.
  rewrite <- app_assoc, app_nil_r. simpl.
  split; [reflexivity|]. split; [reflexivity|]. split; [reflexivity|].
  split; [reflexivity|]. constructor; [|exact Hreq].
  simpl. apply pending_kept_run; [apply requests_of_no_clear|].
  simpl. apply lookup_insert_eq.
Qed.






(** X3 (IconManager.clear_cache, IconManager._on_pixmap_loaded). A load that
    finishes after clear_cache still puts its icon into the cache, but the
    callback recorded for it before the clearing is gone: nobody is called. *)
Theorem load_finishing_after_clear_cache_notifies_nobody
  (s : IconSystem CB) (a : AssetInfo) (pixmap : QPixmap)
  (rest : list (AssetInfo * QPixmap)) :
  signals s = (a, pixmap) :: rest ->
  let s' := Icons.run [ClearCache; SlotRuns] s in
  notified s' = notified s /\
  failures s' = failures s /\
  signals s' = rest /\
  _loaded_icons (manager s') = {[id a := mkIcon pixmap]} /\
  _requests (manager s') = ∅ /\
  _queue (manager s') = _queue (manager s).
Proof.
  intros Hs. cbv zeta. unfold Icons.run. cbn [fold_left].
  cbn [Icons.step clear_cache signals manager]. rewrite Hs.
  unfold _on_pixmap_loaded, _apply_icon. simpl.
  rewrite lookup_insert_eq, lookup_empty. simpl.
  rewrite app_nil_r. repeat split. 
Qed.

Lemma settled_step (s : IconSystem CB) (e : Event CB) :
  is_clear e = false -> dedup s -> settled s -> settled (Icons.step s e).
Proof.
  intros He Hd Hse i. pose proof (Hse i) as Hi.
  destruct e as [cb a| |k o| |]; simpl in *; try discriminate.
  - unfold request_icon.
    destruct (_loaded_icons (manager s) !! id a) as [ic|] eqn:El; [exact Hi|].
    destruct (_requests (manager s) !! id a) as [c|] eqn:Er; [exact Hi|].
    simpl. intros Hsome. specialize (Hi Hsome).
    assert (id a <> i) as Hne.
    { intros Heq. rewrite Heq in El. rewrite El in Hsome. destruct Hsome; discriminate. }
    unfold outstanding, queued in *. simpl. now rewrite has_id_other.
  - destruct (_queue (manager s)) as [|a rest] eqn:Eq; [exact Hi|].
    destruct (Nat.ltb (length (loading s)) workers); [|exact Hi].
    simpl. intros Hsome. specialize (Hi Hsome).
    unfold outstanding, queued in *. simpl. rewrite Eq in Hi. simpl in Hi.
    rewrite List.filter_app, length_app. simpl.
    destruct (has_id i a); simpl in *; lia.
  - destruct (take_nth k (loading s)) as [[a rest]|] eqn:Et; [|exact Hi].
    pose proof (take_nth_perm (has_id i) _ _ _ _ Et) as Hcount.
    destruct o as [exc|px]; simpl; intros Hsome; specialize (Hi Hsome);
      unfold outstanding, queued in *; simpl.
    + lia.
    + rewrite List.filter_app, length_app. simpl.
      destruct (has_id i a); simpl in *; lia.
  - destruct (signals s) as [|[a px] rest] eqn:Es; [exact Hi|].
    unfold _on_pixmap_loaded, _apply_icon. simpl. rewrite lookup_insert_eq.
    assert (outstanding i {| manager := manager s; loading := loading s;
                             signals := rest; fetched := fetched s;
                             notified := notified s; failures := failures s |} = 0
            \/ (id a <> i /\ ~ is_Some (_loaded_icons (manager s) !! i))) as Hcase.
    { destruct (decide (id a = i)) as [<-|Hne].
      - left. destruct (dedup_bounds s (id a) Hd) as [_ Hb].
        unfold outstanding, queued in *. simpl. rewrite Es in Hb. simpl in Hb.
        rewrite has_id_self in Hb. simpl in Hb. lia.
      - destruct (_loaded_icons (manager s) !! i) as [ic|] eqn:El.
        + left. assert (outstanding i s = 0) as H0 by (apply Hi; eauto).
          unfold outstanding, queued in *. simpl. rewrite Es in H0. simpl in H0.
          destruct (has_id i a); simpl in *; lia.
        + right. split; [assumption|]. intros [x Hx]. discriminate. }
    destruct (_requests (manager s) !! id a) as [c|]; simpl; intros Hsome;
      (destruct Hcase as [H0|[Hne Hnone]];
       [exact H0 | rewrite lookup_insert_ne in Hsome by assumption; contradiction]).
Qed.

Lemma settled_start : settled (@start CB).
Proof. intros i [x Hx]. simpl in Hx. rewrite lookup_empty in Hx. discriminate. Qed.

Lemma settled_run (es : list (Event CB)) (s : IconSystem CB) :
  no_clear es = true -> dedup s -> settled s ->
  dedup (Icons.run es s) /\ settled (Icons.run es s).
Proof.
  revert s. induction es as [|e es IH]; intros s Hes Hd Hse; [now split|].
  simpl in Hes. apply andb_prop in Hes as [He Hes']. apply negb_true_iff in He.
  apply IH; [assumption | now apply dedup_step | now apply settled_step].
Qed.

Lemma loaded_kept_step (s : IconSystem CB) (e : Event CB) (i : AssetId) (icon : QIcon) :
  is_clear e = false -> settled s ->
  _loaded_icons (manager s) !! i = Some icon ->
  _loaded_icons (manager (Icons.step s e)) !! i = Some icon.
Proof.
  intros He Hse Hl. destruct e as [cb a| |k o| |]; simpl in *; try discriminate.
  - unfold request_icon.
    destruct (_loaded_icons (manager s) !! id a); [exact Hl|].
    destruct (_requests (manager s) !! id a); exact Hl.
  - destruct (_queue (manager s)); [exact Hl|].
    destruct (Nat.ltb (length (loading s)) workers); exact Hl.
  - destruct (take_nth k (loading s)) as [[a rest]|]; [|exact Hl].
    destruct o; exact Hl.
  - destruct (signals s) as [|[a px] rest] eqn:Es; [exact Hl|].
    unfold _on_pixmap_loaded, _apply_icon. simpl. rewrite lookup_insert_eq.
    assert (id a <> i) as Hne.
    { intros Heq. rewrite <- Heq in Hl.
      assert (outstanding (id a) s = 0) as H0 by (apply Hse; eauto).
      unfold outstanding in H0. rewrite Es in H0. simpl in H0.
      rewrite has_id_self in H0. simpl in H0. lia. }
    destruct (_requests (manager s) !! id a); simpl;
      now rewrite lookup_insert_ne by assumption.
Qed.

Lemma loaded_kept_run (es : list (Event CB)) (s : IconSystem CB) (i : AssetId)
  (icon : QIcon) :
  no_clear es = true -> dedup s -> settled s ->
  _loaded_icons (manager s) !! i = Some icon ->
  _loaded_icons (manager (Icons.run es s)) !! i = Some icon.
Proof.
  revert s. induction es as [|e es IH]; intros s Hes Hd Hse Hl; [exact Hl|].
  simpl in Hes. apply andb_prop in Hes as [He Hes']. apply negb_true_iff in He.
  simpl. apply (IH _ Hes').
  - now apply dedup_step.
  - now apply settled_step.
  - now apply loaded_kept_step.
Qed.

(** X4 (IconManager._on_pixmap_loaded, IconManager.request_icon). In a run
    that never clears the cache, an id that is in the cache has been fetched
    exactly once and has nothing queued, loading or waiting for delivery; and
    whatever happens next, as long as the cache is not cleared, it stays in
    the cache with the same icon and is not fetched again. *)
Theorem cached_icon_is_fetched_once_and_kept
  (es1 es2 : list (Event CB)) (i : AssetId) (icon : QIcon) :
  no_clear es1 = true -> no_clear es2 = true ->
  _loaded_icons (manager (Icons.run es1 start)) !! i = Some icon ->
  let s := Icons.run es1 start in
  let s' := Icons.run es2 s in
  outstanding i s = 0 /\ count_fetched i s = 1 /\
  _loaded_icons (manager s') !! i = Some icon /\
  outstanding i s' = 0 /\ count_fetched i s' = 1.
Proof.
  intros H1 H2 Hl s s'.
  destruct (settled_run es1 start H1 dedup_start settled_start) as [Hd Hse].
  fold s in Hd, Hse.
  assert (Hkept : _loaded_icons (manager s') !! i = Some icon)
    by now apply loaded_kept_run.
  destruct (settled_run es2 s H2 Hd Hse) as [Hd' Hse']. fold s' in Hd', Hse'.
  assert (Hfacts : forall t : IconSystem CB, dedup t -> settled t ->
            _loaded_icons (manager t) !! i = Some icon ->
            outstanding i t = 0 /\ count_fetched i t = 1).
  { intros t [Hi Hw Hlo] Hst Hlt.
    assert (outstanding i t = 0) as H0 by (apply Hst; eauto).
    split; [exact H0|].
    destruct (Hlo i) as [cb Hcb]; [eauto|].
    specialize (Hi i). unfold issued, pending_bit, count_fetched in *.
    rewrite Hcb in Hi. unfold outstanding in H0. lia. }
  destruct (Hfacts s Hd Hse Hl) as [A1 A2].
  destruct (Hfacts s' Hd' Hse' Hkept) as [B1 B2].
  auto.
Qed.

End IconCacheFacts.

Section TreeIndexFacts.
Import DataModels AssetSelector TreeIndex.

Lemma isValid_alive (h : nat) (v : AssetTreeView) (it : Item) :
  items v !! h = Some it -> isValid h v = true.
Proof. intros H. apply isValid_true. unfold valid. rewrite H. eauto. Qed.

(** X5 (AssetTreeView._append_item, AssetTreeView._find_item_by_key).
    Appending a row that is already there changes nothing: a second
    _append_item with the same parent, label and key returns the item the
    first one returned and leaves the view as the first one left it, whatever
    entity type and expandability it is called with. The parent has to be an
    item that was made at some time, alive or not. *)
Theorem append_item_again_returns_the_same_item
  (p : nat) (label : string) (et et' : EntityType) (key_arg : option string)
  (ex ex' : bool) (v : AssetTreeView) :
  bounded v -> p < fresh v -> root v < fresh v ->
  _append_item p label et' key_arg ex' (snd (_append_item p label et key_arg ex v))
  = _append_item p label et key_arg ex v.
Proof.
  intros Hb Hp Hroot. unfold _append_item at 2 3.
  set (p' := if isValid p v then p else root v).
  assert (p' < fresh v) as Hp' by (unfold p'; destruct (isValid p v); assumption).
  set (pk := str_or match items v !! p' with
                    | Some it => key it
                    | None => None
                    end (project_id (_project v))).
  set (k := pk +:+ "|" +:+ str_or key_arg label).
  destruct (_find_item_by_key k v) as [found v1] eqn:Ef.
  unfold _find_item_by_key in Ef.
  destruct found as [child|].
  - (* the row was there before the first call *)
    assert (v1 = v /\ _mapping v !! k = Some child /\ isValid child v = true)
      as (-> & Hm & Hc).
    { destruct (_mapping v !! k) as [c|]; [|discriminate].
      destruct (isValid c v) eqn:Ec; inversion Ef; subst. auto. }
    simpl. unfold _append_item. fold p'. fold pk. fold k.
    unfold _find_item_by_key. now rewrite Hm, Hc.
  - (* the first call made the row *)
    assert (items v1 = items v /\ root v1 = root v /\ fresh v1 = fresh v /\
            _project v1 = _project v) as (Hi & Hr & Hf & Hpr).
    { destruct (_mapping v !! k) as [c|]; [|inversion Ef; subst; auto].
      destruct (isValid c v); inversion Ef; subst; auto. }
    simpl. unfold _append_item.
    set (it := mkItem label (Some et) (Some ex) (Some k) (Some NotLoaded)
                 (Some (DataLabel label)) Normal []).
    set (v2 := mkView (_project v1)
                 (<[fresh v1 := it]> (alter (appendRow (fresh v1)) p' (items v1)))
                 (root v1) (S (fresh v1)) (<[k := fresh v1]> (_mapping v1)) (state v1)
                 (filter_wildcard v1) (sent v1)).
    assert (Hlook : forall h, h < fresh v ->
              items v2 !! h = appendRow_if (Nat.eqb h p') (fresh v1) <$> items v !! h).
    { intros h Hh. unfold v2. simpl. rewrite Hf, Hi.
      rewrite lookup_insert_ne by lia. rewrite lookup_alter.
      destruct (decide (p' = h)) as [->|Hne].
      - rewrite Nat.eqb_refl. reflexivity.
      - rewrite (proj2 (Nat.eqb_neq h p')) by congruence.
        destruct (items v !! h); reflexivity. }
    assert (isValid p v2 = isValid p v) as Hvp.
    { unfold isValid. rewrite (Hlook p Hp).
      destruct (items v !! p); reflexivity. }
    assert (root v2 = root v) as Hr2 by exact Hr.
    rewrite Hvp, Hr2. fold p'.
    assert (match items v2 !! p' with
            | Some it0 => key it0
            | None => None
            end = match items v !! p' with
                  | Some it0 => key it0
                  | None => None
                  end) as Hkey.
    { rewrite (Hlook p' Hp'). destruct (items v !! p') as [i0|]; [|reflexivity].
      simpl. destruct (Nat.eqb p' p'); reflexivity. }
    rewrite Hkey. change (_project v2) with (_project v1). rewrite Hpr.
    fold pk. fold k. unfold _find_item_by_key.
    assert (_mapping v2 !! k = Some (fresh v1)) as Hm by apply lookup_insert_eq.
    assert (isValid (fresh v1) v2 = true) as Hc.
    { apply isValid_alive with it. apply lookup_insert_eq. }
    rewrite Hm, Hc. reflexivity.
Qed.

Lemma tidy_same_tree (v v' : AssetTreeView) :
  items v' = items v -> fresh v' = fresh v -> _mapping v' = _mapping v ->
  tidy v -> tidy v'.
Proof.
  intros Hi Hf Hm [[B1 B2] Hx Hs]. split; [split|..].
  - intros h. unfold valid. rewrite Hi, Hf. apply B1.
  - intros k h. rewrite Hm, Hf. apply B2.
  - intros h it k. rewrite Hi, Hm. apply Hx.
  - intros h it. rewrite Hi. apply Hs.
Qed.

Lemma tidy_alter (f : Item -> Item) (h : nat) (v : AssetTreeView) :
  (forall it, key (f it) = key it) ->
  (forall it, known_state (loading_state it) -> known_state (loading_state (f it))) ->
  tidy v -> tidy (with_items (alter f h) v).
Proof.
  intros Hk Hst [[B1 B2] Hx Hs].
  assert (Hlook : forall h' it', alter f h (items v) !! h' = Some it' ->
            exists it0, items v !! h' = Some it0 /\
                        key it' = key it0 /\
                        (known_state (loading_state it0) ->
                         known_state (loading_state it'))).
  { intros h' it' H. rewrite lookup_alter in H.
    destruct (decide (h = h')) as [->|Hne].
    - destruct (items v !! h') as [it0|]; [|discriminate]. simpl in H.
      inversion H; subst. exists it0. auto.
    - exists it'. auto. }
  split; [split|..]; simpl.
  - intros h' Hv. apply B1. unfold valid in *. simpl in Hv.
    now apply lookup_alter_is_Some in Hv.
  - exact B2.
  - intros h' it' k Hit Hkey. destruct (Hlook h' it' Hit) as (it0 & H0 & Hk0 & _).
    apply (Hx h' it0 k H0). congruence.
  - intros h' it' Hit. destruct (Hlook h' it' Hit) as (it0 & H0 & _ & Hs0).
    apply Hs0, (Hs h' it0 H0).
Qed.

Lemma tidy_set_loading (s : LoadingStates) (h : nat) (v : AssetTreeView) :
  s <> ToLoad -> tidy v -> tidy (with_items (alter (set_loading_state s) h) v).
Proof.
  intros Hs. apply tidy_alter; [reflexivity|]. intros it _. simpl.
  destruct s; [contradiction | now left | right; now left | right; now right].
Qed.

Lemma tidy_find (k : string) (v : AssetTreeView) :
  tidy v ->
  tidy (snd (_find_item_by_key k v)) /\
  items (snd (_find_item_by_key k v)) = items v /\
  fresh (snd (_find_item_by_key k v)) = fresh v /\
  root (snd (_find_item_by_key k v)) = root v /\
  _project (snd (_find_item_by_key k v)) = _project v /\
  sent (snd (_find_item_by_key k v)) = sent v /\
  match fst (_find_item_by_key k v) with
  | Some h => _mapping v !! k = Some h /\ valid h v
  | None => forall h it, items v !! h = Some it -> key it <> Some k
  end.
Proof.
  intros Ht. pose proof Ht as [[B1 B2] Hx Hs]. unfold _find_item_by_key.
  destruct (_mapping v !! k) as [c|] eqn:Em.
  - destruct (isValid c v) eqn:Ec; simpl.
    + apply isValid_true in Ec. repeat split; auto.
    + apply isValid_false in Ec.
      assert (Hnone : forall h it, items v !! h = Some it -> key it <> Some k).
      { intros h it Hit Hkey. apply Ec. rewrite (Hx h it k Hit Hkey) in Em.
        inversion Em; subst. unfold valid. rewrite Hit. eauto. }
      split; [|repeat split; auto].
      split; [split|..]; simpl.
      * exact B1.
      * intros k' h Hk. apply lookup_delete_Some in Hk as [_ Hk]. eauto.
      * intros h it k' Hit Hkey. simpl in *.
        rewrite lookup_delete_ne; [now apply (Hx h it)|].
        intros <-. exact (Hnone h it Hit Hkey).
      * exact Hs.
  - simpl. repeat split; auto.
    intros h it Hit Hkey. rewrite (Hx h it k Hit Hkey) in Em. discriminate.
Qed.

Lemma tidy_append_item (p : nat) (label : string) (et : EntityType)
  (key_arg : option string) (ex : bool) (v : AssetTreeView) :
  tidy v ->
  tidy (snd (_append_item p label et key_arg ex v)) /\
  root (snd (_append_item p label et key_arg ex v)) = root v /\
  _project (snd (_append_item p label et key_arg ex v)) = _project v /\
  sent (snd (_append_item p label et key_arg ex v)) = sent v.
Proof.
  intros Ht. unfold _append_item.
  set (p' := if isValid p v then p else root v).
  set (k := (str_or match items v !! p' with
                    | Some it => key it
                    | None => None
                    end (project_id (_project v)) +:+ "|" +:+ str_or key_arg label)).
  destruct (tidy_find k v Ht) as (Ht1 & Hi & Hf & Hr & Hpr & Hse & Hfound).
  destruct (_find_item_by_key k v) as [found v1]. simpl in *.
  destruct found as [child|]; simpl; [auto|].
  split; [|auto]. pose proof Ht1 as [[B1 B2] Hx Hs].
  assert (Hold : forall h it', alter (appendRow (fresh v1)) p' (items v1) !! h = Some it' ->
            exists it0, items v1 !! h = Some it0 /\ key it' = key it0 /\
                        loading_state it' = loading_state it0).
  { intros h it' H. rewrite lookup_alter in H.
    destruct (decide (p' = h)) as [->|Hne].
    - destruct (items v1 !! h) as [it0|]; [|discriminate]. simpl in H.
      inversion H; subst. exists it0. auto.
    - exists it'. auto. }
  split; [split|..]; simpl.
  - intros h Hh. unfold valid in Hh. simpl in Hh.
    destruct (decide (fresh v1 = h)) as [<-|Hne]; [lia|].
    rewrite lookup_insert_ne in Hh by assumption.
    apply lookup_alter_is_Some in Hh. apply B1 in Hh. lia.
  - intros k' h Hk. rewrite lookup_insert in Hk.
    destruct (decide (k = k')); [inversion Hk; lia|]. apply B2 in Hk. lia.
  - intros h it' k' Hit Hkey. simpl in Hit |- *. rewrite lookup_insert in Hit.
    destruct (decide (fresh v1 = h)) as [<-|Hne].
    + inversion Hit; subst. simpl in Hkey. inversion Hkey; subst.
      apply lookup_insert_eq.
    + destruct (Hold h it' Hit) as (it0 & H0 & Hk0 & _).
      rewrite Hk0 in Hkey. rewrite lookup_insert_ne; [now apply (Hx h it0)|].
      intros <-. rewrite Hi in H0. exact (Hfound h it0 H0 Hkey).
  - intros h it' Hit. simpl in Hit. rewrite lookup_insert in Hit.
    destruct (decide (fresh v1 = h)) as [<-|Hne].
    + inversion Hit; subst. simpl. now left.
    + destruct (Hold h it' Hit) as (it0 & H0 & _ & Hs0). rewrite Hs0.
      apply (Hs h it0 H0).
Qed.

Lemma fold_tidy {A} (f : AssetTreeView -> A -> AssetTreeView) (l : list A)
  (v : AssetTreeView) :
  (forall v x, tidy v -> tidy (f v x)) -> tidy v -> tidy (fold_left f l v).
Proof.
  intros Hf. revert v. induction l as [|x l IH]; intros v Ht; simpl; [assumption|].
  apply IH, Hf, Ht.
Qed.

Lemma known_kept_by_data (d : ItemData) (it : Item) :
  known_state (loading_state it) -> known_state (loading_state (set_data d it)).
Proof. auto. Qed.

Lemma tidy_append_items (p : nat) (et : EntityType) (labels : list string)
  (v : AssetTreeView) : tidy v -> tidy (_append_items p et labels v).
Proof.
  intros Ht. unfold _append_items. destruct (isValid p v); [|assumption].
  apply tidy_set_loading; [discriminate|].
  apply fold_tidy; [|assumption]. intros v0 x H0. now apply tidy_append_item.
Qed.

Lemma tidy_append_asset_items (p : nat) (et : EntityType) (assets : list AssetInfo)
  (v : AssetTreeView) : tidy v -> tidy (_append_asset_items p et assets v).
Proof.
  intros Ht. unfold _append_asset_items. destruct (isValid p v); [|assumption].
  apply tidy_set_loading; [discriminate|].
  apply fold_tidy; [|assumption]. intros v0 x H0.
  destruct (tidy_append_item p (name x) et None false v0 H0) as [H1 _].
  destruct (_append_item p (name x) et None false v0) as [item v1]. simpl in H1.
  apply tidy_alter; [reflexivity | apply known_kept_by_data | assumption].
Qed.

Lemma tidy_append_regex (assets : list AssetInfo) (v : AssetTreeView) :
  tidy v -> tidy (_append_asset_items_by_regex assets v).
Proof.
  intros Ht. unfold _append_asset_items_by_regex.
  match goal with
  | |- tidy (with_state Ready ?w) => apply (tidy_same_tree w); try reflexivity
  end.
  revert Ht. apply fold_tidy. clear v. intros v x Ht.
  destruct (tidy_find (project_id (_project v) +:+ "|" +:+ type x) v Ht) as (T1 & _).
  destruct (_find_item_by_key (project_id (_project v) +:+ "|" +:+ type x) v)
    as [found v1]. simpl in T1.
  assert (exists h v2, (match found with
                        | Some it => (it, v1)
                        | None => _append_item (root v) (type x) AssetType None true v1
                        end) = (h, v2) /\ tidy v2) as (h & v2 & E2 & T2).
  { destruct found as [it|].
    - exists it, v1. auto.
    - destruct (tidy_append_item (root v) (type x) AssetType None true v1 T1) as [T _].
      destruct (_append_item (root v) (type x) AssetType None true v1) as [h v2].
      exists h, v2. auto. }
  rewrite E2.
  destruct (tidy_find "{parent_key}|{asset_name}" v2 T2) as (T3 & _).
  destruct (_find_item_by_key "{parent_key}|{asset_name}" v2) as [found3 v3].
  simpl in T3. destruct found3 as [?|]; [assumption|].
  destruct (tidy_append_item h (name x) AssetName None false v3 T3) as [T4 _].
  destruct (_append_item h (name x) AssetName None false v3) as [child v4]. simpl in T4.
  apply tidy_alter; [reflexivity | apply known_kept_by_data | assumption].
Qed.

Lemma tidy_load_children (h : nat) (v : AssetTreeView) :
  tidy v -> tidy (_load_children h v).
Proof.
  intros Ht. unfold _load_children.
  destruct (bool_decide (item_loading_state h v = Some NotLoaded)); [|assumption].
  assert (tidy (with_items (alter (set_loading_state InProgress) h) v)) as T1
    by (apply tidy_set_loading; [discriminate | assumption]).
  set (v1 := with_items (alter (set_loading_state InProgress) h) v) in *.
  destruct (bool_decide (h = root v1)).
  { now apply (tidy_same_tree v1). }
  destruct (items v1 !! h) as [it|]; [|assumption].
  destruct (entity_type it) as [[]|]; try assumption.
  now apply (tidy_same_tree v1).
Qed.

Lemma tidy_clear (v : AssetTreeView) : tidy v -> tidy (_clear v).
Proof.
  intros [[B1 B2] _ _]. rewrite clear_eq. split; [split|..]; simpl.
  - intros h Hh. unfold valid in Hh. simpl in Hh.
    apply lookup_singleton_is_Some in Hh. lia.
  - intros k h Hk. apply B2 in Hk. lia.
  - intros h it k Hit Hkey. simpl in Hit.
    apply lookup_singleton_Some in Hit as [_ <-]. discriminate.
  - intros h it Hit. simpl in Hit.
    apply lookup_singleton_Some in Hit as [_ <-]. right. now left.
Qed.

Lemma set_state_known (s : ItemState) (it : Item) :
  known_state (loading_state it) -> known_state (loading_state (set_state s it)).
Proof. auto. Qed.

Lemma tidy_step (v : AssetTreeView) (e : Event) : tidy v -> tidy (AssetSelector.step v e).
Proof.
  intros Ht. destruct e as [item|item|item ex|i a| |project|regex]; simpl.
  - destruct (isValid item v); [|assumption]. unfold _on_expanded.
    apply tidy_load_children, tidy_alter; [reflexivity | apply set_state_known | assumption].
  - destruct (isValid item v); [|assumption]. unfold _on_collapsed.
    apply tidy_alter; [reflexivity | apply set_state_known | assumption].
  - destruct (isValid item v); [|assumption]. unfold _on_clicked.
    destruct (items v !! item) as [it|]; [|assumption].
    destruct (expandable it) as [[]|]; try assumption.
    destruct ex; simpl.
    + unfold _on_collapsed.
      apply tidy_alter; [reflexivity | apply set_state_known | assumption].
    + unfold _on_expanded. apply tidy_load_children.
      apply tidy_alter; [reflexivity | apply set_state_known |].
      now apply tidy_load_children.
  - destruct (take_nth i (sent v)) as [[c rest]|]; [|assumption].
    set (v0 := mkView (_project v) (items v) (root v) (fresh v) (_mapping v) (state v)
                 (filter_wildcard v) rest).
    assert (tidy v0) as T0 by now apply (tidy_same_tree v).
    destruct (callback_of c) as [|p et|]; destruct a as [l|l]; simpl; try assumption.
    + unfold _on_asset_types_loaded.
      match goal with
      | |- tidy (with_state Ready ?w) => apply (tidy_same_tree w); try reflexivity
      end.
      now apply tidy_append_items.
    + now apply tidy_append_asset_items.
    + now apply tidy_append_regex.
  - now apply tidy_clear.
  - unfold set_active_project, reload. apply tidy_clear.
    now apply (tidy_same_tree v).
  - unfold load_by_regex.
    match goal with
    | |- tidy (mkView _ _ _ _ _ _ _ (sent ?w)) => apply (tidy_same_tree w); try reflexivity
    end.
    destruct regex as [[|c s]|]; now apply (tidy_same_tree v).
Qed.

Lemma tidy_new_view (project : Project) : tidy (new_view project).
Proof.
  unfold new_view. apply tidy_clear. split; [split|..]; simpl.
  - intros h Hh. unfold valid in Hh. simpl in Hh. rewrite lookup_empty in Hh.
    destruct Hh; discriminate.
  - intros k h Hk. rewrite lookup_empty in Hk. discriminate.
  - intros h it k Hit. simpl in Hit. rewrite lookup_empty in Hit. discriminate.
  - intros h it Hit. simpl in Hit. rewrite lookup_empty in Hit. discriminate.
Qed.

Lemma tidy_run (es : list Event) (v : AssetTreeView) :
  tidy v -> tidy (AssetSelector.run es v).
Proof.
  revert v. induction es as [|e es IH]; intros v Ht; simpl; [assumption|].
  apply IH, tidy_step, Ht.
Qed.

(** X6 (AssetTreeView._append_item, AssetTreeView._find_item_by_key). In
    every state the view reaches, a live row is found under its key, and no
    two live rows have the same key: the tree never holds a row twice. *)
Theorem live_rows_are_found_by_key_and_unique
  (project : Project) (es : list Event) (h h' : nat) (it it' : Item) (k : string) :
  let v := AssetSelector.run es (new_view project) in
  items v !! h = Some it -> key it = Some k ->
  _find_item_by_key k v = (Some h, v) /\
  (items v !! h' = Some it' -> key it' = Some k -> h' = h).
Proof.
  intros v Hit Hkey.
  pose proof (tidy_run es _ (tidy_new_view project)) as [_ Hx _]. fold v in Hx.
  pose proof (Hx h it k Hit Hkey) as Hm. split.
  - unfold _find_item_by_key. rewrite Hm, (isValid_alive h v it Hit). reflexivity.
  - intros Hit' Hkey'. pose proof (Hx h' it' k Hit' Hkey') as Hm'. congruence.
Qed.

(** X7 (LoadingStates, AssetTreeView._clear, AssetTreeView._append_item). In
    every state the view reaches, every live item carries one of the loading
    states NotLoaded, InProgress, Loaded: the state ToLoad is never assigned
    and the role is never left unset. *)
Theorem loading_state_is_never_toload
  (project : Project) (es : list Event) (h : nat) :
  let v := AssetSelector.run es (new_view project) in
  isValid h v = true ->
  known_state (item_loading_state h v) /\
  item_loading_state h v <> Some ToLoad /\
  item_loading_state h v <> None.
Proof.
  intros v Hv. apply isValid_true in Hv. destruct Hv as [it Hit].
  pose proof (tidy_run es _ (tidy_new_view project)) as [_ _ Hs]. fold v in Hs.
  pose proof (Hs h it Hit) as Hk. unfold item_loading_state. rewrite Hit.
  split; [exact Hk|]. destruct Hk as [->|[->| ->]]; split; discriminate.
Qed.

Lemma sent_find (k : string) (v : AssetTreeView) :
  sent (snd (_find_item_by_key k v)) = sent v.
Proof.
  unfold _find_item_by_key. destruct (_mapping v !! k) as [c|]; [|reflexivity].
  destruct (isValid c v); reflexivity.
Qed.

Lemma sent_append_item (p : nat) (label : string) (et : EntityType)
  (key_arg : option string) (ex : bool) (v : AssetTreeView) :
  sent (snd (_append_item p label et key_arg ex v)) = sent v.
Proof.
  unfold _append_item.
  match goal with
  | |- context [_find_item_by_key ?k v] =>
      pose proof (sent_find k v) as H; destruct (_find_item_by_key k v) as [found v1]
  end.
  simpl in H. destruct found; simpl; exact H.
Qed.

Lemma sent_fold {A} (f : AssetTreeView -> A -> AssetTreeView) (l : list A)
  (v : AssetTreeView) :
  (forall v x, sent (f v x) = sent v) -> sent (fold_left f l v) = sent v.
Proof.
  intros Hf. revert v. induction l as [|x l IH]; intros v; simpl; [reflexivity|].
  now rewrite IH, Hf.
Qed.

Lemma sent_call (cb : Callback) (a : Answer) (v : AssetTreeView) :
  sent (call cb a v) = sent v.
Proof.
  destruct cb as [|p et|]; destruct a as [l|l]; simpl; try reflexivity.
  - unfold _on_asset_types_loaded, _append_items.
    destruct (isValid (root v) v); [|reflexivity]. simpl.
    apply sent_fold. intros. apply sent_append_item.
  - unfold _append_asset_items. destruct (isValid p v); [|reflexivity]. simpl.
    apply sent_fold. intros v0 x.
    pose proof (sent_append_item p (name x) et None false v0) as H.
    destruct (_append_item p (name x) et None false v0) as [item v1]. exact H.
  - unfold _append_asset_items_by_regex. simpl.
    apply sent_fold. intros v0 x.
    pose proof (sent_find (project_id (_project v0) +:+ "|" +:+ type x) v0) as H1.
    destruct (_find_item_by_key (project_id (_project v0) +:+ "|" +:+ type x) v0)
      as [found v1]. simpl in H1.
    assert (exists h v2, (match found with
                          | Some it => (it, v1)
                          | None => _append_item (root v0) (type x) AssetType None true v1
                          end) = (h, v2) /\ sent v2 = sent v0) as (h & v2 & E2 & H2).
    { destruct found as [it|].
      - exists it, v1. auto.
      - pose proof (sent_append_item (root v0) (type x) AssetType None true v1) as H.
        destruct (_append_item (root v0) (type x) AssetType None true v1) as [h v2].
        exists h, v2. split; [reflexivity | simpl in H; congruence]. }
    rewrite E2.
    pose proof (sent_find "{parent_key}|{asset_name}" v2) as H3.
    destruct (_find_item_by_key "{parent_key}|{asset_name}" v2) as [found3 v3].
    simpl in H3. destruct found3 as [?|]; [congruence|].
    pose proof (sent_append_item h (name x) AssetName None false v3) as H4.
    destruct (_append_item h (name x) AssetName None false v3) as [child v4].
    simpl in *. congruence.
Qed.

Lemma sent_call_assets (p : nat) (et : EntityType) (l : list AssetInfo)
  (v : AssetTreeView) :
  sent (_append_asset_items p et l v) = sent v.
Proof. apply (sent_call (AppendAssetItems p et) (AssetList l) v). Qed.

Lemma sent_load_children (h : nat) (v : AssetTreeView) :
  sent (_load_children h v) = sent v \/
  (item_loading_state h v = Some NotLoaded /\
   exists c, sent (_load_children h v) = sent v ++ [c] /\
             forall p, asks_for p c = true -> p = h).
Proof.
  unfold _load_children.
  destruct (bool_decide (item_loading_state h v = Some NotLoaded)) eqn:E; [|now left].
  apply bool_decide_eq_true in E.
  set (v1 := with_items (alter (set_loading_state InProgress) h) v).
  destruct (bool_decide (h = root v1)).
  { right. split; [exact E|]. eexists. split; [reflexivity|]. discriminate. }
  destruct (items v1 !! h) as [it|]; [|now left].
  destruct (entity_type it) as [[]|]; try now left.
  right. split; [exact E|]. eexists. split; [reflexivity|].
  intros p Hp. unfold asks_for in Hp. simpl in Hp. now apply Nat.eqb_eq in Hp.
Qed.







Lemma classic_valid (p : nat) (v : AssetTreeView) : valid p v \/ ~ valid p v.
Proof. unfold valid. destruct (items v !! p); [left; eauto | right; intros [x Hx]; discriminate]. Qed.

(** An item that is dead stays dead: handles are not reused. *)
Lemma dead_step (v : AssetTreeView) (e : Event) (p : nat) :
  wf v -> p < fresh v -> ~ valid p v ->
  p < fresh (AssetSelector.step v e) /\ ~ valid p (AssetSelector.step v e).
Proof.
  intros W Hp Hd. destruct (rebuilds e) eqn:He.
  - assert (forall v0, fresh v0 = fresh v ->
              p < fresh (_clear v0) /\ ~ valid p (_clear v0)) as Hclear.
    { intros v0 Hf. rewrite clear_eq. unfold valid. simpl. split; [lia|].
      intros Hv. apply lookup_singleton_is_Some in Hv. lia. }
    destruct e; simpl in *; try discriminate.
    + now apply Hclear.
    + unfold set_active_project, reload. now apply Hclear.
  - pose proof (step_one_step v e W He) as [_ F _ _ N _]. split; [lia|].
    intros Hv. destruct (N p Hv) as [Hv0|Hge]; [contradiction | lia].
Qed.

Lemma dead_run (es : list Event) (v : AssetTreeView) (p : nat) :
  wf v -> p < fresh v -> ~ valid p v ->
  ~ valid p (AssetSelector.run es v).
Proof.
  revert v. induction es as [|e es IH]; intros v W Hp Hd; [exact Hd|].
  simpl. destruct (dead_step v e p W Hp Hd) as [Hp' Hd'].
  apply IH; [now apply step_wf | assumption | assumption].
Qed.

(** X9 (AssetTreeView._append_asset_items, AssetTreeView.reload). Once the
    tree has been rebuilt by reload or set_active_project, the item a pending
    request was made for is gone for good, and the answer to that request,
    whenever it comes, changes nothing in the view. *)
Theorem answer_for_a_row_of_the_old_tree_is_dropped
  (project : Project) (es es' : list Event) (e : Event) (c : AccessorCall)
  (p : nat) (et : EntityType) (assets : list AssetInfo) :
  let v := AssetSelector.run es (new_view project) in
  let v' := AssetSelector.run es' (AssetSelector.step v e) in
  In c (sent v) -> callback_of c = AppendAssetItems p et -> rebuilds e = true ->
  isValid p v' = false /\
  call (callback_of c) (AssetList assets) v' = v'.
Proof.
  intros v v' Hin Hcb He.
  pose proof (run_wf es _ (new_view_wf project)) as W. fold v in W.
  destruct (wf_sent _ W c p et Hin Hcb) as [Hp _].
  assert (p < fresh (AssetSelector.step v e) /\ ~ valid p (AssetSelector.step v e))
    as [Hp1 Hd1].
  { destruct (classic_valid p v) as [Hv|Hd].
    - split; [|now apply rebuild_drops].
      destruct e; simpl in *; try discriminate;
        unfold set_active_project, reload; rewrite clear_eq; simpl; lia.
    - now apply dead_step. }
  assert (~ valid p v') as Hd.
  { apply dead_run; [now apply step_wf | assumption | assumption]. }
  apply isValid_false in Hd. split; [exact Hd|].
  rewrite Hcb. simpl. unfold _append_asset_items. now rewrite Hd.
Qed.

Lemma attached_alter (f : Item -> Item) (h : nat) (v : AssetTreeView) :
  (forall it, carries_asset it -> carries_asset (f it)) ->
  assets_attached v -> assets_attached (with_items (alter f h) v).
Proof.
  intros Hf H h' it Hit. simpl in Hit. rewrite lookup_alter in Hit.
  destruct (decide (h = h')) as [->|Hne].
  - destruct (items v !! h') as [it0|] eqn:E; [|discriminate]. simpl in Hit.
    inversion Hit; subst. apply Hf, (H h' it0 E).
  - apply (H h' it Hit).
Qed.

Lemma attached_set_data (a : AssetInfo) (x : nat) (v : AssetTreeView) :
  assets_attached_but x v ->
  assets_attached (with_items (alter (set_data (DataAsset a)) x) v).
Proof.
  intros H h it Hit. simpl in Hit. rewrite lookup_alter in Hit.
  destruct (decide (x = h)) as [->|Hne].
  - destruct (items v !! h) as [it0|]; [|discriminate]. simpl in Hit.
    inversion Hit; subst. intros _. exists a. reflexivity.
  - apply (H h it Hit). congruence.
Qed.

Lemma attached_find (k : string) (v : AssetTreeView) :
  items (snd (_find_item_by_key k v)) = items v.
Proof.
  unfold _find_item_by_key. destruct (_mapping v !! k) as [c|]; [|reflexivity].
  destruct (isValid c v); reflexivity.
Qed.

Lemma attached_same_items (v v' : AssetTreeView) :
  items v' = items v -> assets_attached v -> assets_attached v'.
Proof. intros Hi H h it. rewrite Hi. apply H. Qed.

(** _append_item leaves every row but the one it returns as it should be;
    that one too when it is made for an asset type. *)
Lemma attached_append_item (p : nat) (label : string) (et : EntityType)
  (key_arg : option string) (ex : bool) (v : AssetTreeView) :
  assets_attached v ->
  assets_attached_but (fst (_append_item p label et key_arg ex v))
    (snd (_append_item p label et key_arg ex v)) /\
  (et = AssetType -> assets_attached (snd (_append_item p label et key_arg ex v))).
Proof.
  intros H. unfold _append_item.
  match goal with
  | |- context [_find_item_by_key ?k v] =>
      pose proof (attached_find k v) as Hi;
      destruct (_find_item_by_key k v) as [found v1]
  end.
  simpl in Hi. destruct found as [c|]; simpl.
  - split.
    + intros h it Hit _. rewrite Hi in Hit. apply (H h it Hit).
    + intros _ h it Hit. rewrite Hi in Hit. apply (H h it Hit).
  - assert (Hold : forall h it,
              alter (appendRow (fresh v1))
                (if isValid p v then p else root v) (items v1) !! h = Some it ->
              carries_asset it).
    { intros h it Hit. rewrite lookup_alter, Hi in Hit.
      destruct (decide ((if isValid p v then p else root v) = h)) as [->|Hne].
      - destruct (items v !! h) as [it0|] eqn:E; [|discriminate]. simpl in Hit.
        inversion Hit; subst. exact (H h it0 E).
      - apply (H h it Hit). }
    split.
    + intros h it Hit Hne. simpl in Hit, Hne.
      rewrite lookup_insert_ne in Hit by congruence.
      apply (Hold h it Hit).
    + intros -> h it Hit. simpl in Hit. destruct (decide (fresh v1 = h)) as [<-|Hne].
      * rewrite lookup_insert_eq in Hit. inversion Hit; subst. intros Ht. discriminate.
      * rewrite lookup_insert_ne in Hit by exact Hne. apply (Hold h it Hit).
Qed.

Lemma attached_fold {A} (f : AssetTreeView -> A -> AssetTreeView) (l : list A)
  (v : AssetTreeView) :
  (forall v x, assets_attached v -> assets_attached (f v x)) ->
  assets_attached v -> assets_attached (fold_left f l v).
Proof.
  intros Hf. revert v. induction l as [|x l IH]; intros v H; simpl; [exact H|].
  apply IH, Hf, H.
Qed.

Lemma carries_set_loading (s : LoadingStates) (it : Item) :
  carries_asset it -> carries_asset (set_loading_state s it).
Proof. intros H. exact H. Qed.

Lemma carries_set_state (s : ItemState) (it : Item) :
  carries_asset it -> carries_asset (set_state s it).
Proof. intros H. exact H. Qed.

Lemma attached_call (cb : Callback) (a : Answer) (v : AssetTreeView) :
  assets_attached v -> assets_attached (call cb a v).
Proof.
  intros H. destruct cb as [|p et|]; destruct a as [l|l]; simpl; try exact H.
  - unfold _on_asset_types_loaded, _append_items.
    destruct (isValid (root v) v); [|exact H].
    apply (attached_same_items
             (with_items (alter (set_loading_state Loaded) (root v))
                (fold_left
                   (fun v0 label => snd (_append_item (root v) label AssetType None true v0))
                   l v))); [reflexivity|].
    apply attached_alter; [apply carries_set_loading|].
    apply attached_fold; [|exact H]. intros v0 x H0.
    now apply (attached_append_item (root v) x AssetType None true v0 H0).
  - unfold _append_asset_items. destruct (isValid p v); [|exact H].
    apply attached_alter; [apply carries_set_loading|].
    apply attached_fold; [|exact H]. intros v0 x H0.
    pose proof (attached_append_item p (name x) et None false v0 H0) as [Hb _].
    destruct (_append_item p (name x) et None false v0) as [item v1]. simpl in Hb.
    now apply attached_set_data.
  - unfold _append_asset_items_by_regex.
    match goal with
    | |- assets_attached (with_state Ready ?w) =>
        apply (attached_same_items w); [reflexivity|]
    end.
    apply attached_fold; [|exact H]. intros v0 x H0.
    pose proof (attached_find (project_id (_project v0) +:+ "|" +:+ type x) v0) as H1.
    destruct (_find_item_by_key (project_id (_project v0) +:+ "|" +:+ type x) v0)
      as [found v1]. simpl in H1.
    assert (assets_attached v1) as Hv1 by (now apply (attached_same_items v0)).
    assert (exists h v2, (match found with
                          | Some it => (it, v1)
                          | None => _append_item (root v0) (type x) AssetType None true v1
                          end) = (h, v2) /\ assets_attached v2) as (h & v2 & E2 & H2).
    { destruct found as [it|].
      - exists it, v1. auto.
      - pose proof (attached_append_item (root v0) (type x) AssetType None true v1 Hv1)
          as [_ Ha].
        destruct (_append_item (root v0) (type x) AssetType None true v1) as [h v2].
        exists h, v2. split; [reflexivity | now apply Ha]. }
    rewrite E2.
    pose proof (attached_find "{parent_key}|{asset_name}" v2) as H3.
    destruct (_find_item_by_key "{parent_key}|{asset_name}" v2) as [found3 v3].
    simpl in H3.
    assert (assets_attached v3) as Hv3 by (now apply (attached_same_items v2)).
    destruct found3 as [?|]; [exact Hv3|].
    pose proof (attached_append_item h (name x) AssetName None false v3 Hv3) as [Hb _].
    destruct (_append_item h (name x) AssetName None false v3) as [child v4].
    simpl in Hb. now apply attached_set_data.
Qed.

Lemma attached_load_children (h : nat) (v : AssetTreeView) :
  assets_attached v -> assets_attached (_load_children h v).
Proof.
  intros H. unfold _load_children.
  destruct (bool_decide (item_loading_state h v = Some NotLoaded)); [|exact H].
  assert (assets_attached (with_items (alter (set_loading_state InProgress) h) v)) as H1
    by (apply attached_alter; [apply carries_set_loading | exact H]).
  destruct (bool_decide (h = root (with_items (alter (set_loading_state InProgress) h) v))).
  { exact H1. }
  destruct (items (with_items (alter (set_loading_state InProgress) h) v) !! h)
    as [it|]; [|exact H1].
  destruct (entity_type it) as [[]|]; exact H1.
Qed.

Lemma attached_clear (v : AssetTreeView) : assets_attached (_clear v).
Proof.
  rewrite clear_eq. intros h it Hit. simpl in Hit.
  apply lookup_singleton_Some in Hit as [_ <-]. intros Ht. discriminate.
Qed.

Lemma attached_step (v : AssetTreeView) (e : Event) :
  assets_attached v -> assets_attached (AssetSelector.step v e).
Proof.
  intros H. destruct e as [item|item|item ex|i a| |project|regex]; simpl.
  - destruct (isValid item v); [|exact H]. unfold _on_expanded.
    apply attached_load_children, attached_alter; [apply carries_set_state | exact H].
  - destruct (isValid item v); [|exact H]. unfold _on_collapsed.
    apply attached_alter; [apply carries_set_state | exact H].
  - destruct (isValid item v); [|exact H]. unfold _on_clicked.
    destruct (items v !! item) as [it|]; [|exact H].
    destruct (expandable it) as [[]|]; try exact H.
    destruct ex; simpl.
    + unfold _on_collapsed. apply attached_alter; [apply carries_set_state | exact H].
    + unfold _on_expanded.
      apply attached_load_children, attached_alter; [apply carries_set_state|].
      now apply attached_load_children.
  - destruct (take_nth i (sent v)) as [[c rest]|]; [|exact H].
    apply attached_call. exact H.
  - apply attached_clear.
  - apply attached_clear.
  - unfold load_by_regex. destruct regex as [[|c s]|]; exact H.
Qed.

(** X17 (AssetTreeView._append_asset_items,
    AssetTreeView._append_asset_items_by_regex). In every state the view
    reaches, each asset row (an item whose entity type is AssetName) holds an
    AssetInfo in its DataRole, not the label _append_item puts there first:
    ItemModel.data and the dialog's click handler read its fields. *)
Theorem asset_rows_hold_their_asset_info
  (project : Project) (es : list Event) (h : nat) (it : Item) :
  let v := AssetSelector.run es (new_view project) in
  items v !! h = Some it -> entity_type it = Some AssetName ->
  exists a, data it = Some (DataAsset a).
Proof.
  intros v Hit. apply (fun H => H h it Hit). clear h it Hit. unfold v. clear v.
  assert (H : forall v, assets_attached v -> assets_attached (AssetSelector.run es v)).
  { induction es as [|e es IH]; intros v Hv; [exact Hv|].
    simpl. apply IH. now apply attached_step. }
  apply H. apply attached_clear.
Qed.

End TreeIndexFacts.

Section OrderFacts.
Import Proxy ProxyOrder.

Lemma ascii_compare_lt_trans (a b c : ascii) :
  Ascii.compare a b = Lt -> Ascii.compare b c = Lt -> Ascii.compare a c = Lt.
Proof.
  unfold Ascii.compare. rewrite !N.compare_lt_iff. lia.
Qed.

Lemma ascii_compare_eq (a b : ascii) : Ascii.compare a b = Eq -> a = b.
Proof.
  unfold Ascii.compare. intros H. apply N.compare_eq in H.
  rewrite <- (ascii_N_embedding a), <- (ascii_N_embedding b). now f_equal.
Qed.

Lemma string_compare_lt_trans (s t u : string) :
  String.compare s t = Lt -> String.compare t u = Lt -> String.compare s u = Lt.
Proof.
  revert t u. induction s as [|a s IH]; intros [|b t] [|c u]; simpl;
    try discriminate; try reflexivity.
  destruct (Ascii.compare a b) eqn:Eab; try discriminate.
  - apply ascii_compare_eq in Eab. subst b.
    destruct (Ascii.compare a c); try discriminate; [apply IH | reflexivity].
  - intros _. destruct (Ascii.compare b c) eqn:Ebc; try discriminate.
    + apply ascii_compare_eq in Ebc. subst c. now rewrite Eab.
    + intros _. now rewrite (ascii_compare_lt_trans a b c Eab Ebc).
Qed.

(** Both sides of a float comparison can be brought to any smaller exponent. *)
Lemma float_compare_scaled (m1 e1 m2 e2 e0 : Z) :
  (e0 <= e1)%Z -> (e0 <= e2)%Z ->
  float_compare (Finite m1 e1) (Finite m2 e2)
  = (m1 * 2 ^ (e1 - e0) ?= m2 * 2 ^ (e2 - e0))%Z.
Proof.
  intros H1 H2. simpl. set (e := Z.min e1 e2).
  assert (e0 <= e)%Z by (unfold e; lia).
  assert (e <= e1)%Z by (unfold e; lia).
  assert (e <= e2)%Z by (unfold e; lia).
  replace (e1 - e0)%Z with ((e1 - e) + (e - e0))%Z by lia.
  replace (e2 - e0)%Z with ((e2 - e) + (e - e0))%Z by lia.
  rewrite !Z.pow_add_r by lia. rewrite !Z.mul_assoc.
  assert (0 < 2 ^ (e - e0))%Z as Hp by (apply Z.pow_pos_nonneg; lia).
  generalize dependent (2 ^ (e - e0))%Z. intros p Hp.
  generalize (m1 * 2 ^ (e1 - e))%Z (m2 * 2 ^ (e2 - e))%Z. intros A B.
  destruct (Z.compare_spec A B) as [Heq|Hlt|Hgt]; symmetry.
  - apply Z.compare_eq_iff. now subst.
  - apply Z.compare_lt_iff. nia.
  - apply Z.compare_gt_iff. nia.
Qed.

Lemma float_compare_antisym (x y : PyFloat) :
  float_compare y x = CompOpp (float_compare x y).
Proof.
  destruct x as [m1 e1|], y as [m2 e2|]; simpl; try reflexivity.
  rewrite (Z.min_comm e2 e1). apply Z.compare_antisym.
Qed.

Lemma float_compare_eq_l (x y z : PyFloat) :
  float_compare x y = Eq -> float_compare x z = float_compare y z.
Proof.
  destruct x as [m1 e1|], y as [m2 e2|], z as [m3 e3|];
    try (simpl; intros; (discriminate || reflexivity)).
  set (e0 := Z.min (Z.min e1 e2) e3).
  rewrite (float_compare_scaled m1 e1 m2 e2 e0) by (unfold e0; lia).
  rewrite (float_compare_scaled m1 e1 m3 e3 e0) by (unfold e0; lia).
  rewrite (float_compare_scaled m2 e2 m3 e3 e0) by (unfold e0; lia).
  intros H. apply Z.compare_eq in H. now rewrite H.
Qed.

Lemma float_compare_lt_trans (x y z : PyFloat) :
  float_compare x y = Lt -> float_compare y z = Lt -> float_compare x z = Lt.
Proof.
  destruct x as [m1 e1|], y as [m2 e2|], z as [m3 e3|];
    try (simpl; intros; (discriminate || reflexivity)).
  set (e0 := Z.min (Z.min e1 e2) e3).
  rewrite (float_compare_scaled m1 e1 m2 e2 e0) by (unfold e0; lia).
  rewrite (float_compare_scaled m1 e1 m3 e3 e0) by (unfold e0; lia).
  rewrite (float_compare_scaled m2 e2 m3 e3 e0) by (unfold e0; lia).
  rewrite !Z.compare_lt_iff. lia.
Qed.

Lemma elem_cmp_antisym (x y : Elem) : elem_cmp y x = CompOpp (elem_cmp x y).
Proof.
  destruct x, y; simpl; try reflexivity.
  - apply String.compare_antisym.
  - apply float_compare_antisym.
Qed.

Lemma elem_cmp_eq_l (x y z : Elem) :
  elem_cmp x y = Eq -> elem_cmp x z = elem_cmp y z.
Proof.
  destruct x, y; simpl; try discriminate.
  - intros H. apply String.compare_eq_iff in H. now subst.
  - intros H. destruct z; [reflexivity|]. simpl. now apply float_compare_eq_l.
Qed.

Lemma elem_cmp_lt_trans (x y z : Elem) :
  elem_cmp x y = Lt -> elem_cmp y z = Lt -> elem_cmp x z = Lt.
Proof.
  destruct x, y, z; simpl; try discriminate; try reflexivity.
  - apply string_compare_lt_trans.
  - apply float_compare_lt_trans.
Qed.

Lemma tuple_cmp_antisym (a b : list Elem) : tuple_cmp b a = CompOpp (tuple_cmp a b).
Proof.
  revert b. induction a as [|x a IH]; intros [|y b]; simpl; try reflexivity.
  rewrite (elem_cmp_antisym x y). destruct (elem_cmp x y); simpl; auto.
Qed.

Lemma tuple_cmp_eq_l (a b c : list Elem) :
  tuple_cmp a b = Eq -> tuple_cmp a c = tuple_cmp b c.
Proof.
  revert b c. induction a as [|x a IH]; intros [|y b] c; simpl; try discriminate.
  - reflexivity.
  - destruct (elem_cmp x y) eqn:E; try discriminate. intros H.
    destruct c as [|z c]; [reflexivity|].
    rewrite (elem_cmp_eq_l x y z E). destruct (elem_cmp y z); auto.
Qed.

Lemma tuple_cmp_lt_trans (a b c : list Elem) :
  tuple_cmp a b = Lt -> tuple_cmp b c = Lt -> tuple_cmp a c = Lt.
Proof.
  revert b c. induction a as [|x a IH]; intros [|y b] [|z c]; simpl;
    try discriminate; try reflexivity.
  destruct (elem_cmp x y) eqn:Exy; try discriminate.
  - rewrite (elem_cmp_eq_l x y z Exy).
    destruct (elem_cmp y z); try discriminate; [apply IH | reflexivity].
  - intros _. destruct (elem_cmp y z) eqn:Eyz; try discriminate.
    + assert (elem_cmp z y = Eq) as Ezy by (rewrite elem_cmp_antisym, Eyz; reflexivity).
      pose proof (elem_cmp_eq_l z y x Ezy) as H.
      rewrite (elem_cmp_antisym x z), (elem_cmp_antisym x y), Exy in H.
      destruct (elem_cmp x z); simpl in H; try discriminate. reflexivity.
    + intros _. now rewrite (elem_cmp_lt_trans x y z Exy Eyz).
Qed.

Lemma tuple_cmp_refl (a : list Elem) : tuple_cmp a a = Eq.
Proof.
  pose proof (tuple_cmp_antisym a a) as H. destruct (tuple_cmp a a); simpl in H;
    congruence.
Qed.

Lemma tuple_cmp_le_trans (a b c : list Elem) :
  tuple_cmp a b <> Gt -> tuple_cmp b c <> Gt -> tuple_cmp a c <> Gt.
Proof.
  intros Hab Hbc.
  destruct (tuple_cmp a b) eqn:Eab; [| |contradiction].
  - now rewrite (tuple_cmp_eq_l a b c Eab).
  - destruct (tuple_cmp b c) eqn:Ebc; [| |contradiction].
    + assert (tuple_cmp c b = Eq) as Ecb by (rewrite tuple_cmp_antisym, Ebc; reflexivity).
      pose proof (tuple_cmp_eq_l c b a Ecb) as H.
      rewrite (tuple_cmp_antisym a c), (tuple_cmp_antisym a b), Eab in H.
      destruct (tuple_cmp a c); simpl in H; congruence.
    + now rewrite (tuple_cmp_lt_trans a b c Eab Ebc).
Qed.

Lemma elem_eq_cmp (x y : Elem) : elem_eq x y = true <-> elem_cmp x y = Eq.
Proof.
  destruct x as [s|a], y as [t|b]; simpl; try (split; discriminate).
  - rewrite String.eqb_eq. split.
    + intros ->. apply string_compare_refl.
    + apply String.compare_eq_iff.
  - destruct (float_compare a b); split; congruence.
Qed.

Lemma elem_gt_cmp (x y : Elem) (r : bool) :
  elem_gt x y = inr r -> r = is_gt (elem_cmp x y).
Proof.
  destruct x as [s|a], y as [t|b]; simpl; try discriminate.
  - intros [= <-]. unfold String.ltb. rewrite (String.compare_antisym s t).
    destruct (String.compare t s); reflexivity.
  - intros [= <-]. destruct (float_compare a b); reflexivity.
Qed.

(** What [>] answers on two tuples, when it answers. *)
Lemma tuple_gt_cmp (a b : list Elem) (r : bool) :
  tuple_gt a b = inr r -> r = is_gt (tuple_cmp a b).
Proof.
  revert b. induction a as [|x a IH]; intros [|y b]; simpl; try congruence.
  destruct (elem_eq x y) eqn:E.
  - apply elem_eq_cmp in E. rewrite E. apply IH.
  - intros H. apply elem_gt_cmp in H.
    destruct (elem_cmp x y) eqn:Ec; [|assumption|assumption].
    apply elem_eq_cmp in Ec. congruence.
Qed.

Lemma lessThan_cmp (a b : string) :
  lessThan a b = inr (is_gt (tuple_cmp (key_of a) (key_of b))).
Proof.
  unfold lessThan, key_of.
  destruct (human_key_total a) as (ka & Ha & Aa).
  destruct (human_key_total b) as (kb & Hb & Ab).
  rewrite Ha, Hb. destruct (tuple_gt_total ka kb 0 Aa Ab) as [r Hr].
  rewrite Hr. f_equal. now apply tuple_gt_cmp.
Qed.

Lemma lessThan_true (a b : string) :
  lessThan a b = inr true <-> tuple_cmp (key_of a) (key_of b) = Gt.
Proof.
  rewrite lessThan_cmp. destruct (tuple_cmp (key_of a) (key_of b)); simpl;
    split; congruence.
Qed.

Lemma lessThan_false (a b : string) :
  lessThan a b = inr false <-> tuple_cmp (key_of a) (key_of b) <> Gt.
Proof.
  rewrite lessThan_cmp. destruct (tuple_cmp (key_of a) (key_of b)); simpl;
    split; congruence.
Qed.

(** X10 (ProxyModel.lessThan). lessThan is a strict order on keys, which the
    proxy's sort relies on: when it puts a after b and b after c it puts a
    after c, it does not also put b after a, and no key comes after itself. *)
Theorem lessThan_is_a_strict_order (a b c : string) :
  lessThan a b = inr true -> lessThan b c = inr true ->
  lessThan a c = inr true /\ lessThan b a = inr false /\ lessThan a a = inr false.
Proof.
  rewrite !lessThan_true, !lessThan_false. intros Hab Hbc.
  assert (tuple_cmp (key_of b) (key_of a) = Lt) as Hba
    by (rewrite tuple_cmp_antisym, Hab; reflexivity).
  assert (tuple_cmp (key_of c) (key_of b) = Lt) as Hcb
    by (rewrite tuple_cmp_antisym, Hbc; reflexivity).
  split; [|split].
  - pose proof (tuple_cmp_lt_trans _ _ _ Hcb Hba) as H.
    rewrite (tuple_cmp_antisym (key_of c)), H. reflexivity.
  - rewrite Hba. discriminate.
  - rewrite tuple_cmp_refl. discriminate.
Qed.

Lemma insert_row_sorted (x : string) (sorted : list string) :
  exists l, insert_row (row_before lessThan view_sort_order) x sorted = inr l /\
            Permutation (x :: sorted) l /\
            (ascending sorted -> ascending l).
Proof.
  induction sorted as [|y rest IH]; simpl.
  { exists [x]. split; [reflexivity|]. split; [reflexivity|]. simpl. auto. }
  rewrite (lessThan_cmp x y).
  destruct (is_gt (tuple_cmp (key_of x) (key_of y))) eqn:E.
  - destruct IH as (l & Hl & Hp & Hs). rewrite Hl. exists (y :: l).
    split; [reflexivity|]. split.
    { rewrite <- Hp. apply perm_swap. }
    intros [Hy Hrest]. simpl. split; [|now apply Hs].
    rewrite <- Hp. constructor; [|assumption].
    apply lessThan_false. rewrite tuple_cmp_antisym.
    destruct (tuple_cmp (key_of x) (key_of y)); simpl in *; congruence.
  - exists (x :: y :: rest). split; [reflexivity|]. split; [reflexivity|].
    intros [Hy Hrest].
    assert (tuple_cmp (key_of x) (key_of y) <> Gt) as Hxy
      by (destruct (tuple_cmp (key_of x) (key_of y)); simpl in *; congruence).
    split; [|split; assumption].
    constructor; [now apply lessThan_false|].
    eapply List.Forall_impl; [|exact Hy]. simpl. intros r Hr.
    apply lessThan_false. apply lessThan_false in Hr.
    now apply (tuple_cmp_le_trans _ (key_of y)).
Qed.

(** X11 (ProxyModel.lessThan, AssetTreeView.__init__). Whatever the keys of
    sibling rows are, sorting them raises nothing, the view shows every row
    once, and the rows go up the natural order from the top: lessThan, which
    is [>] on the keys, is false of every row and a row shown below it. *)
Theorem displayed_rows_are_all_there_in_ascending_order (keys : list string) :
  exists shown,
    displayed keys = inr shown /\ Permutation keys shown /\ ascending shown.
Proof.
  unfold displayed. induction keys as [|x rest IH]; simpl.
  { exists []. split; [reflexivity|]. split; [reflexivity | exact I]. }
  destruct IH as (sorted & Hs & Hp & Ha). rewrite Hs.
  destruct (insert_row_sorted x sorted) as (l & Hl & Hpl & Hal).
  exists l. split; [exact Hl|]. split; [|now apply Hal].
  rewrite <- Hpl. now constructor.
Qed.

Lemma match_number_none (c : ascii) (s : string) :
  match_number (String c s) = None -> is_digit c = false.
Proof.
  unfold match_number. simpl. destruct (is_digit c) eqn:E; [|reflexivity].
  destruct (span_digits s) as [d r].
  destruct r as [|c' r2]; [discriminate|].
  destruct (Ascii.eqb_spec c' "."%char) as [->|Hne].
  - destruct (span_digits r2) as [d2 r3]. destruct d2; discriminate.
  - destruct c' as [[] [] [] [] [] [] [] []]; try discriminate. contradiction.
Qed.

Lemma texts_cons_head (c : ascii) (l : list string) :
  is_digit c = false ->
  Forall (fun t => has_digit t = false) (texts l) ->
  Forall (fun t => has_digit t = false) (texts (cons_head c l)).
Proof.
  intros Hc Hl. destruct l as [|t rest]; simpl.
  - constructor; [simpl; now rewrite Hc | constructor].
  - simpl in Hl. inversion Hl as [|? ? Ht Hrest]; subst.
    constructor; [simpl; now rewrite Hc, Ht | assumption].
Qed.

Lemma re_split_fuel_texts (fuel : nat) (s : string) :
  String.length s < fuel ->
  Forall (fun t => has_digit t = false) (texts (re_split_fuel fuel s)).
Proof.
  revert s. induction fuel as [|fuel IH]; intros s H; [lia|]. simpl.
  destruct (match_number s) as [[m rest]|] eqn:E.
  - destruct (match_number_spec _ _ _ E) as (Hs & Hm & _).
    assert (String.length s = String.length m + String.length rest) as Hlen
      by (rewrite <- length_append; now f_equal).
    constructor; [reflexivity|]. apply IH. lia.
  - destruct s as [|c s]; [repeat constructor|].
    apply texts_cons_head; [exact (match_number_none _ _ E)|].
    apply IH. simpl in H. lia.
Qed.

(** X12 (ProxyModel._human_key). The text pieces of a key, which are compared
    as strings, hold no digit: every digit of a key is part of a number and
    is compared by value. *)
Theorem text_pieces_hold_no_digit (key : string) :
  Forall (fun t => has_digit t = false) (texts (re_split key)).
Proof. unfold re_split. apply re_split_fuel_texts. lia. Qed.

End OrderFacts.

Section FilterEdge.
Import Proxy.
Variable indexIn : string -> string -> Z.

Lemma empty_pattern_accepts (r : Row) : filterRecursiveAcceptsRow indexIn "" r = true.
Proof. destruct r as [k l]. reflexivity. Qed.

(** X13 (ProxyModel.filterAcceptsRow). With an empty filter pattern the proxy
    shows every row of the tree, whatever the matcher makes of the keys. *)
Theorem empty_filter_shows_every_row (top : list Row) (path : list nat) (r : Row) :
  row_at top path = Some r -> visible indexIn "" top path = true.
Proof.
  revert top. induction path as [|i path IH]; intros top H; [reflexivity|].
  cbn [row_at] in H. cbn [visible].
  destruct (nth_error top i) as [r0|]; [|discriminate].
  rewrite empty_pattern_accepts. simpl.
  destruct path as [|j path]; [reflexivity|]. now apply IH.
Qed.

End FilterEdge.

Section ItemIconFacts.
Import DataModels Icons ItemIcons.

Lemma icon_for_state_step (it : Item) (c : Call) :
  (forall ic, _icons it !! _state it = Some ic -> icon it = Some ic) ->
  forall ic, _icons (ItemIcons.step it c) !! _state (ItemIcons.step it c) = Some ic ->
             icon (ItemIcons.step it c) = Some ic.
Proof.
  intros H ic. destruct c as [ic' state|state]; simpl.
  - unfold setIcon. set (s := match state with None => Normal | Some s => s end).
    simpl. destruct (bool_decide (s = _state it)) eqn:E; simpl.
    + apply bool_decide_eq_true in E. rewrite <- E, lookup_insert_eq. auto.
    + apply bool_decide_eq_false in E. rewrite lookup_insert_ne by exact E. apply H.
  - unfold set_state. destruct (bool_decide (state = _state it)); [apply H|]. simpl.
    destruct (_icons it !! state) as [ic'|] eqn:E; simpl; rewrite E; congruence.
Qed.

(** X14 (Item.setIcon, Item.set_state). After any calls of setIcon and
    set_state on a new Item, if an icon is registered for the state the item
    is in, it is the icon the item shows. *)
Theorem item_shows_the_icon_of_its_state (calls : list Call) (ic : QIcon) :
  let it := ItemIcons.run calls new_item in
  _icons it !! _state it = Some ic -> icon it = Some ic.
Proof.
  assert (H : forall it,
            (forall ic, _icons it !! _state it = Some ic -> icon it = Some ic) ->
            forall ic, _icons (ItemIcons.run calls it) !! _state (ItemIcons.run calls it)
                       = Some ic ->
                       icon (ItemIcons.run calls it) = Some ic).
  { induction calls as [|c calls IH]; intros it Hit; [exact Hit|].
    simpl. apply IH. now apply icon_for_state_step. }
  simpl. apply H. intros ic' Hic. simpl in Hic. rewrite lookup_empty in Hic. discriminate.
Qed.

End ItemIconFacts.

Section LibraryProofs.
Import DataModels AssetLibrary LibraryFacts.

Lemma take_nth_other {A} (i : nat) (l : list A) (x y : A) (rest : list A) :
  take_nth i l = Some (x, rest) -> In y l -> y <> x -> In y rest.
Proof.
  revert i x rest. induction l as [|a l IH]; intros i x rest H Hin Hne; simpl in H.
  - discriminate.
  - destruct i as [|i].
    + inversion H; subst. destruct Hin as [->|Hin]; [contradiction | assumption].
    + destruct (take_nth i l) as [[z r]|] eqn:E; [|discriminate].
      inversion H; subst. destruct Hin as [->|Hin]; [now left|].
      right. now apply (IH i x r).
Qed.

Lemma set_details_same (x : nat) (d : option AssetDetails) (f : nat -> AssetInfo) :
  details (set_details x d f x) = d.
Proof. unfold set_details. now rewrite Nat.eqb_refl. Qed.

Lemma set_details_other (x y : nat) (d : option AssetDetails) (f : nat -> AssetInfo) :
  y <> x -> set_details x d f y = f y.
Proof. intros H. unfold set_details. apply Nat.eqb_neq in H. now rewrite H. Qed.

Lemma consistent_new (assets0 : nat -> AssetInfo) : consistent (new_library assets0).
Proof. split; simpl; try discriminate; reflexivity. Qed.

Lemma consistent_clicked (item : Clicked) (w : AssetLibraryWidget) :
  consistent w -> consistent (_on_item_clicked item w).
Proof.
  intros [Hr Hl Ho Hg]. destruct w as [f cur [st sh g o] snt].
  unfold overlay_on_screen in *. simpl in *.
  assert (forall x, In x (snt ++ [x])) as Hlast
    by (intros x; apply in_or_app; right; now left).
  destruct item as [x|]; simpl.
  - destruct (details (f x)) as [d|] eqn:Ed; simpl;
      unfold set_state, overlay_on_screen; simpl.
    + destruct st; simpl; split; simpl; intros; try discriminate; eauto.
    + destruct st; simpl; split; simpl; intros; try discriminate; eauto.
      split; [now apply Hl | eauto].
  - unfold set_state, overlay_on_screen. simpl.
    destruct st; simpl; split; simpl; intros; try discriminate; eauto;
      try (match goal with
           | H : overlay_on_screen _ = true |- _ =>
               unfold overlay_on_screen in H; simpl in H;
               rewrite andb_false_r in H; discriminate
           end).
Qed.

Lemma consistent_received (x : nat) (d : option AssetDetails) (i : nat)
  (w : AssetLibraryWidget) (rest : list nat) :
  consistent w -> take_nth i (sent w) = Some (x, rest) ->
  consistent (_on_asset_details_received x d
                (mkLibrary (assets w) (_current_asset_info w) (_asset_details w) rest)).
Proof.
  intros [Hr Hl Ho Hg] Ht. destruct w as [f cur [st sh g o] snt].
  unfold overlay_on_screen in *. simpl in *.
  unfold _on_asset_details_received. simpl.
  destruct cur as [c|]; simpl.
  2:{ split; simpl; auto.
      - intros Hst. destruct (Hr Hst) as (c & ? & Hc & _). discriminate.
      - intros Hst. destruct (Hl Hst) as (_ & c & Hc & _). discriminate. }
  destruct (bool_decide (set_details x d f c <> set_details x d f x)) eqn:E; simpl.
  - apply bool_decide_eq_true in E.
    assert (c <> x) as Hne by (intros ->; now apply E).
    split; simpl; auto.
    + intros Hst. destruct (Hr Hst) as (c' & d' & Hc & Hd & Hs).
      inversion Hc; subst c'. exists c, d'.
      rewrite set_details_other by exact Hne. auto.
    + intros Hst. destruct (Hl Hst) as (Hs & c' & Hc & Hin).
      inversion Hc; subst c'. split; [exact Hs|]. exists c. split; [reflexivity|].
      now apply (take_nth_other i snt x c rest).
  - apply bool_decide_eq_false in E. apply dec_stable in E.
    assert (details (set_details x d f c) = d) as Hd
      by (rewrite E; apply set_details_same).
    destruct d as [d|]; simpl; unfold set_state, overlay_on_screen; simpl.
    + destruct st; simpl; split; simpl; intros; try discriminate; eauto.
    + destruct st; simpl; split; simpl; intros; try discriminate; eauto;
        try (match goal with
           | H : overlay_on_screen _ = true |- _ =>
               unfold overlay_on_screen in H; simpl in H;
               rewrite andb_false_r in H; discriminate
           end).
Qed.

Lemma consistent_step (w : AssetLibraryWidget) (e : Event) :
  consistent w -> consistent (AssetLibrary.step w e).
Proof.
  intros H. destruct e as [item|i d]; simpl.
  - now apply consistent_clicked.
  - destruct (take_nth i (sent w)) as [[x rest]|] eqn:E; [|exact H].
    now apply (consistent_received x d i).
Qed.

Lemma consistent_run (es : list Event) (w : AssetLibraryWidget) :
  consistent w -> consistent (AssetLibrary.run es w).
Proof.
  revert w. induction es as [|e es IH]; intros w H; [exact H|].
  simpl. apply IH. now apply consistent_step.
Qed.

(** X15 (AssetLibraryWidget._on_item_clicked, AssetDetailsWidget.reload).
    Whatever rows are clicked and in whatever order the accessor answers,
    when the details widget is in the Ready state its labels and preview show
    the details of the asset row clicked last, as that asset now has them:
    an answer for an asset clicked earlier does not replace them. (A click on
    a row that is no asset empties the widget but leaves the asset clicked
    last as it is.) *)
Theorem details_shown_are_those_of_the_asset_clicked_last
  (assets0 : nat -> AssetInfo) (es : list Event) :
  let w := AssetLibrary.run es (new_library assets0) in
  _state (_asset_details w) = Ready ->
  exists current d,
    _current_asset_info w = Some current /\
    details (assets w current) = Some d /\
    shown (_asset_details w) = Some d.
Proof.
  intros w. apply (c_ready w). apply consistent_run, consistent_new.
Qed.

(** X16 (AssetLibraryWidget._on_item_clicked, AssetDetailsWidget.state). The
    loading overlay of the details widget is on the screen only while the
    widget is in the Loading state with its labels and preview clear, and a
    request for the details of the asset row clicked last is with the
    accessor, unanswered. *)
Theorem loading_overlay_is_up_only_while_details_are_requested
  (assets0 : nat -> AssetInfo) (es : list Event) :
  let w := AssetLibrary.run es (new_library assets0) in
  overlay_on_screen (_asset_details w) = true ->
  _state (_asset_details w) = Loading /\
  shown (_asset_details w) = None /\
  exists current, _current_asset_info w = Some current /\ In current (sent w).
Proof.
  intros w Hov.
  pose proof (consistent_run es _ (consistent_new assets0)) as [Hr Hl Ho Hg].
  fold w in Hr, Hl, Ho, Hg. specialize (Ho Hov). split; [exact Ho|]. now apply Hl.
Qed.

End LibraryProofs.

Section TreeStartFacts.
Import DataModels AssetSelector TreeIndex TreeStart.

Lemma append_inj_l (s a b : string) : s +:+ a = s +:+ b -> a = b.
Proof.
  induction s as [|c s IH]; [auto|]. rewrite !append_cons. intros [= H]. now apply IH.
Qed.

Lemma type_key_inj (project : Project) (a b : string) :
  project_id project +:+ "|" +:+ a = project_id project +:+ "|" +:+ b -> a = b.
Proof.
  intros H. apply append_inj_l in H. rewrite !append_cons in H.
  injection H as H. exact H.
Qed.

Lemma filled_append (project : Project) (done : list string) (x : string)
  (v : AssetTreeView) :
  filled project done v -> ~ In x done ->
  filled project (done ++ [x]) (snd (_append_item 0 x AssetType None true v)).
Proof.
  intros [Hr Hp Hf Hi Hrows Hm Hst Hs] Hx. unfold _append_item.
  assert (isValid 0 v = true) as Hv by (now apply isValid_alive with (loading_root (length done))).
  rewrite Hv, Hi. simpl. rewrite Hp.
  unfold _find_item_by_key.
  destruct (_mapping v !! (project_id project +:+ "|" +:+ x)) as [c|] eqn:Em.
  { exfalso. destruct (Hm _ _ Em) as (label & Hin & Hk).
    apply type_key_inj in Hk. subst. contradiction. }
  simpl. rewrite Hf. split; simpl.
  - exact Hr.
  - exact Hp.
  - rewrite length_app. simpl. lia.
  - rewrite lookup_insert_ne by lia. rewrite lookup_alter_eq, Hi. simpl.
    unfold loading_root, appendRow. simpl. rewrite length_app. simpl.
    rewrite Nat.add_1_r, seq_S. reflexivity.
  - intros i label Hl. destruct (decide (i = length done)) as [->|Hne].
    + rewrite lookup_insert_eq.
      rewrite lookup_app_r in Hl by lia. rewrite Nat.sub_diag in Hl. simpl in Hl.
      inversion Hl; subst. reflexivity.
    + assert (i < length done) as Hlt.
      { apply lookup_lt_Some in Hl. rewrite length_app in Hl. simpl in Hl. lia. }
      rewrite lookup_app_l in Hl by exact Hlt.
      rewrite lookup_insert_ne by lia. rewrite lookup_alter_ne by lia.
      now apply Hrows.
  - intros k h Hk. destruct (decide (k = project_id project +:+ "|" +:+ x)) as [->|Hne].
    + exists x. split; [apply in_or_app; right; now left | reflexivity].
    + rewrite lookup_insert_ne in Hk by congruence.
      destruct (Hm k h Hk) as (label & Hin & Hkl).
      exists label. split; [apply in_or_app; now left | exact Hkl].
  - exact Hst.
  - exact Hs.
Qed.

Lemma filled_fold (project : Project) (rest done : list string) (v : AssetTreeView) :
  filled project done v -> List.NoDup (done ++ rest) ->
  filled project (done ++ rest)
    (fold_left (fun v label => snd (_append_item 0 label AssetType None true v)) rest v).
Proof.
  revert done v. induction rest as [|x rest IH]; intros done v Hf Hn; simpl.
  { now rewrite app_nil_r. }
  replace (done ++ x :: rest) with ((done ++ [x]) ++ rest) in *
    by (now rewrite <- app_assoc).
  apply IH; [|exact Hn]. apply filled_append; [exact Hf|].
  rewrite <- app_assoc in Hn. simpl in Hn.
  apply List.NoDup_remove_2 in Hn. intros Hin. apply Hn. apply in_or_app. now left.
Qed.

Lemma rows_of_filled (project : Project) (m : gmap nat Item) (l : list string) (b : nat) :
  (forall i label, l !! i = Some label -> m !! (b + i) = Some (type_row project label)) ->
  omap (fun c => m !! c) (seq b (length l)) = map (type_row project) l.
Proof.
  revert b. induction l as [|x l IH]; intros b H; [reflexivity|].
  simpl. rewrite <- (Nat.add_0_r b) at 1. rewrite (H 0 x eq_refl).
  f_equal. apply IH. intros i label Hl.
  replace (S b + i) with (b + S i) by lia. now apply H.
Qed.

(** X18 (AssetTreeView._load_children, AssetTreeView._append_items). When the
    accessor answers the request a new view sends with asset types that are
    all different, the rows of the root are one expandable AssetType row for
    each type, in the order of the answer, none of them loaded; the root is
    Loaded, the view is Ready and no request is left. *)
Theorem asset_types_become_the_rows_of_the_root
  (project : Project) (asset_types : list string) :
  List.NoDup asset_types ->
  let v := AssetSelector.step (new_view project) (Answered 0 (Labels asset_types)) in
  row_items (root v) v = map (type_row project) asset_types /\
  item_loading_state (root v) v = Some Loaded /\
  state v = Ready /\
  sent v = [].
Proof.
  intros Hn. unfold new_view. rewrite clear_eq. simpl.
  unfold _on_asset_types_loaded, _append_items. simpl.
  set (v0 := mkView project
               {[0 := mkItem "" None None None (Some InProgress) None Normal []]}
               0 1 ∅ Loading "" []).
  assert (isValid 0 v0 = true) as Hv.
  { apply isValid_alive with (mkItem "" None None None (Some InProgress) None Normal []).
    apply lookup_singleton_eq. }
  rewrite Hv.
  assert (filled project [] v0) as H0.
  { split; simpl;
      first [ reflexivity
            | apply lookup_singleton_eq
            | intros i label Hl; discriminate
            | intros k h Hk; rewrite lookup_empty in Hk; discriminate ]. }
  pose proof (filled_fold project asset_types [] v0 H0 Hn) as H. simpl in H.
  destruct H as [Hr Hp Hf Hi Hrows Hm Hst Hs].
  set (v1 := fold_left (fun v label => snd (_append_item 0 label AssetType None true v))
               asset_types v0) in *.
  unfold row_items, item_loading_state. simpl. rewrite Hr.
  rewrite lookup_alter_eq, Hi. simpl.
  split; [|split; [reflexivity | split; [reflexivity | exact Hs]]].
  apply rows_of_filled. intros i label Hl. simpl.
  rewrite lookup_alter_ne by lia. now apply Hrows.
Qed.

End TreeStartFacts.

Section TreeLoaderFacts.
Import DataModels AssetSelector TreeIndex TreeLoader.

Lemma state_find (k : string) (v : AssetTreeView) :
  state (snd (_find_item_by_key k v)) = state v.
Proof.
  unfold _find_item_by_key. destruct (_mapping v !! k) as [c|]; [|reflexivity].
  destruct (isValid c v); reflexivity.
Qed.

Lemma state_append_item (p : nat) (label : string) (et : EntityType)
  (key_arg : option string) (ex : bool) (v : AssetTreeView) :
  state (snd (_append_item p label et key_arg ex v)) = state v.
Proof.
  unfold _append_item.
  match goal with
  | |- context [_find_item_by_key ?k v] =>
      pose proof (state_find k v) as H; destruct (_find_item_by_key k v) as [found v1]
  end.
  simpl in H. destruct found; simpl; exact H.
Qed.

Lemma state_fold {A} (f : AssetTreeView -> A -> AssetTreeView) (l : list A)
  (v : AssetTreeView) :
  (forall v x, state (f v x) = state v) -> state (fold_left f l v) = state v.
Proof.
  intros Hf. revert v. induction l as [|x l IH]; intros v; simpl; [reflexivity|].
  now rewrite IH, Hf.
Qed.

Lemma state_append_asset_items (p : nat) (et : EntityType) (l : list AssetInfo)
  (v : AssetTreeView) :
  state (_append_asset_items p et l v) = state v.
Proof.
  unfold _append_asset_items. destruct (isValid p v); [|reflexivity]. simpl.
  apply state_fold. intros v0 x.
  pose proof (state_append_item p (name x) et None false v0) as H.
  destruct (_append_item p (name x) et None false v0) as [item v1]. exact H.
Qed.

Lemma state_load_children (h : nat) (v : AssetTreeView) :
  state (_load_children h v) = state v.
Proof.
  unfold _load_children.
  destruct (bool_decide (item_loading_state h v = Some NotLoaded)); [|reflexivity].
  destruct (bool_decide (h = root (with_items (alter (set_loading_state InProgress) h) v)));
    [reflexivity|].
  destruct (items (with_items (alter (set_loading_state InProgress) h) v) !! h)
    as [it|]; [|reflexivity].
  destruct (entity_type it) as [[]|]; reflexivity.
Qed.

Lemma sent_kept_load_children (h : nat) (v : AssetTreeView) (c : AccessorCall) :
  In c (sent v) -> In c (sent (_load_children h v)).
Proof.
  intros Hin. destruct (sent_load_children h v) as [Hs|(_ & c' & Hs & _)]; rewrite Hs.
  - exact Hin.
  - apply in_or_app. now left.
Qed.

Lemma cause_kept (v v' : AssetTreeView) :
  state v' = state v -> (forall c, In c (sent v) -> In c (sent v')) ->
  loading_has_cause v -> loading_has_cause v'.
Proof.
  intros Hst Hs H Hl. rewrite Hst in Hl. destruct (H Hl) as (c & Hin & Hc).
  exists c. split; [now apply Hs | exact Hc].
Qed.

Lemma cause_clear (v : AssetTreeView) : loading_has_cause (_clear v).
Proof.
  rewrite clear_eq. intros _. exists (RequestAssetTypes OnAssetTypesLoaded). simpl.
  split; [apply in_or_app; right; now left | reflexivity].
Qed.

Lemma cause_step (v : AssetTreeView) (e : Event) :
  match e with
  | Answered i a =>
      match take_nth i (sent v) with
      | Some (c, _) => fits (callback_of c) a = true
      | None => True
      end
  | _ => True
  end ->
  loading_has_cause v -> loading_has_cause (AssetSelector.step v e).
Proof.
  intros Hfit H. destruct e as [item|item|item ex|i a| |project|regex]; simpl.
  - destruct (isValid item v); [|exact H]. unfold _on_expanded.
    apply (cause_kept v); [| |exact H].
    + now rewrite state_load_children.
    + intros c Hin. now apply sent_kept_load_children.
  - destruct (isValid item v); [|exact H]. exact H.
  - destruct (isValid item v); [|exact H]. unfold _on_clicked.
    destruct (items v !! item) as [it|]; [|exact H].
    destruct (expandable it) as [[]|]; try exact H.
    destruct ex; simpl; [exact H|]. unfold _on_expanded.
    apply (cause_kept v); [| |exact H].
    + rewrite state_load_children. simpl. now rewrite state_load_children.
    + intros c Hin. apply sent_kept_load_children.
      change (In c (sent (_load_children item v))). now apply sent_kept_load_children.
  - destruct (take_nth i (sent v)) as [[c rest]|] eqn:Et; [|exact H].
    destruct (callback_of c) as [|p et|] eqn:Ecb; destruct a as [l|l];
      simpl in Hfit; try discriminate; simpl.
    intros Hl. rewrite state_append_asset_items in Hl. simpl in Hl.
    destruct (H Hl) as (c' & Hin & Hc').
    exists c'. split; [|exact Hc'].
    rewrite sent_call_assets. simpl.
    apply (take_nth_other i (sent v) c c' rest Et Hin).
    intros ->. unfold ends_loading in Hc'. rewrite Ecb in Hc'. discriminate.
  - apply cause_clear.
  - apply cause_clear.
  - unfold load_by_regex. destruct regex as [[|c s]|]; simpl.
    + intros Hl. discriminate.
    + intros _. eexists. split; [apply in_or_app; right; now left | reflexivity].
    + intros Hl. discriminate.
Qed.

(** X19 (AssetTreeView.state, AssetTreeView._load_children,
    AssetTreeView.load_by_regex). While the view is in the Loading state, in
    which it paints its loader in place of the tree, a request for the asset
    types or for the assets matching the filter is with the accessor,
    unanswered; the answer to either puts the view back to Ready. Answers are
    taken to be of the type their callback expects. *)
Theorem view_is_loading_only_while_a_request_is_out
  (project : Project) (es : list Event) :
  answers_fit es (new_view project) ->
  let v := AssetSelector.run es (new_view project) in
  state v = Loading ->
  exists c, In c (sent v) /\
            (callback_of c = OnAssetTypesLoaded \/
             callback_of c = AppendAssetItemsByRegex).
Proof.
  intros Hfit v Hl.
  assert (H : forall v0, answers_fit es v0 -> loading_has_cause v0 ->
            loading_has_cause (AssetSelector.run es v0)).
  { clear. induction es as [|e es IH]; intros v0 Hf Hc; [exact Hc|].
    destruct Hf as [He Hf]. simpl. apply IH; [exact Hf|]. now apply cause_step. }
  destruct (H _ Hfit (cause_clear _) Hl) as (c & Hin & Hc).
  exists c. split; [exact Hin|].
  unfold ends_loading in Hc. destruct (callback_of c); auto. discriminate.
Qed.

End TreeLoaderFacts.

Section MoreWitnesses.
Import DataModels Icons IconCache AssetSelector TreeIndex Proxy ProxyOrder Examples.

Lemma later_requests_witness :
  List.NoDup (map (fun r : nat * AssetInfo => id (snd r))
                [(1, chair); (2, mkAssetInfo (IdInt 18) "Prop" "table" None None)]) /\
  _queue (manager (Icons.run
                     (requests_of
                        [(1, chair); (2, mkAssetInfo (IdInt 18) "Prop" "table" None None)])
                     start))
  = [mkAssetInfo (IdInt 18) "Prop" "table" None None; chair].
Proof.
  assert (List.NoDup (map (fun r : nat * AssetInfo => id (snd r))
                        [(1, chair); (2, mkAssetInfo (IdInt 18) "Prop" "table" None None)]))
    as Hn.
  { simpl. constructor; [intros [H|[]]; discriminate|].
    constructor; [intros []|constructor]. }
  split; [exact Hn|].
  destruct (later_requests_are_queued_in_front (@start nat)
              [(1, chair); (2, mkAssetInfo (IdInt 18) "Prop" "table" None None)] Hn)
    as [Hq _]; [|exact Hq].
  repeat constructor.
Defined.


Lemma load_after_clear_cache_witness :
  signals (Icons.run [RequestIcon 1 chair; LoaderTakes; LoaderDone 0 (inr thumb)] start)
  = [(chair, thumb)] /\
  notified (Icons.run [ClearCache; SlotRuns]
              (Icons.run [RequestIcon 1 chair; LoaderTakes; LoaderDone 0 (inr thumb)]
                 start))
  = @nil (nat * QIcon).
Proof.
  split; [reflexivity|].
  destruct (load_finishing_after_clear_cache_notifies_nobody
              (Icons.run [RequestIcon 1 chair; LoaderTakes; LoaderDone 0 (inr thumb)]
                 (@start nat))
              chair thumb [] eq_refl) as [Hn _].
  rewrite Hn. reflexivity.
Defined.

Lemma cached_icon_witness :
  no_clear [RequestIcon 1 chair; LoaderTakes; LoaderDone 0 (inr thumb); SlotRuns] = true /\
  no_clear [RequestIcon 2 chair_again; @LoaderTakes nat] = true /\
  _loaded_icons
    (manager (Icons.run [RequestIcon 1 chair; LoaderTakes; LoaderDone 0 (inr thumb);
                         SlotRuns] start)) !! IdInt 17 = Some (mkIcon thumb) /\
  count_fetched (IdInt 17)
    (Icons.run [RequestIcon 2 chair_again; LoaderTakes]
       (Icons.run [RequestIcon 1 chair; LoaderTakes; LoaderDone 0 (inr thumb); SlotRuns]
          start)) = 1.
Proof.
  split; [reflexivity|]. split; [reflexivity|]. split; [reflexivity|].
  destruct (cached_icon_is_fetched_once_and_kept
              [RequestIcon 1 chair; LoaderTakes; LoaderDone 0 (inr thumb); SlotRuns]
              [RequestIcon 2 chair_again; @LoaderTakes nat] (IdInt 17) (mkIcon thumb)
              eq_refl eq_refl eq_refl) as (_ & _ & _ & _ & Hf).
  exact Hf.
Defined.

Lemma append_item_again_witness :
  bounded (new_view (mkProject "7")) /\
  0 < fresh (new_view (mkProject "7")) /\
  root (new_view (mkProject "7")) < fresh (new_view (mkProject "7")) /\
  fst (_append_item 0 "Prop" AssetName None false
         (snd (_append_item 0 "Prop" AssetType None true (new_view (mkProject "7")))))
  = 1.
Proof.
  assert (bounded (new_view (mkProject "7"))) as Hb
    by exact (wf_bounded _ (new_view_wf (mkProject "7"))).
  assert (0 < fresh (new_view (mkProject "7"))) as H0 by (vm_compute; lia).
  assert (root (new_view (mkProject "7")) < fresh (new_view (mkProject "7"))) as Hr
    by (vm_compute; lia).
  split; [exact Hb|]. split; [exact H0|]. split; [exact Hr|].
  rewrite (append_item_again_returns_the_same_item 0 "Prop" AssetType AssetName None
             true false (new_view (mkProject "7")) Hb H0 Hr).
  reflexivity.
Defined.

Lemma live_rows_witness :
  items (AssetSelector.run two_types (new_view (mkProject "7"))) !! 1
  = Some (type_row (mkProject "7") "Prop") /\
  fst (_find_item_by_key "7|Prop" (AssetSelector.run two_types (new_view (mkProject "7"))))
  = Some 1.
Proof.
  assert (items (AssetSelector.run two_types (new_view (mkProject "7"))) !! 1
          = Some (type_row (mkProject "7") "Prop")) as Hi by (vm_compute; reflexivity).
  split; [exact Hi|].
  destruct (live_rows_are_found_by_key_and_unique (mkProject "7") two_types 1 1
              (type_row (mkProject "7") "Prop") (type_row (mkProject "7") "Prop")
              "7|Prop" Hi eq_refl) as [Hf _].
  rewrite Hf. reflexivity.
Defined.

Lemma loading_state_known_witness :
  isValid 1 (AssetSelector.run two_types (new_view (mkProject "7"))) = true /\
  item_loading_state 1 (AssetSelector.run two_types (new_view (mkProject "7")))
  <> Some ToLoad.
Proof.
  assert (isValid 1 (AssetSelector.run two_types (new_view (mkProject "7"))) = true)
    as Hv by (vm_compute; reflexivity).
  split; [exact Hv|].
  destruct (loading_state_is_never_toload (mkProject "7") two_types 1 Hv) as (_ & H & _).
  exact H.
Defined.

Lemma answer_for_old_tree_witness :
  In (RequestAssets "Prop" (AppendAssetItems 1 AssetName))
    (sent (AssetSelector.run (two_types ++ [ItemExpanded 1]) (new_view (mkProject "7")))) /\
  rebuilds Reloaded = true /\
  isValid 1
    (AssetSelector.run []
       (AssetSelector.step
          (AssetSelector.run (two_types ++ [ItemExpanded 1]) (new_view (mkProject "7")))
          Reloaded)) = false.
Proof.
  assert (In (RequestAssets "Prop" (AppendAssetItems 1 AssetName))
            (sent (AssetSelector.run (two_types ++ [ItemExpanded 1])
                     (new_view (mkProject "7"))))) as Hin
    by (vm_compute; left; reflexivity).
  split; [exact Hin|]. split; [reflexivity|].
  destruct (answer_for_a_row_of_the_old_tree_is_dropped (mkProject "7")
              (two_types ++ [ItemExpanded 1]) [] Reloaded
              (RequestAssets "Prop" (AppendAssetItems 1 AssetName)) 1 AssetName [chair]
              Hin eq_refl eq_refl) as [Hd _].
  exact Hd.
Defined.

Lemma strict_order_witness :
  lessThan "v10" "v2" = inr true /\ lessThan "v2" "v1" = inr true /\
  lessThan "v10" "v1" = inr true.
Proof.
  assert (lessThan "v10" "v2" = inr true) as H1 by (vm_compute; reflexivity).
  assert (lessThan "v2" "v1" = inr true) as H2 by (vm_compute; reflexivity).
  split; [exact H1|]. split; [exact H2|].
  destruct (lessThan_is_a_strict_order "v10" "v2" "v1" H1 H2) as [H _]. exact H.
Defined.

Lemma empty_filter_witness :
  row_at prop_rows [0; 0] = Some (mkRow "7|Prop|xAbCy" []) /\
  visible indexIn_plain "" prop_rows [0; 0] = true.
Proof.
  split; [reflexivity|].
  apply (empty_filter_shows_every_row indexIn_plain prop_rows [0; 0]
           (mkRow "7|Prop|xAbCy" []) eq_refl).
Defined.

Lemma item_icon_witness :
  ItemIcons._icons
    (ItemIcons.run [ItemIcons.SetIcon (mkIcon thumb) (Some ItemIcons.Expanded);
                    ItemIcons.SetState ItemIcons.Expanded] ItemIcons.new_item)
    !! ItemIcons._state
         (ItemIcons.run [ItemIcons.SetIcon (mkIcon thumb) (Some ItemIcons.Expanded);
                         ItemIcons.SetState ItemIcons.Expanded] ItemIcons.new_item)
  = Some (mkIcon thumb) /\
  ItemIcons.icon
    (ItemIcons.run [ItemIcons.SetIcon (mkIcon thumb) (Some ItemIcons.Expanded);
                    ItemIcons.SetState ItemIcons.Expanded] ItemIcons.new_item)
  = Some (mkIcon thumb).
Proof.
  assert (ItemIcons._icons
            (ItemIcons.run [ItemIcons.SetIcon (mkIcon thumb) (Some ItemIcons.Expanded);
                            ItemIcons.SetState ItemIcons.Expanded] ItemIcons.new_item)
            !! ItemIcons._state
                 (ItemIcons.run [ItemIcons.SetIcon (mkIcon thumb) (Some ItemIcons.Expanded);
                                 ItemIcons.SetState ItemIcons.Expanded] ItemIcons.new_item)
          = Some (mkIcon thumb)) as H by (vm_compute; reflexivity).
  split; [exact H|].
  apply (item_shows_the_icon_of_its_state
           [ItemIcons.SetIcon (mkIcon thumb) (Some ItemIcons.Expanded);
            ItemIcons.SetState ItemIcons.Expanded] (mkIcon thumb) H).
Defined.

Lemma details_shown_witness :
  AssetLibrary._state
    (AssetLibrary._asset_details
       (AssetLibrary.run
          [AssetLibrary.ItemClicked (AssetLibrary.AssetRow 0);
           AssetLibrary.ItemClicked (AssetLibrary.AssetRow 1);
           AssetLibrary.Answered 1 (Some (mkAssetDetails "table_v2" 2 0 0 None));
           AssetLibrary.Answered 0 (Some (mkAssetDetails "chair_v1" 1 0 0 None))]
          (AssetLibrary.new_library
             (fun n => mkAssetInfo (IdInt (Z.of_nat n)) "Prop" "asset" None None))))
  = AssetLibrary.Ready /\
  exists current d,
    AssetLibrary._current_asset_info
      (AssetLibrary.run
         [AssetLibrary.ItemClicked (AssetLibrary.AssetRow 0);
          AssetLibrary.ItemClicked (AssetLibrary.AssetRow 1);
          AssetLibrary.Answered 1 (Some (mkAssetDetails "table_v2" 2 0 0 None));
          AssetLibrary.Answered 0 (Some (mkAssetDetails "chair_v1" 1 0 0 None))]
         (AssetLibrary.new_library
            (fun n => mkAssetInfo (IdInt (Z.of_nat n)) "Prop" "asset" None None)))
    = Some current /\
    details
      (AssetLibrary.assets
         (AssetLibrary.run
            [AssetLibrary.ItemClicked (AssetLibrary.AssetRow 0);
             AssetLibrary.ItemClicked (AssetLibrary.AssetRow 1);
             AssetLibrary.Answered 1 (Some (mkAssetDetails "table_v2" 2 0 0 None));
             AssetLibrary.Answered 0 (Some (mkAssetDetails "chair_v1" 1 0 0 None))]
            (AssetLibrary.new_library
               (fun n => mkAssetInfo (IdInt (Z.of_nat n)) "Prop" "asset" None None)))
         current) = Some d /\
    AssetLibrary.shown
      (AssetLibrary._asset_details
         (AssetLibrary.run
            [AssetLibrary.ItemClicked (AssetLibrary.AssetRow 0);
             AssetLibrary.ItemClicked (AssetLibrary.AssetRow 1);
             AssetLibrary.Answered 1 (Some (mkAssetDetails "table_v2" 2 0 0 None));
             AssetLibrary.Answered 0 (Some (mkAssetDetails "chair_v1" 1 0 0 None))]
            (AssetLibrary.new_library
               (fun n => mkAssetInfo (IdInt (Z.of_nat n)) "Prop" "asset" None None))))
    = Some d.
Proof.
  split; [vm_compute; reflexivity|].
  apply (details_shown_are_those_of_the_asset_clicked_last
           (fun n => mkAssetInfo (IdInt (Z.of_nat n)) "Prop" "asset" None None)
           [AssetLibrary.ItemClicked (AssetLibrary.AssetRow 0);
            AssetLibrary.ItemClicked (AssetLibrary.AssetRow 1);
            AssetLibrary.Answered 1 (Some (mkAssetDetails "table_v2" 2 0 0 None));
            AssetLibrary.Answered 0 (Some (mkAssetDetails "chair_v1" 1 0 0 None))]).
  vm_compute. reflexivity.
Defined.

Lemma loading_overlay_witness :
  AssetLibrary.overlay_on_screen
    (AssetLibrary._asset_details
       (AssetLibrary.run [AssetLibrary.ItemClicked (AssetLibrary.AssetRow 0)]
          (AssetLibrary.new_library (fun _ => chair))))
  = true /\
  AssetLibrary.sent
    (AssetLibrary.run [AssetLibrary.ItemClicked (AssetLibrary.AssetRow 0)]
       (AssetLibrary.new_library (fun _ => chair))) <> [].
Proof.
  assert (AssetLibrary.overlay_on_screen
            (AssetLibrary._asset_details
               (AssetLibrary.run [AssetLibrary.ItemClicked (AssetLibrary.AssetRow 0)]
                  (AssetLibrary.new_library (fun _ => chair))))
          = true) as H by reflexivity.
  split; [exact H|].
  destruct (loading_overlay_is_up_only_while_details_are_requested (fun _ => chair)
              [AssetLibrary.ItemClicked (AssetLibrary.AssetRow 0)] H)
    as (_ & _ & c & _ & Hin).
  intros Hnil. rewrite Hnil in Hin. exact Hin.
Defined.

Lemma asset_rows_witness :
  items (AssetSelector.run (two_types ++ [ItemExpanded 1; Answered 0 (AssetList [chair])])
           (new_view (mkProject "7"))) !! 3
  = Some (mkItem "chair" (Some AssetName) (Some false) (Some "7|Prop|chair")
            (Some NotLoaded) (Some (DataAsset chair)) Normal []) /\
  exists a, Some (DataAsset chair) = Some (DataAsset a).
Proof.
  assert (items (AssetSelector.run
                   (two_types ++ [ItemExpanded 1; Answered 0 (AssetList [chair])])
                   (new_view (mkProject "7"))) !! 3
          = Some (mkItem "chair" (Some AssetName) (Some false) (Some "7|Prop|chair")
                    (Some NotLoaded) (Some (DataAsset chair)) Normal [])) as H
    by (vm_compute; reflexivity).
  split; [exact H|].
  apply (asset_rows_hold_their_asset_info (mkProject "7")
           (two_types ++ [ItemExpanded 1; Answered 0 (AssetList [chair])]) 3 _ H eq_refl).
Defined.

Lemma asset_types_witness :
  List.NoDup ["Prop"; "Set"] /\
  row_items 0 (AssetSelector.step (new_view (mkProject "7"))
                 (Answered 0 (Labels ["Prop"; "Set"])))
  = [type_row (mkProject "7") "Prop"; type_row (mkProject "7") "Set"].
Proof.
  assert (List.NoDup ["Prop"; "Set"]) as Hn
    by (constructor; [intros [H|[]]; discriminate|];
        constructor; [intros []|constructor]).
  split; [exact Hn|].
  destruct (asset_types_become_the_rows_of_the_root (mkProject "7") ["Prop"; "Set"] Hn)
    as [H _].
  exact H.
Defined.

Lemma view_loading_witness :
  TreeLoader.answers_fit (two_types ++ [FilterEntered (Some "chair")])
    (new_view (mkProject "7")) /\
  state (AssetSelector.run (two_types ++ [FilterEntered (Some "chair")])
           (new_view (mkProject "7"))) = Loading /\
  sent (AssetSelector.run (two_types ++ [FilterEntered (Some "chair")])
          (new_view (mkProject "7"))) <> [].
Proof.
  assert (TreeLoader.answers_fit (two_types ++ [FilterEntered (Some "chair")])
            (new_view (mkProject "7"))) as Hf by (vm_compute; auto).
  assert (state (AssetSelector.run (two_types ++ [FilterEntered (Some "chair")])
                   (new_view (mkProject "7"))) = Loading) as Hl
    by (vm_compute; reflexivity).
  split; [exact Hf|]. split; [exact Hl|].
  destruct (view_is_loading_only_while_a_request_is_out (mkProject "7")
              (two_types ++ [FilterEntered (Some "chair")]) Hf Hl) as (c & Hin & _).
  intros Hnil. rewrite Hnil in Hin. exact Hin.
Defined.

End MoreWitnesses.
